(** * diem: denoiser network, FastMRI helpers and the CIFAR training laps

    A shallow embedding of
      - [src/experiments/fastmri/utils.py] ([real2complex], [complex2real],
        [make_mask]),
      - [src/priors/nn.py] ([Modulation], [ResBlock], [AttBlock], [UNet]),
      - [src/experiments/cifar/train.py] ([train] and the job chain of
        [__main__]),
    with the properties the specification states about them. *)

From Stdlib Require Import ZArith QArith Lia List Bool Reals Qreals Lra.
From stdpp Require Import base option list gmap.

Set Warnings "-register-all".
Local Open Scope Z_scope.

(* ===================================================================== *)
(** ** FastMRI helpers: [experiments/fastmri/utils.py]                    *)
(* ===================================================================== *)

(** An n-dimensional array, seen from its last axis: [Row] is a 1-d array
    (the last axis), [Stack] adds a leading axis. *)
Inductive ndarray (A : Type) : Type :=
| Row (l : list A)
| Stack (xs : list (ndarray A)).
Arguments Row {A} l.
Arguments Stack {A} xs.

Section LastAxis.
Context {A B : Type}.

(** Applies a fallible operation along the last axis; an exception raised
    on any row aborts the whole call. *)
Fixpoint along_last (f : list A -> option (list B)) (x : ndarray A)
  : option (ndarray B) :=
  match x with
  | Row l => Row <$> f l
  | Stack xs =>
      Stack <$>
        (fix go (xs : list (ndarray A)) : option (list (ndarray B)) :=
           match xs with
           | [] => Some []
           | x :: xs =>
               match along_last f x, go xs with
               | Some y, Some ys => Some (y :: ys)
               | _, _ => None
               end
           end) xs
  end.

(** Applies a total operation along the last axis. *)
Fixpoint map_last (f : list A -> list B) (x : ndarray A) : ndarray B :=
  match x with
  | Row l => Row (f l)
  | Stack xs => Stack (map (map_last f) xs)
  end.

(** Every row (last-axis vector) of the array satisfies [P]. *)
Fixpoint all_rows (P : list A -> Prop) (x : ndarray A) : Prop :=
  match x with
  | Row l => P l
  | Stack xs =>
      (fix go (xs : list (ndarray A)) : Prop :=
         match xs with
         | [] => True
         | x :: xs => all_rows P x /\ go xs
         end) xs
  end.
End LastAxis.

(** [jnp.array_split(x, 2, axis=-1)]: two parts, the first one taking the
    extra element when the length is odd. *)
Definition array_split2 {A} (l : list A) : list A * list A :=
  let n := length l in
  let k := (n / 2 + n mod 2)%nat in
  (take k l, drop k l).

(** [jax.lax.complex(re, im)]: element-wise pairing; the operands must have
    the same shape, otherwise a [TypeError] is raised. *)
Definition lax_complex {F} (re im : list F) : option (list (F * F)) :=
  if decide (length re = length im) then Some (zip re im) else None.

Section Complex.
(** [F] is the floating-point scalar type; a complex scalar is the pair of
    its real and imaginary parts. *)
Context {F : Type}.

Definition real2complex_row (x : list F) : option (list (F * F)) :=
  let '(re, im) := array_split2 x in lax_complex re im.

Definition complex2real_row (z : list (F * F)) : list F :=
  (fst <$> z) ++ (snd <$> z).

Definition real2complex (x : ndarray F) : option (ndarray (F * F)) :=
  along_last real2complex_row x.

Definition complex2real (z : ndarray (F * F)) : ndarray F :=
  map_last complex2real_row z.

Definition last_axis_even (x : ndarray F) : Prop :=
  all_rows (fun l => Nat.Even (length l)) x.
End Complex.

(** The ceiling of the exact quotient [a / b], for [b <> 0]. *)
Definition ceil_div (a b : Z) : Z := - ((- a) / b).

(** [math.ceil(60 / r)] for an integer [r <> 0].  Python rounds the exact
    quotient to the nearest double: this never crosses an integer, except
    that a positive quotient of at most [2 ^ -1075] becomes [0.0]. *)
Definition ceil_60_div (r : Z) : Z :=
  if 60 * 2 ^ 1075 <=? r then 0 else ceil_div 60 r.

(** Normalisation of a slice bound against an axis of length [n]:
    negative bounds count from the end, and the result is clamped to
    [0, n]. *)
Definition slice_bound (n i : Z) : Z :=
  if i <? 0 then Z.max 0 (i + n) else Z.min i n.

(** [A.at[:, lo:hi].set(True)] on a 3-d boolean array. *)
Definition at_rows_set_true (lo hi : Z) (A : list (list (list bool)))
  : list (list (list bool)) :=
  (fun plane : list (list bool) =>
     let n := Z.of_nat (length plane) in
     let lo' := slice_bound n lo in
     let hi' := slice_bound n hi in
     imap (fun (i : nat) (row : list bool) =>
             if (lo' <=? Z.of_nat i) && (Z.of_nat i <? hi')
             then (fun _ => true) <$> row else row) plane) <$> A.

Definition Qltb (x y : Q) : bool := negb (Qle_bool y x).

(** [make_mask(r, key)].  [u i] is the uniform sample drawn for row [i]
    (by [np.random.uniform] when [key] is [None], by [jax.random.uniform]
    otherwise); the result is [None] when [60 / r] raises
    [ZeroDivisionError] (the denominator [320 * r - 120] is never zero for
    an integer [r]). *)
Definition make_mask (r : Z) (u : nat -> Q) : option (list (list (list bool))) :=
  let A := [ (fun i => [u i]) <$> seq 0 320 ] in
  let thr := (200 / inject_Z (320 * r - 120))%Q in
  let A := (fun plane : list (list Q) =>
              (fun row : list Q => (fun a => Qltb a thr) <$> row) <$> plane) <$> A in
  if decide (r = 0) then None else
  let c := ceil_60_div r in
  Some (at_rows_set_true (160 - c) (160 + c) A).

(** Shape of a 3-d array given as nested lists. *)
Definition has_shape3 {A} (d0 d1 d2 : nat) (x : list (list (list A))) : Prop :=
  length x = d0 /\
  Forall (fun p => length p = d1 /\ Forall (fun r => length r = d2) p) x.

(** Entry [x[i, j, k]]. *)
Definition entry3 {A} (x : list (list (list A))) (i j k : nat) : option A :=
  match x !! i with
  | Some p => match p !! j with Some r => r !! k | None => None end
  | None => None
  end.


(* ===================================================================== *)
(** ** The U-Net: [priors/nn.py], [UNet.__init__] and [UNet.__call__]     *)
(* ===================================================================== *)

(** The modules [UNet.__init__] puts in its stage lists, with the arguments
    they are constructed with.  [Conv] records the stride it is given (all
    ones when the argument is left to its default). *)
Inductive block : Type :=
| PosEmbedding
| ResBlock (channels emb_features : Z) (dropout : option Q)
           (kernel_size : list Z) (padding : list (Z * Z))
| AttBlock (channels emb_features heads : Z)
| Conv (in_channels out_channels : Z)
       (kernel_size stride : list Z) (padding : list (Z * Z))
| Resample (factor : list Z)
| Linear (in_features out_features : Z)
| Sequential (layers : list block).

Record UNet : Type := mkUNet {
  descent : list (list block);
  ascent : list (list block)
}.

(** The arguments of [UNet.__init__] (the PRNG key only seeds the weights). *)
Record UNetConfig : Type := mkUNetConfig {
  in_channels : Z;
  out_channels : Z;
  hid_channels : list Z;
  hid_blocks : list Z;
  kernel_size : list Z;
  emb_features : Z;
  heads : gmap Z Z;
  dropout : option Q
}.

Section UNetInit.
Variable cfg : UNetConfig.

Definition stride : list Z := (fun _ => 2) <$> kernel_size cfg.
Definition unit_stride : list Z := (fun _ => 1) <$> kernel_size cfg.
Definition padding : list (Z * Z) := (fun k => (k / 2, k / 2)) <$> kernel_size cfg.

(** [i in heads] *)
Definition in_heads (i : nat) : bool := bool_decide (is_Some (heads cfg !! Z.of_nat i)).

(** [ResBlock(hid_channels[i], emb_features, dropout=dropout, **kwargs)];
    [hid_channels[i]] raises [IndexError] out of range. *)
Definition new_ResBlock (i : nat) : option block :=
  c ← hid_channels cfg !! i;
  Some (ResBlock c (emb_features cfg) (dropout cfg) (kernel_size cfg) padding).

(** [AttBlock(hid_channels[i], emb_features, heads[i])]; the constructor
    computes [channels // heads], which raises [ZeroDivisionError] for a
    head count of zero. *)
Definition new_AttBlock (i : nat) : option block :=
  c ← hid_channels cfg !! i;
  h ← heads cfg !! Z.of_nat i;
  if decide (h = 0) then None else Some (AttBlock c (emb_features cfg) h).

(** The loop [for _ in range(blocks)] of stage [i], on the lists [do] and
    [up] built so far. *)
Fixpoint stage_repeats (i : nat) (n : nat) (do up : list block)
  : option (list block * list block) :=
  match n with
  | O => Some (do, up)
  | S n =>
      r1 ← new_ResBlock i;
      r2 ← new_ResBlock i;
      let do := do ++ [r1] in
      let up := up ++ [r2] in
      if in_heads i then
        a1 ← new_AttBlock i;
        a2 ← new_AttBlock i;
        stage_repeats i n (do ++ [a1]) (up ++ [a2])
      else stage_repeats i n do up
  end.

(** The body of the loop over [enumerate(hid_blocks)]: the lists [do] and
    [up] of stage [i]. *)
Definition UNet_stage (i : nat) (blocks : Z) : option (list block * list block) :=
  let do := if in_heads i then [PosEmbedding] else [] in
  '(do, up) ← stage_repeats i (Z.to_nat blocks) do [];
  if decide (0 < i)%nat then
    cprev ← hid_channels cfg !! (i - 1)%nat;
    c ← hid_channels cfg !! i;
    let do := Conv cprev c (kernel_size cfg) stride padding :: do in
    let up := up ++ [Sequential [Resample stride;
                                 Conv c cprev (kernel_size cfg) unit_stride padding]] in
    Some (do, up)
  else
    c ← hid_channels cfg !! i;
    let do := Conv (in_channels cfg) c (kernel_size cfg) unit_stride padding :: do in
    let up := up ++ [Linear c (out_channels cfg)] in
    Some (do, up).

(** The loop over the stages, from stage [i] on: [descent.append(do)] and
    [ascent.insert(0, up)]. *)
Fixpoint UNet_stages (i : nat) (blocks : list Z) (net : UNet) : option UNet :=
  match blocks with
  | [] => Some net
  | b :: rest =>
      '(do, up) ← UNet_stage i b;
      UNet_stages (S i) rest (mkUNet (descent net ++ [do]) (up :: ascent net))
  end.

Definition UNet_init : option UNet :=
  UNet_stages 0 (hid_blocks cfg) (mkUNet [] []).
End UNetInit.

(** [isinstance(block, (ResBlock, AttBlock))] *)
Definition takes_embedding (b : block) : bool :=
  match b with
  | ResBlock _ _ _ _ _ | AttBlock _ _ _ => true
  | _ => false
  end.

Section UNetCall.
(** [T] is the type of array values and [E] of the embedding [t]; the
    layers' numerics are those of the library and are left abstract. *)
Context {T E : Type}.
Variable add : T -> T -> T.
Variable call_xt : block -> T -> E -> T.
Variable call_x : block -> T -> T.

(** A Python array object: its identity and its value.  Every operation
    and every layer call returns a newly created object. *)
Record array : Type := mkArray { oid : nat; value : T }.

Definition apply_block (b : block) (v : T) (t : E) : T :=
  if takes_embedding b then call_xt b v t else call_x b v.

(** The inner loop [for block in blocks]; [next] is the identity the next
    created object gets. *)
Fixpoint run_blocks (blocks : list block) (x : array) (t : E) (next : nat)
  : array * nat :=
  match blocks with
  | [] => (x, next)
  | b :: rest =>
      run_blocks rest (mkArray next (apply_block b (value x) t)) t (S next)
  end.

(** The loop over [self.descent].  [memory] is kept with its last element
    first, so that [memory.append] is a cons and [memory.pop] takes the
    head. *)
Fixpoint run_descent (stages : list (list block)) (x : array) (t : E)
         (memory : list array) (next : nat) : array * list array * nat :=
  match stages with
  | [] => (x, memory, next)
  | blocks :: rest =>
      let '(x, next) := run_blocks blocks x t next in
      run_descent rest x t (x :: memory) next
  end.

(** The loop over [self.ascent]; [memory.pop()] on an empty list raises
    [IndexError]. *)
Fixpoint run_ascent (stages : list (list block)) (x : array) (t : E)
         (memory : list array) (next : nat) : option (array * nat) :=
  match stages with
  | [] => Some (x, next)
  | blocks :: rest =>
      match memory with
      | [] => None
      | y :: memory =>
          let '(x, next) :=
            if decide (oid x = oid y) then (x, next)
            else (mkArray next (add (value x) (value y)), S next) in
          let '(x, next) := run_blocks blocks x t next in
          run_ascent rest x t memory next
      end
  end.

(** [UNet.__call__]: the input array is the object [0]. *)
Definition UNet_call (net : UNet) (x : T) (t : E) : option T :=
  let '(x, memory, next) := run_descent (descent net) (mkArray 0 x) t [] 1 in
  (fun r => value (fst r)) <$> run_ascent (ascent net) x t memory next.

(** *** The forward pass as the specification words it *)

Definition apply_blocks (blocks : list block) (v : T) (t : E) : T :=
  fold_left (fun v b => apply_block b v t) blocks v.

(** The outputs of the descending stages, first stage first. *)
Fixpoint descent_outputs (stages : list (list block)) (v : T) (t : E) : list T :=
  match stages with
  | [] => []
  | blocks :: rest =>
      let y := apply_blocks blocks v t in
      y :: descent_outputs rest y t
  end.

(** The [j]-th ascending stage matches the descending stage [n - 1 - j];
    it adds that stage's output to the activation, except for the deepest
    stage ([n - 1], the last descending one), and then applies its blocks. *)
Fixpoint ascend_with_skips (stages : list (list block)) (j : nat)
         (outs : list T) (v : T) (t : E) : option T :=
  match stages with
  | [] => Some v
  | blocks :: rest =>
      let n := length outs in
      if decide (j < n)%nat then
        y ← outs !! (n - 1 - j)%nat;
        let v := if decide (n - 1 - j = n - 1)%nat then v else add v y in
        ascend_with_skips rest (S j) outs (apply_blocks blocks v t) t
      else None
  end.

Definition UNet_with_skips (net : UNet) (x : T) (t : E) : option T :=
  let outs := descent_outputs (descent net) x t in
  ascend_with_skips (ascent net) 0 outs (List.last outs x) t.
End UNetCall.

(** *** Vocabulary for the layout of a stage *)

Definition is_attention (b : block) : bool :=
  match b with AttBlock _ _ _ => true | _ => false end.

Definition is_residual (b : block) : bool :=
  match b with ResBlock _ _ _ _ _ => true | _ => false end.

Definition is_posemb (b : block) : bool :=
  match b with PosEmbedding => true | _ => false end.

(** The projections that enter and leave a stage: a convolution, an
    upsampling followed by a convolution, or the final linear layer. *)
Definition is_projection (b : block) : bool :=
  match b with
  | Conv _ _ _ _ _ | Linear _ _ => true
  | Sequential [Resample _; Conv _ _ _ _ _] => true
  | _ => false
  end.

Definition has_attention (l : list block) : bool := existsb is_attention l.

(** One repeat of stage [i]: a residual block, followed by an attention
    block with [heads[i]] heads when [i] is a key of [heads]. *)
Definition stage_unit (cfg : UNetConfig) (i : nat) (c : Z) : list block :=
  ResBlock c (emb_features cfg) (dropout cfg) (kernel_size cfg) (padding cfg)
  :: match heads cfg !! Z.of_nat i with
     | Some h => [AttBlock c (emb_features cfg) h]
     | None => []
     end.

Definition stage_body (cfg : UNetConfig) (i : nat) (c : Z) (blocks : Z) : list block :=
  mjoin (replicate (Z.to_nat blocks) (stage_unit cfg i c)).

(** The projection that enters stage [i] and the one that leaves it, for a
    stage with [c] channels. *)
Definition entry_projection (cfg : UNetConfig) (i : nat) (c : Z) : block :=
  match i with
  | O => Conv (in_channels cfg) c (kernel_size cfg) (unit_stride cfg) (padding cfg)
  | S j => Conv (nth j (hid_channels cfg) 0) c (kernel_size cfg) (stride cfg) (padding cfg)
  end.

Definition exit_projection (cfg : UNetConfig) (i : nat) (c : Z) : block :=
  match i with
  | O => Linear c (out_channels cfg)
  | S j => Sequential [Resample (stride cfg);
                       Conv c (nth j (hid_channels cfg) 0) (kernel_size cfg)
                            (unit_stride cfg) (padding cfg)]
  end.

(** *** Configurations used in the experiments and in the examples *)

(** [CONFIG] of [experiments/cifar/train.py], on 3 image channels. *)
Definition cfg_cifar : UNetConfig :=
  mkUNetConfig 3 3 [128; 256; 384] [5; 5; 5] [3; 3] 256 {[ 2 := 4 ]} (Some (1 # 10)%Q).

(** A small two-stage network with attention at the deeper stage. *)
Definition cfg_small : UNetConfig :=
  mkUNetConfig 3 3 [8; 16] [1; 1] [3; 3] 4 {[ 1 := 2 ]} None.

(** Symbolic activations: the expression an activation was computed by. *)
Inductive expr : Type :=
| Input
| Plus (x y : expr)
| Call (b : block) (x : expr).

(** A one-stage network with an even kernel size. *)
Definition cfg_even_kernel : UNetConfig :=
  mkUNetConfig 3 5 [8] [0] [2; 2] 4 ∅ None.

(** A two-stage network with 3 x 3 kernels. *)
Definition cfg_two_stages : UNetConfig :=
  mkUNetConfig 3 5 [8; 8] [1; 1] [3; 3] 4 ∅ None.

(** A network without any stage. *)
Definition cfg_no_stage : UNetConfig :=
  mkUNetConfig 3 5 [] [] [3; 3] 4 ∅ None.

(** A network with a configured attention stage that has no repeats:
    [UNet(3, 3, hid_channels=(64,), hid_blocks=(0,), heads={0: 1})]. *)
Definition cfg_no_repeats : UNetConfig :=
  mkUNetConfig 3 3 [64] [0] [3; 3] 64 {[ 0 := 1 ]} None.


(* ===================================================================== *)
(** ** The modules of [priors/nn.py] and their forward passes             *)
(* ===================================================================== *)

Module nn.

(** The layers of the library that the modules are assembled from, with
    their parameters; [W] is the type of a parameter array. *)
Inductive layer (W : Type) : Type :=
| Linear (in_features out_features : Z) (weight bias : W)
| Conv (in_channels out_channels : Z)
       (kernel_size stride : list Z) (padding : list (Z * Z)) (weight bias : W)
| SiLU
| LayerNorm
| Identity
| TrainingDropout (p : Q)
| Rearrange_11C
| MultiheadAttention (heads in_features out_features hid_features : Z) (params : W).
Arguments Linear {W}.
Arguments Conv {W}.
Arguments SiLU {W}.
Arguments LayerNorm {W}.
Arguments Identity {W}.
Arguments TrainingDropout {W}.
Arguments Rearrange_11C {W}.
Arguments MultiheadAttention {W}.

Definition is_conv {W} (l : layer W) : bool :=
  match l with Conv _ _ _ _ _ _ _ => true | _ => false end.

(** The layer a dropout rate stands for in a residual block. *)
Definition dropout_layer {W} (dropout : option Q) : layer W :=
  match dropout with None => Identity | Some p => TrainingDropout p end.

Record Modulation (W : Type) : Type := mkModulation { mlp : list (layer W) }.
Arguments mkModulation {W}.
Arguments mlp {W}.

Record ResBlock (W : Type) : Type := mkResBlock {
  res_modulation : Modulation W;
  block : list (layer W)
}.
Arguments mkResBlock {W}.
Arguments res_modulation {W}.
Arguments block {W}.

Record AttBlock (W : Type) : Type := mkAttBlock {
  att_modulation : Modulation W;
  norm : layer W;
  attn : layer W
}.
Arguments mkAttBlock {W}.
Arguments att_modulation {W}.
Arguments norm {W}.
Arguments attn {W}.

Section Constructors.
Context {W : Type}.
(** The library's initialisers: the weight and the bias a layer of the
    given sizes gets from the [n]-th key split of the ambient generator. *)
Variable init_weight : Z -> Z -> nat -> W.
Variable init_bias : Z -> nat -> W.
(** [array * s] for a Python float [s]. *)
Variable scale : Q -> W -> W.

Definition new_Linear (i o : Z) (rng : nat) : layer W * nat :=
  (Linear i o (init_weight i o rng) (init_bias o rng), S rng).

Definition new_Conv (i o : Z) (ks st : list Z) (pad : list (Z * Z)) (rng : nat)
  : layer W * nat :=
  (Conv i o ks st pad (init_weight i o rng) (init_bias o rng), S rng).

(** [layer.weight.value = layer.weight.value * s]; a layer without a
    weight raises [AttributeError]. *)
Definition scale_weight (s : Q) (l : layer W) : option (layer W) :=
  match l with
  | Linear i o w b => Some (Linear i o (scale s w) b)
  | Conv i o ks st pad w b => Some (Conv i o ks st pad (scale s w) b)
  | _ => None
  end.

(** [Modulation.__init__]: the update goes to [self.mlp.layers[-2]]. *)
Definition Modulation_init (channels emb_features : Z) (rng : nat)
  : option (Modulation W * nat) :=
  let '(l1, rng) := new_Linear emb_features emb_features rng in
  let '(l2, rng) := new_Linear emb_features (3 * channels) rng in
  let layers := [l1; SiLU; l2; Rearrange_11C] in
  let i := (length layers - 2)%nat in
  l ← layers !! i;
  l' ← scale_weight (1 # 100) l;
  Some (mkModulation (<[i := l']> layers), rng).

(** [ResBlock.__init__]; the keyword arguments of [UNet] are the kernel
    size and the padding, the stride is left to its default. *)
Definition ResBlock_init (channels emb_features : Z) (dropout : option Q)
           (ks : list Z) (pad : list (Z * Z)) (rng : nat)
  : option (ResBlock W * nat) :=
  '(m, rng) ← Modulation_init channels emb_features rng;
  let st := (fun _ => 1) <$> ks in
  let '(c1, rng) := new_Conv channels channels ks st pad rng in
  let '(c2, rng) := new_Conv channels channels ks st pad rng in
  Some (mkResBlock m
          [LayerNorm; c1; SiLU; dropout_layer dropout; c2], rng).

(** [AttBlock.__init__]; [channels // heads] raises for zero heads. *)
Definition AttBlock_init (channels emb_features heads : Z)
           (attn_params : nat -> W) (rng : nat)
  : option (AttBlock W * nat) :=
  '(m, rng) ← Modulation_init channels emb_features rng;
  if decide (heads = 0) then None else
  Some (mkAttBlock m LayerNorm
          (MultiheadAttention heads channels channels (channels / heads)
                              (attn_params rng)), S rng).
End Constructors.

Section Forward.
Context {W T : Type}.
(** Array arithmetic with broadcasting, and [a + 1]. *)
Variable add mul : T -> T -> T.
Variable add_one : T -> T.
(** The forward pass of a library layer. *)
Variable layer_call : layer W -> T -> T.
(** [jnp.array_split(., 3, axis=-1)] *)
Variable array_split3 : T -> T * T * T.
(** [rearrange(y, '... H W C -> ... (H W) C')] and [y.reshape(x.shape)] *)
Variable flatten_hw : T -> T.
Variable reshape_like : T -> T -> T.

(** [nn.Sequential.__call__]: the layers in order. *)
Definition Sequential_call (layers : list (layer W)) (x : T) : T :=
  fold_left (fun x l => layer_call l x) layers x.

Definition Modulation_call (m : Modulation W) (t : T) : T * T * T :=
  array_split3 (Sequential_call (mlp m) t).

Definition ResBlock_call (r : ResBlock W) (x t : T) : T :=
  let '(a, b, c) := Modulation_call (res_modulation r) t in
  let y := add (mul (add_one a) x) b in
  let y := Sequential_call (block r) y in
  let y := mul c y in
  add x y.

Definition AttBlock_call (r : AttBlock W) (x t : T) : T :=
  let '(a, b, c) := Modulation_call (att_modulation r) t in
  let y := add (mul (add_one a) x) b in
  let y := layer_call (norm r) y in
  let y := flatten_hw y in
  let y := layer_call (attn r) y in
  let y := reshape_like y x in
  let y := mul c y in
  add x y.

(** *** The residual block as the specification words it *)

(** Normalise the input, modulate it, run the two convolutions with the
    nonlinearity and the dropout between them, scale by [c] and add the
    input back.  [norm], [conv1], [act], [drop] and [conv2] are the five
    layers of the block. *)
Definition ResBlock_normalize_first (r : ResBlock W) (x t : T) : option T :=
  match block r with
  | [norm; conv1; act; drop; conv2] =>
      let '(a, b, c) := Modulation_call (res_modulation r) t in
      let y := layer_call norm x in
      let y := add (mul (add_one a) y) b in
      let y := layer_call conv2 (layer_call drop (layer_call act (layer_call conv1 y))) in
      Some (add x (mul c y))
  | _ => None
  end.

(** The same steps with the modulation applied to the input itself and
    the normalisation after it. *)
Definition ResBlock_modulate_first (r : ResBlock W) (x t : T) : option T :=
  match block r with
  | [norm; conv1; act; drop; conv2] =>
      let '(a, b, c) := Modulation_call (res_modulation r) t in
      let y := add (mul (add_one a) x) b in
      let y := layer_call norm y in
      let y := layer_call conv2 (layer_call drop (layer_call act (layer_call conv1 y))) in
      Some (add x (mul c y))
  | _ => None
  end.
End Forward.

End nn.

(* ===================================================================== *)
(** ** Shapes: what the layers do to the shape of an array                *)
(* ===================================================================== *)

(** The shape rules of the library layers and of array arithmetic.  An
    activation is followed by its shape, [None] once an operation has
    raised.  Leading batch axes, over which every layer maps, may be
    present or not. *)
Module Shape.

Definition shape : Type := list Z.

(** Broadcasting of two axis lengths: equal, or one of them is 1. *)
Definition broadcast_dim (d1 d2 : Z) : option Z :=
  if decide (d1 = d2) then Some d1
  else if decide (d1 = 1) then Some d2
  else if decide (d2 = 1) then Some d1
  else None.

(** Broadcasting of two shapes read from their last axis. *)
Fixpoint broadcast_rev (r1 r2 : list Z) : option (list Z) :=
  match r1, r2 with
  | [], r | r, [] => Some r
  | d1 :: r1, d2 :: r2 =>
      d ← broadcast_dim d1 d2;
      r ← broadcast_rev r1 r2;
      Some (d :: r)
  end.

Definition broadcast (s1 s2 : shape) : option shape :=
  reverse <$> broadcast_rev (reverse s1) (reverse s2).

(** [x + y] and [x * y] *)
Definition add (a b : option shape) : option shape :=
  s1 ← a; s2 ← b; broadcast s1 s2.

Definition add_one (a : option shape) : option shape := a.

(** Length of part [i] when an axis of length [d] is split in 3. *)
Definition part3 (d : Z) (i : Z) : Z := d / 3 + (if i <? d mod 3 then 1 else 0).

Definition array_split3 (a : option shape)
  : option shape * option shape * option shape :=
  match a with
  | Some s =>
      match reverse s with
      | d :: r =>
          (Some (reverse (part3 d 0 :: r)),
           Some (reverse (part3 d 1 :: r)),
           Some (reverse (part3 d 2 :: r)))
      | [] => (None, None, None)
      end
  | None => (None, None, None)
  end.

(** Output length of a convolution along one axis. *)
Definition conv_dim (d k s : Z) (p : Z * Z) : Z :=
  Z.max 0 ((d + fst p + snd p - k) / s + 1).

Fixpoint conv_dims (ds ks ss : list Z) (ps : list (Z * Z)) : option (list Z) :=
  match ds, ks, ss, ps with
  | [], [], [], [] => Some []
  | d :: ds, k :: ks, s :: ss, p :: ps =>
      if decide (0 < s) then
        r ← conv_dims ds ks ss ps; Some (conv_dim d k s p :: r)
      else None
  | _, _, _, _ => None
  end.

(** Applies [f] to the [n] axes before the last one, which must be [c]
    long and becomes [c'] long. *)
Definition on_spatial (n : nat) (c c' : option Z)
           (f : list Z -> option (list Z)) (s : shape) : option shape :=
  match reverse s with
  | d :: r =>
      if (match c with Some c => bool_decide (d = c) | None => true end)
         && bool_decide (n <= length r)%nat then
        sp ← f (reverse (take n r));
        Some (reverse (drop n r) ++ sp ++ [match c' with Some c' => c' | None => d end])
      else None
  | [] => None
  end.

Definition layer_call (l : nn.layer unit) (a : option shape) : option shape :=
  s ← a;
  match l with
  | nn.Linear i o _ _ => on_spatial 0 (Some i) (Some o) Some s
  | nn.Conv i o ks st pad _ _ =>
      on_spatial (length ks) (Some i) (Some o) (fun ds => conv_dims ds ks st pad) s
  | nn.SiLU | nn.LayerNorm | nn.Identity | nn.TrainingDropout _ => Some s
  | nn.Rearrange_11C => on_spatial 0 None None (fun _ => Some [1; 1]) s
  | nn.MultiheadAttention _ i o _ _ =>
      on_spatial 1 (Some i) (Some o) Some s
  end.

Definition size (s : shape) : Z := fold_right Z.mul 1 s.

(** ['... H W C -> ... (H W) C'] *)
Definition flatten_hw (a : option shape) : option shape :=
  s ← a;
  on_spatial 2 None None
    (fun hw => match hw with [h; w] => Some [h * w] | _ => None end) s.

(** [y.reshape(x.shape)] *)
Definition reshape_like (y x : option shape) : option shape :=
  sy ← y; sx ← x;
  if decide (size sy = size sx) then Some sx else None.

(** [PosEmbedding.__call__]: [sincos(H, W, C)] has [4 * (C // 4)] channels. *)
Definition PosEmbedding_call (a : option shape) : option shape :=
  s ← a;
  match reverse s with
  | c :: w :: h :: _ => broadcast s [h; w; 4 * (c / 4)]
  | _ => None
  end.

(** [nn.Resample(factor, method='nearest')] *)
Definition Resample_call (factor : list Z) (a : option shape) : option shape :=
  s ← a;
  on_spatial (length factor) None None
    (fun ds => Some (zip_with Z.mul factor ds)) s.

Definition unit_weight (i o : Z) (n : nat) : unit := tt.
Definition unit_bias (o : Z) (n : nat) : unit := tt.
Definition unit_scale (s : Q) (w : unit) : unit := tt.

Definition ResBlock_call (r : nn.ResBlock unit) (x t : option shape) : option shape :=
  nn.ResBlock_call add add add_one layer_call array_split3 r x t.

Definition AttBlock_call (r : nn.AttBlock unit) (x t : option shape) : option shape :=
  nn.AttBlock_call add add add_one layer_call array_split3 flatten_hw reshape_like r x t.

(** [block(x, t)] for the blocks that take the embedding. *)
Definition call_xt (b : block) (x t : option shape) : option shape :=
  match b with
  | ResBlock c e d ks pad =>
      '(r, _) ← nn.ResBlock_init unit_weight unit_bias unit_scale c e d ks pad 0;
      ResBlock_call r x t
  | AttBlock c e h =>
      '(r, _) ← nn.AttBlock_init unit_weight unit_bias unit_scale c e h (fun _ => tt) 0;
      AttBlock_call r x t
  | _ => None
  end.

(** [block(x)] for the other blocks. *)
Fixpoint call_x (b : block) (x : option shape) : option shape :=
  match b with
  | PosEmbedding => PosEmbedding_call x
  | Conv i o ks st pad => layer_call (nn.Conv i o ks st pad tt tt) x
  | Resample f => Resample_call f x
  | Linear i o => layer_call (nn.Linear i o tt tt) x
  | Sequential layers =>
      (fix go (ls : list block) (x : option shape) : option shape :=
         match ls with
         | [] => x
         | l :: ls => go ls (call_x l x)
         end) layers x
  | ResBlock _ _ _ _ _ | AttBlock _ _ _ => None
  end.

(** Shape of [UNet.__call__(x, t)] for an input of shape [x] and an
    embedding of shape [t]. *)
Definition UNet_call (net : UNet) (x t : shape) : option shape :=
  mjoin (UNet_call add call_xt call_x net (Some x) (Some t)).

End Shape.

(* ===================================================================== *)
(** ** Values: the modules on real numbers                                *)
(* ===================================================================== *)

(** Arrays of reals with a position axis and a channel axis: an activation
    of shape (H, W, C) is the list of its H * W channel vectors, an
    embedding or a modulation output is a single channel vector.  A
    parameter array is a matrix, a bias a matrix with one row. *)
Module Real.
Local Open Scope R_scope.

Abbreviation vec := (list R).
Abbreviation tensor := (list (list R)).

Definition vadd (u v : vec) : vec := zip_with Rplus u v.
Definition vscale (s : R) (v : vec) : vec := Rmult s <$> v.
Definition zeros (n : nat) : vec := replicate n 0.
Definition sum (v : vec) : R := fold_right Rplus 0 v.

(** [r @ W] for a weight of shape (in, out). *)
Fixpoint vecmat (r : vec) (W : list vec) (o : nat) : vec :=
  match r, W with
  | ri :: r, Wi :: W => vadd (vscale ri Wi) (vecmat r W o)
  | _, _ => zeros o
  end.

(** [nn.Linear]: [x @ weight + bias] at every position. *)
Definition linear_row (W b : tensor) (o : Z) (r : vec) : vec :=
  vadd (vecmat r W (Z.to_nat o)) (hd [] b).

Definition silu (v : R) : R := v / (1 + exp (- v)).

(** [nn.LayerNorm] over the channel axis, with its [1e-5] in the
    denominator. *)
Definition epsilon : R := / 100000.

Definition layer_norm_row (r : vec) : vec :=
  let n := INR (length r) in
  let mean := sum r / n in
  let var := sum ((fun v => (v - mean) * (v - mean)) <$> r) / n in
  (fun v => (v - mean) / sqrt (var + epsilon)) <$> r.

(** Broadcasting along the position axis: an array with one position is
    repeated. *)
Definition bcast (n : nat) (x : tensor) : tensor :=
  match x with
  | [r] => replicate n r
  | _ => x
  end.

Definition bzip (f : R -> R -> R) (x y : tensor) : tensor :=
  let n := Nat.max (length x) (length y) in
  zip_with (zip_with f) (bcast n x) (bcast n y).

Definition add : tensor -> tensor -> tensor := bzip Rplus.
Definition mul : tensor -> tensor -> tensor := bzip Rmult.
Definition add_one (a : tensor) : tensor := (fun r : vec => (fun v => v + 1) <$> r) <$> a.

(** [jnp.array_split(., 3, axis=-1)] *)
Definition split3_row (r : vec) : vec * vec * vec :=
  let d := length r in
  let k (i : nat) := (d / 3 + (if i <? d mod 3 then 1 else 0))%nat in
  (take (k 0%nat) r, take (k 1%nat) (drop (k 0%nat) r), drop (k 0%nat + k 1%nat) r).

Definition array_split3 (x : tensor) : tensor * tensor * tensor :=
  ((fun r => fst (fst (split3_row r))) <$> x,
   (fun r => snd (fst (split3_row r))) <$> x,
   (fun r => snd (split3_row r)) <$> x).

(** [weight * s] *)
Definition scale (s : Q) (W : tensor) : tensor := vscale (Q2R s) <$> W.

Section Layers.
(** The convolution, the attention and the dropout of the library. *)
Variable external : nn.layer tensor -> tensor -> tensor.

Definition layer_call (l : nn.layer tensor) (x : tensor) : tensor :=
  match l with
  | nn.Linear _ o W b => linear_row W b o <$> x
  | nn.SiLU => (fun r : vec => silu <$> r) <$> x
  | nn.LayerNorm => layer_norm_row <$> x
  | nn.Identity | nn.Rearrange_11C => x
  | _ => external l x
  end.

Definition Modulation_call (m : nn.Modulation tensor) (t : tensor) :=
  nn.Modulation_call layer_call array_split3 m t.

Definition ResBlock_call (r : nn.ResBlock tensor) (x t : tensor) : tensor :=
  nn.ResBlock_call add mul add_one layer_call array_split3 r x t.

Definition AttBlock_call (r : nn.AttBlock tensor) (x t : tensor) : tensor :=
  nn.AttBlock_call add mul add_one layer_call array_split3 (fun y => y) (fun y _ => y) r x t.
End Layers.

(** Entry [x[p, k]]. *)
Definition entry (x : tensor) (p k : nat) : R := nth k (nth p x []) 0.

(** [x] has [P] positions of [C] channels. *)
Definition has_shape (P C : nat) (x : tensor) : Prop :=
  length x = P /\ Forall (fun r => length r = C) x.

(** Every entry of [v] is at most [bound] in absolute value. *)
Definition bounded (bound : R) (v : vec) : Prop :=
  Forall (fun e => Rabs e <= bound) v.

(** A convolution with a 1 x 1 kernel is a linear map at every position;
    the other external layers are taken to be the identity here. *)
Definition pointwise_conv (l : nn.layer tensor) (x : tensor) : tensor :=
  match l with
  | nn.Conv _ o [1%Z; 1%Z] _ _ W b => linear_row W b o <$> x
  | _ => x
  end.

End Real.

(** *** A small residual block on two channels *)

(** Initial parameters: the two linear layers of the modulation (keys 0
    and 1) get a zero weight, the second one the bias
    [(0, 0, 1, 0, 1, 1)], so that [a = (0, 0)], [b = (1, 0)] and
    [c = (1, 1)]; the two 1 x 1 convolutions get the identity matrix and a
    zero bias. *)
Definition init_weight_2 (i o : Z) (n : nat) : Real.tensor :=
  if (n <? 2)%nat then replicate (Z.to_nat i) (Real.zeros (Z.to_nat o))
  else [[1; 0]; [0; 1]]%R.

Definition init_bias_2 (o : Z) (n : nat) : Real.tensor :=
  if (n =? 1)%nat then [[0; 0; 1; 0; 1; 1]]%R
  else [Real.zeros (Z.to_nat o)].

Definition ResBlock_2 : option (nn.ResBlock Real.tensor * nat) :=
  nn.ResBlock_init init_weight_2 init_bias_2 Real.scale 2 1 None [1; 1] [(0, 0); (0, 0)] 0.

(** The normalised value of the second of two channels holding 0 and 1. *)
Definition spread : R := ((/ 2) / sqrt (/ 4 + Real.epsilon))%R.

(** *** A residual block whose output projection has a bias *)

(** Initial parameters with entries below 1 in absolute value: the two
    linear layers of the modulation get a zero weight, the second one the
    bias [(0, 0, 0, 0, 9/10, 9/10)], so that [a = b = (0, 0)] and
    [c = (9/10, 9/10)]; the two 1 x 1 convolutions get half the identity
    matrix and a zero bias. *)
Definition init_weight_3 (i o : Z) (n : nat) : Real.tensor :=
  if (n <? 2)%nat then replicate (Z.to_nat i) (Real.zeros (Z.to_nat o))
  else [[/ 2; 0]; [0; / 2]]%R.

Definition init_bias_3 (o : Z) (n : nat) : Real.tensor :=
  if (n =? 1)%nat then [[0; 0; 0; 0; 9 / 10; 9 / 10]]%R
  else [Real.zeros (Z.to_nat o)].

Definition ResBlock_3 : option (nn.ResBlock Real.tensor * nat) :=
  nn.ResBlock_init init_weight_3 init_bias_3 Real.scale 2 1 None [1; 1] [(0, 0); (0, 0)] 0.

(** *** A modulation without bias *)

(** Every weight is 1 and every bias 0. *)
Definition init_weight_ones (i o : Z) (n : nat) : Real.tensor :=
  replicate (Z.to_nat i) (replicate (Z.to_nat o) 1%R).

Definition init_bias_zero (o : Z) (n : nat) : Real.tensor :=
  [Real.zeros (Z.to_nat o)].

(* ===================================================================== *)
(** ** The training laps: [experiments/cifar/train.py]                    *)
(* ===================================================================== *)

Module Train.

(** What a computation returns: a value, or an exception that aborts it. *)
Inductive outcome (A : Type) : Type :=
| Done (a : A)
| Raised.
Arguments Done {A} a.
Arguments Raised {A}.

Section Model.
(** [P]: the arrays of a model (network parameters, or the moments of the
    Gaussian prior); [V]: the mean [mu_x]; [D]: a generated data set;
    [St]: the optimisation state (averaged parameters, parameters,
    optimiser state). *)
Context {P V D St : Type}.

(** A model as [load_module] and [dump_module] see it: its arrays, its
    [mu_x] and the training-mode flag of its stochastic layers. *)
Record model : Type := mkModel {
  arrays : P;
  mu_x : option V;
  training : bool
}.

Inductive event : Type :=
| Setup
| LoadModule (k : nat) (m : model)
| FitMoments
| Generate (m : model)
| MakeModel
| TrainMode (b : bool)
| SgdStep (training : bool)
| Validate (training : bool)
| Sample (m : model)
| Log
| DumpModule (k : nat) (m : model).

(** The run directory (checkpoint files by lap), the calls made so far,
    each with the lap that made it, and the number of external calls,
    which also seeds the random draws. *)
Record world : Type := mkWorld {
  fs : gmap nat model;
  trace : list (nat * event);
  clock : nat
}.

Definition M (A : Type) : Type := world -> outcome A * world.

Definition ret {A} (a : A) : M A := fun w => (Done a, w).

Definition bind {A B} (c : M A) (k : A -> M B) : M B :=
  fun w =>
    match c w with
    | (Done a, w') => k a w'
    | (Raised, w') => (Raised, w')
    end.

(** What lies outside [train.py]: which external calls raise ([fails], by
    call number: any of them may), and the numerics, left abstract: the
    moment fit, the sampler behind [generate], the mean of a data set,
    [make_model] with the flag its layers are created with, the optimiser
    and the averaged parameters; then [CONFIG['epochs']] and the number of
    batches of the two loaders. *)
Record externals : Type := mkExternals {
  fails : nat -> bool;
  fit_moments : nat -> P;
  generate : model -> nat -> D;
  mean : D -> V;
  make_model : nat -> P;
  make_model_training : bool;
  optimizer_init : P -> St;
  sgd_step : St -> D -> nat -> St;
  avrg : St -> P;
  epochs : nat;
  train_batches : nat;
  test_batches : nat
}.

Variable ext : externals.

(** An external call of lap [lap], recorded as [e], whose result is drawn
    by [f]; when it raises, nothing is recorded. *)
Definition draw {A} (lap : nat) (e : event) (f : nat -> A) : M A :=
  fun w =>
    if fails ext (clock w) then (Raised, mkWorld (fs w) (trace w) (S (clock w)))
    else (Done (f (clock w)),
          mkWorld (fs w) (trace w ++ [(lap, e)]) (S (clock w))).

Definition call (lap : nat) (e : event) : M unit := draw lap e (fun _ => tt).

(** [load_module(runpath / f'checkpoint_{k}.pkl')]; a missing file
    raises. *)
Definition load_module (lap k : nat) : M model :=
  fun w =>
    match fs w !! k with
    | Some m => draw lap (LoadModule k m) (fun _ => m) w
    | None => (Raised, mkWorld (fs w) (trace w) (S (clock w)))
    end.

(** [dump_module(model, runpath / f'checkpoint_{k}.pkl')] *)
Definition dump_module (lap : nat) (m : model) (k : nat) : M unit :=
  fun w =>
    if fails ext (clock w) then (Raised, mkWorld (fs w) (trace w) (S (clock w)))
    else (Done tt,
          mkWorld (<[k := m]> (fs w)) (trace w ++ [(lap, DumpModule k m)])
                  (S (clock w))).

(** [model.train(b)] *)
Definition train_mode (lap : nat) (b : bool) (m : model) : M model :=
  bind (call lap (TrainMode b)) (fun _ => ret (mkModel (arrays m) (mu_x m) b)).

(** [for batch in prefetch(loader)]: one [sgd_step] per batch, on the
    model [static(params, others)]. *)
Fixpoint train_loop (lap : nat) (static : bool) (data : D) (n : nat) (st : St) : M St :=
  match n with
  | O => ret st
  | S n =>
      bind (draw lap (SgdStep static) (sgd_step ext st data))
           (fun st => train_loop lap static data n st)
  end.

(** The validation loop: one [ell(avrg, others, ...)] per batch. *)
Fixpoint validation_loop (lap : nat) (static : bool) (n : nat) : M unit :=
  match n with
  | O => ret tt
  | S n =>
      bind (call lap (Validate static)) (fun _ => validation_loop lap static n)
  end.

(** [np.stack(losses).mean()] on the losses of [n] batches: stacking an
    empty list raises [ValueError]. *)
Definition stack_mean (n : nat) : M unit :=
  fun w => match n with O => (Raised, w) | S _ => (Done tt, w) end.

(** The body of [for epoch in trange(config.epochs)]. *)
Definition epoch_body (lap : nat) (static : bool) (others : option V) (data : D)
           (epoch : nat) (st : St) : M St :=
  bind (train_loop lap static data (train_batches ext) st) (fun st =>
  bind (stack_mean (train_batches ext)) (fun _ =>
  bind (validation_loop lap static (test_batches ext)) (fun _ =>
  bind (stack_mean (test_batches ext)) (fun _ =>
  if decide ((epoch + 1) mod 16 = 0)%nat then
    let model := mkModel (avrg ext st) others static in
    bind (train_mode lap false model) (fun model =>
    bind (call lap (Sample model)) (fun _ =>
    bind (call lap Log) (fun _ => ret st)))
  else
    bind (call lap Log) (fun _ => ret st))))).

(** The epochs [epoch], [epoch + 1], ..., [epoch + n - 1]. *)
Fixpoint epochs_loop (lap : nat) (static : bool) (others : option V) (data : D)
         (epoch n : nat) (st : St) : M St :=
  match n with
  | O => ret st
  | S n =>
      bind (epoch_body lap static others data epoch st)
           (fun st => epochs_loop lap static others data (S epoch) n st)
  end.

(** [train(runid, lap)] *)
Definition train (lap : nat) : M unit :=
  bind (call lap Setup) (fun _ =>
  bind (if decide (0 < lap)%nat then load_module lap (lap - 1)
        else bind (draw lap FitMoments (fit_moments ext))
                  (fun g => ret (mkModel g None false))) (fun previous =>
  bind (draw lap (Generate previous) (generate ext previous)) (fun trainset =>
  bind (draw lap (Generate previous) (generate ext previous)) (fun testset =>
  let mu := mean ext trainset in
  bind (if decide (0 < lap)%nat then ret previous
        else bind (draw lap MakeModel (make_model ext))
                  (fun p => ret (mkModel p None (make_model_training ext)))) (fun model =>
  let model := mkModel (arrays model) (Some mu) (training model) in
  bind (train_mode lap true model) (fun model =>
  let static := training model in
  let others := mu_x model in
  let st := optimizer_init ext (arrays model) in
  bind (epochs_loop lap static others trainset 0 (epochs ext) st) (fun st =>
  let model := mkModel (avrg ext st) others static in
  bind (train_mode lap false model) (fun model =>
  dump_module lap model lap)))))))).

(** *** Vocabulary for the calls a lap makes *)

(** The calls made before the model is put in training mode: the set-up,
    the previous model (loaded from the checkpoint of the lap before, or
    fitted at lap 0), the two generated data sets and, at lap 0, the new
    model.  [f0] is the run directory when the lap starts. *)
Definition setup_event (lap : nat) (f0 : gmap nat model) (e : event) : Prop :=
  match e with
  | Setup => True
  | FitMoments | MakeModel => lap = 0%nat
  | LoadModule k m => (0 < lap)%nat /\ k = (lap - 1)%nat /\ f0 !! k = Some m
  | Generate m => (0 < lap)%nat -> f0 !! (lap - 1)%nat = Some m
  | _ => False
  end.

(** The calls made from the first epoch on, with the flag of the model
    they use. *)
Definition tail_event (lap : nat) (e : event) : Prop :=
  match e with
  | SgdStep b | Validate b => b = true
  | Log => True
  | TrainMode b => b = false
  | Sample m => training m = false
  | DumpModule k m => k = lap /\ training m = false
  | _ => False
  end.

(** The calls that use a model for sampling or write it. *)
Definition uses_model (e : event) : Prop :=
  match e with
  | Sample _ | DumpModule _ _ => True
  | _ => False
  end.

(** Every call that uses a model comes right after [train(False)]. *)
Definition guarded (evs : list event) : Prop :=
  forall i e, evs !! i = Some e -> uses_model e ->
    exists j, i = S j /\ evs !! j = Some (TrainMode false).

Definition is_dump (e : event) : bool :=
  match e with DumpModule _ _ => true | _ => false end.

Definition is_log (e : event) : bool :=
  match e with Log => true | _ => false end.

(** Number of completed epochs: every epoch ends with [run.log]. *)
Definition epochs_logged (evs : list event) : nat :=
  length (List.filter is_log evs).

(** The calls of the epochs, for a model created with the flag
    [static]. *)
Definition loop_event (static : bool) (e : event) : Prop :=
  match e with
  | SgdStep b | Validate b => b = static
  | Log => True
  | TrainMode b => b = false
  | Sample m => training m = false
  | _ => False
  end.

(** What the loops guarantee: the run directory is untouched, the calls
    are those of the epochs, a model is used right after [train(False)]
    only, and on completion [n] epochs have been logged. *)
Definition loop_post {A} (static : bool) (n : nat)
  : gmap nat model -> outcome A -> list event -> gmap nat model -> Prop :=
  fun f0 r evs f1 =>
    f1 = f0 /\ Forall (loop_event static) evs /\ guarded evs /\
    (forall a, r = Done a -> epochs_logged evs = n).

(** A computation of lap [lap]: it appends its calls [evs] to the trace,
    and [Q] relates the run directory before, the outcome, the calls and
    the run directory after. *)
Definition spec {A} (lap : nat) (c : M A)
           (Q : gmap nat model -> outcome A -> list event -> gmap nat model -> Prop)
  : Prop :=
  forall w, exists evs,
    trace (snd (c w)) = trace w ++ ((fun e => (lap, e)) <$> evs) /\
    Q (fs w) (fst (c w)) evs (fs (snd (c w))).

(** What the end of a lap guarantees, from the first epoch on, for a
    model created with the flag [static]: on an exception the run
    directory is untouched and nothing was dumped; on completion the
    calls end with [train(False)] and the one dump of the lap, after all
    the epochs. *)
Definition tail_post (lap : nat) (static : bool)
  : gmap nat model -> outcome unit -> list event -> gmap nat model -> Prop :=
  fun f0 r evs f1 =>
    Forall (fun e => loop_event static e \/
                     exists m, e = DumpModule lap m /\ training m = false) evs /\
    guarded evs /\
    match r with
    | Raised => f1 = f0 /\ Forall (fun e => is_dump e = false) evs
    | Done _ =>
        exists m evs0,
          evs = evs0 ++ [TrainMode false; DumpModule lap m] /\
          Forall (fun e => is_dump e = false) evs0 /\
          epochs_logged evs0 = epochs ext /\
          f1 = <[lap := m]> f0 /\ training m = false
    end.

(** What a whole lap guarantees: the set-up calls, then, once the model
    is in training mode, the calls of the epochs and of the checkpoint. *)
Definition train_post (lap : nat)
  : gmap nat model -> outcome unit -> list event -> gmap nat model -> Prop :=
  fun f0 r evs f1 =>
    (exists pre tl,
       evs = pre ++ tl /\
       Forall (setup_event lap f0) pre /\
       (tl = [] \/
        exists tl', tl = TrainMode true :: tl' /\
                    Forall (tail_event lap) tl' /\ guarded tl')) /\
    match r with
    | Raised => f1 = f0 /\ Forall (fun e => is_dump e = false) evs
    | Done _ =>
        exists m evs0,
          evs = evs0 ++ [TrainMode false; DumpModule lap m] /\
          Forall (fun e => is_dump e = false) evs0 /\
          epochs_logged evs0 = epochs ext /\
          f1 = <[lap := m]> f0 /\ training m = false
    end.

(** *** The jobs of [__main__] *)

Record job : Type := mkJob { job_lap : nat; waits_for : list nat }.

(** The loop over [range(laps)]: [jobs[lap].after(jobs[lap - 1])] for
    [lap > 0]. *)
Definition main_jobs (laps : nat) : list job :=
  (fun lap => mkJob lap (if decide (0 < lap)%nat then [(lap - 1)%nat] else []))
    <$> seq 0 laps.

(** The scheduler: which laps have started, which have completed
    successfully, and the world they run in. *)
Record sched : Type := mkSched {
  started : list nat;
  succeeded : list nat;
  sched_world : world
}.

(** A job that has not started yet may run once every job it waits for
    has completed successfully ([after] with its default status). *)
Inductive sched_step (jobs : list job) : sched -> sched -> Prop :=
| run_job (j : job) (s : sched) (r : outcome unit) (w' : world) :
    j ∈ jobs ->
    job_lap j ∉ started s ->
    (forall d, d ∈ waits_for j -> d ∈ succeeded s) ->
    train (job_lap j) (sched_world s) = (r, w') ->
    sched_step jobs s
      (mkSched (job_lap j :: started s)
               (match r with
                | Done _ => job_lap j :: succeeded s
                | Raised => succeeded s
                end)
               w').

(** The call [e] of a lap takes its model from checkpoint [k], holding
    [m]: a load is of that file and returns [m], and the data sets are
    generated by [m]. *)
Definition from_checkpoint (k : nat) (m : model) (e : event) : Prop :=
  match e with
  | LoadModule k' m' => k' = k /\ m' = m
  | Generate m' => m' = m
  | _ => True
  end.

(** The calls of lap [lap] in the trace [tr], in order. *)
Definition calls_of (lap : nat) (tr : list (nat * event)) : list event :=
  snd <$> filter (fun le => fst le = lap) tr.

(** The calls [evs] of a lap after the first begin with the set-up, then
    the load of checkpoint [k], then the generation of the training set
    by the loaded model; an exception may cut them short. *)
Definition begins_with_load (k : nat) (evs : list event) : Prop :=
  evs = [] \/ evs = [Setup] \/
  exists m rest,
    evs = Setup :: LoadModule k m :: rest /\
    (rest = [] \/ exists rest', rest = Generate m :: rest').

(** What holds of every state the scheduler reaches: a lap that has
    succeeded had started; every call was made by a started lap; a lap
    starts after the one before it has succeeded; a lap that has
    succeeded has dumped the checkpoint the run directory holds; every
    call of lap [k + 1] comes after the dump of lap [k], whose model it
    loads and samples from; and lap [k + 1] begins by loading that
    checkpoint. *)
Definition sched_inv (s : sched) : Prop :=
  (forall k, k ∈ succeeded s -> k ∈ started s) /\
  (forall i lap e, trace (sched_world s) !! i = Some (lap, e) -> lap ∈ started s) /\
  (forall k, S k ∈ started s -> k ∈ succeeded s) /\
  (forall k, k ∈ succeeded s ->
     exists i m, trace (sched_world s) !! i = Some (k, DumpModule k m) /\
                 fs (sched_world s) !! k = Some m) /\
  (forall k i e, trace (sched_world s) !! i = Some (S k, e) ->
     exists j m, (j < i)%nat /\
                 trace (sched_world s) !! j = Some (k, DumpModule k m) /\
                 forall i' e', trace (sched_world s) !! i' = Some (S k, e') ->
                               from_checkpoint k m e') /\
  (forall k, begins_with_load k (calls_of (S k) (trace (sched_world s)))).

(** [schedule] called on the jobs, in a world in which none has started. *)
Definition scheduled (jobs : list job) (w : world) (s : sched) : Prop :=
  rtc (sched_step jobs) (mkSched [] [] w) s.
End Model.

Arguments model : clear implicits.
Arguments event : clear implicits.
Arguments world : clear implicits.
Arguments M : clear implicits.
Arguments sched : clear implicits.
Arguments externals : clear implicits.

End Train.

(** *** A small run: two epochs of two batches, numbers for arrays *)

(** No call raises; an array is the number of the call that made it, plus
    one per optimisation step. *)
Definition ext_example : Train.externals nat nat nat nat :=
  Train.mkExternals (fun _ => false) (fun n => n) (fun _ n => n) (fun d => d)
                    (fun n => n) true (fun p => p) (fun st _ _ => S st) (fun st => st)
                    2 2 1.

(** The same run with the sixth call of a lap's world raising. *)
Definition ext_failing : Train.externals nat nat nat nat :=
  Train.mkExternals (fun n => (n =? 5)%nat) (fun n => n) (fun _ n => n) (fun d => d)
                    (fun n => n) true (fun p => p) (fun st _ _ => S st) (fun st => st)
                    2 2 1.

(** The world before the first lap: an empty run directory, no call made. *)
Definition world_empty : Train.world nat nat := Train.mkWorld ∅ [] 0.

(** The world after lap 0 of the small run, which holds [checkpoint_0], and
    the world after lap 1 has run in it. *)
Definition world_lap0 : Train.world nat nat :=
  snd (Train.train ext_example 0 world_empty).

Definition world_lap1 : Train.world nat nat :=
  snd (Train.train ext_example 1 world_lap0).

(** The scheduler after both laps of a two-lap run have completed. *)
Definition sched_two_laps : Train.sched nat nat :=
  Train.mkSched [1; 0]%nat [1; 0]%nat world_lap1.

(** The small run with the call number [n] raising. *)
Definition ext_failing_at (n : nat) : Train.externals nat nat nat nat :=
  Train.mkExternals (fun c => (c =? n)%nat) (fun n => n) (fun _ n => n) (fun d => d)
                    (fun n => n) true (fun p => p) (fun st _ _ => S st) (fun st => st)
                    2 2 1.

(** The small run with a test set smaller than a batch: the validation
    loader yields nothing. *)
Definition ext_no_test_batch : Train.externals nat nat nat nat :=
  Train.mkExternals (fun _ => false) (fun n => n) (fun _ n => n) (fun d => d)
                    (fun n => n) true (fun p => p) (fun st _ _ => S st) (fun st => st)
                    2 2 0.
(* ===================================================================== *)
(** ** The multi-layer perceptron: [MLP] of [priors/nn.py]                *)
(* ===================================================================== *)

Section MLPInit.
Context {W : Type}.
(** The library's initialisers, by key split of the generator, and the
    module that the constructor [activation] returns. *)
Variable init_weight : Z -> Z -> nat -> W.
Variable init_bias : Z -> nat -> W.
Variable activation : nn.layer W.

(** The loop over the zipped widths, [before] from [in_features] followed
    by [hid_features] and [after] from [hid_features] followed by
    [out_features]: [layers.extend([Linear, activation(), LayerNorm or
    None])]. *)
Fixpoint MLP_extend (pairs : list (Z * Z)) (normalize : bool) (rng : nat)
         (layers : list (option (nn.layer W)))
  : list (option (nn.layer W)) * nat :=
  match pairs with
  | [] => (layers, rng)
  | (before, after) :: rest =>
      let '(l, rng) := nn.new_Linear init_weight init_bias before after rng in
      MLP_extend rest normalize rng
        (layers ++ [Some l; Some activation;
                    if normalize then Some nn.LayerNorm else None])
  end.

(** [MLP.__init__]: the layers handed to [nn.Sequential], that is
    [layers[:-2]] without its [None] entries. *)
Definition MLP_init (in_features out_features : Z) (hid_features : list Z)
           (normalize : bool) (rng : nat) : list (nn.layer W) * nat :=
  let pairs := zip (in_features :: hid_features) (hid_features ++ [out_features]) in
  let '(layers, rng) := MLP_extend pairs normalize rng [] in
  let layers := take (length layers - 2) layers in
  (omap (fun l => l) layers, rng).

(** *** The perceptron as its documentation words it *)

(** A linear layer into each hidden width, each followed by the
    activation and, when [normalize] is set, by a normalisation; then a
    last linear layer into [out_features]. *)
Fixpoint MLP_layout (in_features : Z) (hid_features : list Z) (out_features : Z)
         (normalize : bool) (rng : nat) : list (nn.layer W) :=
  match hid_features with
  | [] =>
      [nn.Linear in_features out_features
                 (init_weight in_features out_features rng) (init_bias out_features rng)]
  | h :: hid =>
      nn.Linear in_features h (init_weight in_features h rng) (init_bias h rng)
      :: activation
      :: (if normalize then [nn.LayerNorm] else [])
      ++ MLP_layout h hid out_features normalize (S rng)
  end.
End MLPInit.
(* ===================================================================== *)
(** ** The positional embedding: [PosEmbedding] of [priors/nn.py]         *)
(* ===================================================================== *)

(** On real numbers; an array of shape (H, W, C) is the list of its H
    rows, a row the list of its W pixels, a pixel the list of its C
    channels.  Leading axes are mapped over. *)
Module Sincos.
Local Open Scope R_scope.

(** [np.linspace(0, 1, n)]: [n] evenly spaced numbers from 0 to 1, the
    single number 0 when [n] is 1. *)
Definition linspace (n : nat) : list R :=
  (fun k => if decide (n = 1%nat) then 0 else INR k / INR (n - 1)) <$> seq 0 n.

(** [w = np.pi / 1e4 ** np.linspace(0, 1, C // 4)] *)
Definition frequencies (C : nat) : list R :=
  (fun w => PI / Rpower 10000 w) <$> linspace (C / 4).

(** The pixel of [sincos(H, W, C)] at row [i] and column [j]:
    [sin(w * i)], [cos(w * i)], [sin(w * j)] and [cos(w * j)], each over
    all the frequencies, concatenated along the last axis. *)
Definition sincos_pixel (C i j : nat) : list R :=
  let w := frequencies C in
  ((fun f => sin (f * INR i)) <$> w) ++ ((fun f => cos (f * INR i)) <$> w) ++
  ((fun f => sin (f * INR j)) <$> w) ++ ((fun f => cos (f * INR j)) <$> w).

(** [PosEmbedding.sincos(H, W, C)] *)
Definition sincos (H W C : nat) : list (list (list R)) :=
  (fun i => (fun j => sincos_pixel C i j) <$> seq 0 W) <$> seq 0 H.

(** [PosEmbedding.__call__]: [x + sincos(H, W, C)].  The embedding has
    [4 * (C // 4)] channels, which must broadcast against the [C] of [x]:
    they are equal, or [C] is 1 and the embedding is empty, and so is the
    sum; otherwise the addition raises. *)
Definition PosEmbedding_call (x : list (list (list R))) : option (list (list (list R))) :=
  let H := length x in
  let W := length (hd [] x) in
  let C := length (hd [] (hd [] x)) in
  if decide (4 * (C / 4) = C)%nat then
    Some (zip_with (zip_with (zip_with Rplus)) x (sincos H W C))
  else if decide (C = 1%nat) then
    Some ((fun row : list (list R) => (fun _ => []) <$> row) <$> x)
  else None.

(** The sum of the squares of the entries of a vector. *)
Definition sum_squares (v : list R) : R := Real.sum ((fun e => e * e) <$> v).

End Sincos.
(* ===================================================================== *)
(** ** The centred Fourier transforms: [fft2c] and [ifft2c]               *)
(* ===================================================================== *)

(** [jnp.fft.fftshift] along one axis of length [n]: a roll by [n // 2],
    which brings the last [n // 2] entries to the front. *)
Definition fftshift {X} (l : list X) : list X :=
  let n := length l in
  drop (n - n / 2)%nat l ++ take (n - n / 2)%nat l.

(** [jnp.fft.ifftshift]: a roll by [-(n // 2)]. *)
Definition ifftshift {X} (l : list X) : list X :=
  let n := length l in
  drop (n / 2)%nat l ++ take (n / 2)%nat l.

Section FFT.
(** An array of shape (H, W, C) is the list of its H rows, a row the list
    of its W slices along the last axis; [A] is the type of such a slice.
    Leading axes are mapped over. *)
Context {A : Type}.

(** The shifts along [axes=(-3, -2)]. *)
Definition fftshift2 (x : list (list A)) : list (list A) :=
  fftshift (fftshift <$> x).

Definition ifftshift2 (x : list (list A)) : list (list A) :=
  ifftshift (ifftshift <$> x).

(** [jnp.fft.fft2] and [jnp.fft.ifft2] along the same axes, with the
    normalisation mode they are given. *)
Context {Norm : Type}.
Variable fft2 ifft2 : Norm -> list (list A) -> list (list A).

Definition fft2c (x : list (list A)) (norm : Norm) : list (list A) :=
  fftshift2 (fft2 norm (ifftshift2 x)).

Definition ifft2c (k : list (list A)) (norm : Norm) : list (list A) :=
  fftshift2 (ifft2 norm (ifftshift2 k)).
End FFT.
(* ===================================================================== *)
(** ** [FlatUNet] and [make_model] of [experiments/fastmri/utils.py]      *)
(* ===================================================================== *)

Module FastMRI.

(** *** The two rearrangements, on values *)

Section Rearrange.
(** An array of shape (H, W, C) is the list of its H rows, a row the list
    of its W pixels, a pixel the list of its C channels.  Leading axes
    are mapped over. *)
Context {A : Type}.

(** The pieces of [n] consecutive elements of a list whose length is a
    multiple of [n]. *)
Definition chunks {X} (n : nat) (l : list X) : list (list X) :=
  (fun k => take n (drop (k * n) l)) <$> seq 0 (length l / n).

(** One row of the result of the first pattern, from the four rows [g] of
    the input it gathers: pixel [J] is the concatenation, over [h] and
    then [w], of the pixels [g[h][4 J + w]]. *)
Definition space_to_depth_row (g : list (list (list A))) : list (list A) :=
  (fun J => mjoin (mjoin ((fun r : list (list A) => take 4 (drop (J * 4) r)) <$> g)))
    <$> seq 0 (length (hd [] g) / 4).

(** [rearrange(x, '... (H h) (W w) C -> ... H W (h w C)', h=4, w=4)];
    an axis that 4 does not divide raises. *)
Definition space_to_depth (x : list (list (list A))) : option (list (list (list A))) :=
  if decide (length x mod 4 = 0 /\ Forall (fun r => length r mod 4 = 0) x)%nat
  then Some (space_to_depth_row <$> chunks 4 x)
  else None.

(** The four rows that one row of the input of the second pattern
    spreads over: row [h] holds, for each pixel and then for each [w],
    the channels [(4 h + w) C] to [(4 h + w + 1) C] of the pixel. *)
Definition depth_to_space_row (row : list (list A)) : list (list (list A)) :=
  (fun h =>
     mjoin ((fun px : list A =>
               (fun w => take (length px / 16) (drop ((h * 4 + w) * (length px / 16)) px))
                 <$> seq 0 4) <$> row))
    <$> seq 0 4.

(** [rearrange(x, '... H W (h w C) -> ... (H h) (W w) C', h=4, w=4)];
    a last axis that 16 does not divide raises. *)
Definition depth_to_space (y : list (list (list A))) : option (list (list (list A))) :=
  if decide (Forall (Forall (fun px => length px mod 16 = 0)%nat) y)
  then Some (mjoin (depth_to_space_row <$> y))
  else None.
End Rearrange.

(** *** Shapes *)

(** The first pattern on a shape (..., 4 H, 4 W, C). *)
Definition space_to_depth_shape (a : option Shape.shape) : option Shape.shape :=
  s ← a;
  match reverse s with
  | c :: w :: h :: r =>
      if decide (h mod 4 = 0 /\ w mod 4 = 0)
      then Some (reverse r ++ [h / 4; w / 4; 16 * c]) else None
  | _ => None
  end.

(** The second pattern on a shape (..., H, W, 16 C). *)
Definition depth_to_space_shape (a : option Shape.shape) : option Shape.shape :=
  s ← a;
  match reverse s with
  | c :: w :: h :: r =>
      if decide (c mod 16 = 0)
      then Some (reverse r ++ [4 * h; 4 * w; c / 16]) else None
  | _ => None
  end.

Section FlatUNet.
(** [unflatten(x, width, height)] and [flatten(x)] of the package, which
    reshape between (..., H * W * C) and (..., H, W, C). *)
Variable unflatten : Z -> Z -> option Shape.shape -> option Shape.shape.
Variable flatten : option Shape.shape -> option Shape.shape.

(** Shape of [FlatUNet.__call__(x, t)]. *)
Definition FlatUNet_call (net : UNet) (x t : Shape.shape) : option Shape.shape :=
  let x := unflatten 320 320 (Some x) in
  let x := space_to_depth_shape x in
  let x := s ← x; Shape.UNet_call net s t in
  let x := depth_to_space_shape x in
  flatten x.
End FlatUNet.

(** The network of [make_model]: a [FlatUNet] with 16 input and 16 output
    channels; the defaults are [hid_channels=(64, 128, 256)],
    [hid_blocks=(3, 3, 3)], [kernel_size=(3, 3)], [emb_features=256],
    [heads={2: 1}] and no dropout. *)
Definition make_model (hid_channels hid_blocks kernel_size : list Z) (emb_features : Z)
           (heads : gmap Z Z) (dropout : option Q) : option UNet :=
  UNet_init (mkUNetConfig 16 16 hid_channels hid_blocks kernel_size emb_features
                          heads dropout).

End FastMRI.
(* ===================================================================== *)
(** ** The calls of a lap, by kind                                        *)
(* ===================================================================== *)

Inductive call_kind : Type :=
| KSetup | KLoadModule | KFitMoments | KGenerate | KMakeModel
| KTrainOn | KTrainOff | KSgdStep | KValidate | KSample | KLog | KDumpModule.

Global Instance call_kind_eq_dec : EqDecision call_kind.
Proof. solve_decision. Defined.

Section Calls.
Context {P V D St : Type}.

Definition kind (e : Train.event P V) : call_kind :=
  match e with
  | Train.Setup => KSetup
  | Train.LoadModule _ _ => KLoadModule
  | Train.FitMoments => KFitMoments
  | Train.Generate _ => KGenerate
  | Train.MakeModel => KMakeModel
  | Train.TrainMode true => KTrainOn
  | Train.TrainMode false => KTrainOff
  | Train.SgdStep _ => KSgdStep
  | Train.Validate _ => KValidate
  | Train.Sample _ => KSample
  | Train.Log => KLog
  | Train.DumpModule _ _ => KDumpModule
  end.

(** The number of calls of kind [k] among [evs]. *)
Definition count_calls (k : call_kind) (evs : list (Train.event P V)) : nat :=
  length (filter (fun e => kind e = k) evs).

(** From [w] to [w'], lap [lap] made the calls [evs], none of which
    raised, and left the run directory alone. *)
Definition ran (lap : nat) (evs : list (Train.event P V)) (w w' : Train.world P V)
  : Prop :=
  Train.fs w' = Train.fs w /\
  Train.trace w' = Train.trace w ++ ((fun e => (lap, e)) <$> evs) /\
  Train.clock w' = (Train.clock w + length evs)%nat.

(** A computation that returns from every world. *)
Definition completes {A} (c : Train.M P V A) : Prop :=
  forall w, exists a w', c w = (Train.Done a, w').

(** The number of epochs among [e0], ..., [e0 + n - 1] that end with an
    evaluation: those with [(epoch + 1) % 16 == 0]. *)
Definition evaluations (e0 n : nat) : nat := ((e0 + n) / 16 - e0 / 16)%nat.

(** The number of calls of each kind made by [n] epochs from [e0] on. *)
Definition epochs_calls (ext : Train.externals P V D St) (e0 n : nat) (k : call_kind)
  : nat :=
  match k with
  | KSgdStep => n * Train.train_batches ext
  | KValidate => n * Train.test_batches ext
  | KLog => n
  | KSample | KTrainOff => evaluations e0 n
  | _ => 0
  end%nat.

(** The number of calls of each kind made before the model is put in
    training mode. *)
Definition setup_calls (lap : nat) (k : call_kind) : nat :=
  match k with
  | KSetup => 1
  | KLoadModule => if decide (0 < lap)%nat then 1 else 0
  | KFitMoments | KMakeModel => if decide (0 < lap)%nat then 0 else 1
  | KGenerate => 2
  | _ => 0
  end%nat.

(** The optimisation state after the [n] steps of one pass over the
    training loader, the first step being call number [c]: every step
    draws its keys anew. *)
Fixpoint sgd_steps (ext : Train.externals P V D St) (data : D) (n : nat)
         (st : St) (c : nat) : St :=
  match n with
  | O => st
  | S n => sgd_steps ext data n (Train.sgd_step ext st data c) (S c)
  end.

(** The number of calls of epoch [epoch] when none raises: the steps,
    the validation losses, the log and, every sixteenth epoch,
    [train(False)] and the sample. *)
Definition epoch_length (ext : Train.externals P V D St) (epoch : nat) : nat :=
  (Train.train_batches ext + Train.test_batches ext +
   if decide ((epoch + 1) mod 16 = 0) then 3 else 1)%nat.

(** The optimisation state after the epochs [epoch], ...,
    [epoch + n - 1], the first call being number [c]. *)
Fixpoint epochs_state (ext : Train.externals P V D St) (data : D) (epoch n : nat)
         (st : St) (c : nat) : St :=
  match n with
  | O => st
  | S n =>
      epochs_state ext data (S epoch) n
        (sgd_steps ext data (Train.train_batches ext) st c)
        (c + epoch_length ext epoch)%nat
  end.

(** The model that lap [lap], started at call number [c] with the
    previous model [prev], writes when no call raises: the training set
    is the first of the two generated sets (call [c + 2]); the parameters
    are those of [prev] or, at lap 0, of [make_model] (call [c + 4]); the
    first epoch starts after [train(True)]. *)
Definition lap_checkpoint (ext : Train.externals P V D St) (lap : nat)
           (prev : Train.model P V) (c : nat) : Train.model P V :=
  let trainset := Train.generate ext prev (c + 2)%nat in
  let params :=
    if decide (0 < lap)%nat then Train.arrays prev
    else Train.make_model ext (c + 4)%nat in
  let c0 := if decide (0 < lap)%nat then (c + 5)%nat else (c + 6)%nat in
  Train.mkModel
    (Train.avrg ext
       (epochs_state ext trainset 0 (Train.epochs ext)
          (Train.optimizer_init ext params) c0))
    (Some (Train.mean ext trainset)) false.

(** The number of calls of each kind that [train(runid, lap)] makes when
    it completes: the evaluation, with its sample, comes every sixteenth
    epoch. *)
Definition lap_calls (ext : Train.externals P V D St) (lap : nat) (k : call_kind)
  : nat :=
  match k with
  | KSetup => 1
  | KLoadModule => if decide (0 < lap)%nat then 1 else 0
  | KFitMoments | KMakeModel => if decide (0 < lap)%nat then 0 else 1
  | KGenerate => 2
  | KTrainOn => 1
  | KTrainOff => Train.epochs ext / 16 + 1
  | KSgdStep => Train.epochs ext * Train.train_batches ext
  | KValidate => Train.epochs ext * Train.test_batches ext
  | KSample => Train.epochs ext / 16
  | KLog => Train.epochs ext
  | KDumpModule => 1
  end%nat.
End Calls.
(* ===================================================================== *)
(** ** The data sets of a lap: [generate], the loaders and [steps]        *)
(* ===================================================================== *)

(** A data set is the list of its rows; batch sizes are positive. *)
Section Data.
(** [Row]: a row with its columns [y] and [A]; [X]: a generated sample;
    [Model]: the model that generates. *)
Context {Row X Model : Type}.

(** The batches of a data set read with [drop_last_batch=True], by
    [dataset.map(..., batched=True)] and by [dataset.iter]: the full
    batches of consecutive rows. *)
Definition full_batches {T} (batch_size : nat) (rows : list T) : list (list T) :=
  (fun k => take batch_size (drop (k * batch_size) rows))
    <$> seq 0 (length rows / batch_size).

(** [sample(model, y, A, key)] on the columns of a batch, with the key
    that the [n]-th [rng.split()] returns. *)
Variable sample : Model -> list Row -> nat -> list X.

(** [generate(model, dataset, rng, batch_size, sharding)]: the rows of
    the result are the samples of the batches, in order (the columns [y]
    and [A] are removed); [rng] has split one key per batch. *)
Definition generate (model : Model) (dataset : list Row) (rng : nat) (batch_size : nat)
  : list X * nat :=
  let batches := full_batches batch_size dataset in
  (mjoin (imap (fun k batch => sample model batch (rng + k)) batches),
   (rng + length batches)%nat).

(** [dataset.shuffle(seed)] *)
Variable shuffle : Z -> list X -> list X.

(** The training loader of an epoch:
    [trainset.shuffle(seed=seed + lap * epochs + epoch).iter(batch_size,
    drop_last_batch=True)]. *)
Definition loader (trainset : list X) (seed lap epochs epoch : Z) (batch_size : nat)
  : list (list X) :=
  full_batches batch_size (shuffle (seed + lap * epochs + epoch) trainset).
End Data.

(** [steps = config.epochs * len(trainset_yA) // config.batch_size], the
    number of steps the optimiser's schedule is built for. *)
Definition steps (epochs len batch_size : Z) : Z := epochs * len / batch_size.
(** *** More configurations for the examples *)

(** Three stages asked for, two channel counts given:
    [UNet(3, 3, hid_channels=(64, 128))] with the default [hid_blocks]. *)
Definition cfg_short_channels : UNetConfig :=
  mkUNetConfig 3 3 [64; 128] [3; 3; 3] [3; 3] 64 ∅ None.

(** Two stages asked for, with the default three channel counts. *)
Definition cfg_surplus_channels : UNetConfig :=
  mkUNetConfig 3 3 [64; 128; 256] [3; 3] [3; 3] 64 ∅ None.

Definition cfg_exact_channels : UNetConfig :=
  mkUNetConfig 3 3 [64; 128] [3; 3] [3; 3] 64 ∅ None.

(** The discrete Fourier transform of a 2 x 2 array (whose twiddle
    factors are 1 and -1), without normalisation, and its inverse. *)
Definition dft_2x2 (_ : unit) (x : list (list Z)) : list (list Z) :=
  match x with
  | [[p; q]; [r; s]] => [[p + q + r + s; p - q + r - s]; [p + q - r - s; p - q - r + s]]
  | _ => x
  end.

Definition idft_2x2 (n : unit) (k : list (list Z)) : list (list Z) :=
  (fun row : list Z => (fun v => v / 4) <$> row) <$> dft_2x2 n k.

(** Reshapes between (..., H * W * C) and (..., H, W, C), standing for
    the package's [unflatten] and [flatten] in the examples. *)
Definition unflatten_shape (width height : Z) (a : option Shape.shape)
  : option Shape.shape :=
  s ← a;
  match reverse s with
  | d :: r =>
      if decide (d mod (height * width) = 0)
      then Some (reverse r ++ [height; width; d / (height * width)]) else None
  | [] => None
  end.

Definition flatten_shape (a : option Shape.shape) : option Shape.shape :=
  s ← a;
  match reverse s with
  | c :: w :: h :: r => Some (reverse r ++ [h * w * c])
  | _ => None
  end.

(** A 4 x 4 image with one channel, holding 0 to 15 row by row. *)
Definition image_4x4 : list (list (list Z)) :=
  [[[0]; [1]; [2]; [3]]; [[4]; [5]; [6]; [7]];
   [[8]; [9]; [10]; [11]]; [[12]; [13]; [14]; [15]]].

(** An array of shape (1, 2, 4) on real numbers. *)
Definition array_1x2x4 : list (list (list R)) :=
  [[[1; 2; 3; 4]; [5; 6; 7; 8]]]%R.

(** A sampler that returns the rows it is given, and a shuffle that
    reverses the data set. *)
Definition sample_rows (_ : unit) (batch : list Z) (_ : nat) : list Z := batch.

Definition shuffle_reverse (_ : Z) (rows : list Z) : list Z := reverse rows.
(* ===================================================================== *)
(** ** Properties of the FastMRI helpers                                  *)
(* ===================================================================== *)

Section ComplexFacts.
Context {F : Type}.

Lemma array_split2_even (l : list F) :
  Nat.Even (length l) ->
  exists re im, array_split2 l = (re, im) /\ length re = length im /\ re ++ im = l.
Proof.
  intros [k Hk]. unfold array_split2.
  exists (take (length l / 2 + length l mod 2)%nat l),
         (drop (length l / 2 + length l mod 2)%nat l).
  split; [reflexivity|]. split; [|apply take_drop].
  rewrite length_take, length_drop.
  assert (length l mod 2 = 0)%nat as ->
    by (rewrite Hk, Nat.mul_comm; apply Nat.Div0.mod_mul).
  assert (length l / 2 = k)%nat as ->
    by (rewrite Hk, Nat.mul_comm; apply Nat.div_mul; lia).
  lia.
Qed.

Lemma complex2real_row_zip (re im : list F) :
  length re = length im -> complex2real_row (zip re im) = re ++ im.
Proof.
  intros H. unfold complex2real_row.
  rewrite fst_zip, snd_zip by lia. reflexivity.
Qed.

Lemma real2complex_row_even (l : list F) :
  Nat.Even (length l) ->
  exists z, real2complex_row l = Some z /\ complex2real_row z = l.
Proof.
  intros H. destruct (array_split2_even l H) as (re & im & Hs & Hlen & Happ).
  unfold real2complex_row. rewrite Hs. unfold lax_complex.
  rewrite decide_True by assumption.
  exists (zip re im). split; [reflexivity|].
  rewrite complex2real_row_zip by assumption. exact Happ.
Qed.

Lemma real2complex_row_complex2real_row (z : list (F * F)) :
  real2complex_row (complex2real_row z) = Some z.
Proof.
  unfold real2complex_row, complex2real_row, array_split2.
  rewrite length_app, !length_fmap.
  replace ((length z + length z) / 2 + (length z + length z) mod 2)%nat
    with (length z).
  2:{ replace (length z + length z)%nat with (length z * 2)%nat by lia.
      rewrite Nat.div_mul by lia. rewrite Nat.Div0.mod_mul. lia. }
  rewrite take_app_length' by (rewrite length_fmap; reflexivity).
  rewrite drop_app_length' by (rewrite length_fmap; reflexivity).
  unfold lax_complex. rewrite decide_True by (rewrite !length_fmap; reflexivity).
  f_equal. apply zip_fst_snd.
Qed.

(** Induction over arrays, with the hypothesis for every element of a
    [Stack]. *)
Lemma ndarray_ind' {A} (P : ndarray A -> Prop) :
  (forall l, P (Row l)) ->
  (forall xs, Forall P xs -> P (Stack xs)) ->
  forall x, P x.
Proof.
  intros HRow HStack. fix IH 1. intros [l|xs].
  - apply HRow.
  - apply HStack. induction xs as [|x xs IHxs]; constructor.
    + apply IH.
    + exact IHxs.
Qed.
End ComplexFacts.

Section ComplexRoundTrip.
Context {F : Type}.

Lemma complex2real_real2complex (x : ndarray F) :
  last_axis_even x ->
  exists z, real2complex x = Some z /\ complex2real z = x.
Proof.
  induction x as [l|xs IH] using ndarray_ind'; intros Hev.
  - destruct (real2complex_row_even l Hev) as (z & Hz & Hback).
    exists (Row z). unfold real2complex, complex2real. simpl.
    rewrite Hz. simpl. rewrite Hback. auto.
  - unfold real2complex, complex2real, last_axis_even in *. simpl in *.
    induction xs as [|x xs IHxs]; simpl in *.
    + exists (Stack []). auto.
    + destruct Hev as [Hx Hxs]. inversion IH as [|? ? IHx IHrest]; subst.
      destruct (IHx Hx) as (z & Hz & Hzb).
      destruct (IHxs IHrest Hxs) as (zs & Hzs & Hzsb).
      rewrite Hz.
      destruct zs as [l|zs]; simpl in *.
      * destruct (_ xs) in Hzs; discriminate.
      * match type of Hzs with Stack <$> ?g = _ => destruct g as [ys|] eqn:Hg end;
          [|discriminate].
        simpl in Hzs. injection Hzs as ->.
        exists (Stack (z :: zs)). simpl. split; [reflexivity|].
        injection Hzsb as ->. rewrite Hzb. reflexivity.
Qed.

Lemma real2complex_complex2real (z : ndarray (F * F)) :
  real2complex (complex2real z) = Some z.
Proof.
  induction z as [l|zs IH] using ndarray_ind'.
  - unfold real2complex, complex2real. simpl.
    rewrite real2complex_row_complex2real_row. reflexivity.
  - unfold real2complex, complex2real in *. simpl.
    induction zs as [|z zs IHzs]; simpl; [reflexivity|].
    inversion IH as [|? ? IHz IHrest]; subst.
    rewrite IHz. specialize (IHzs IHrest). simpl in IHzs.
    match type of IHzs with Stack <$> ?g = _ => destruct g as [ys|] eqn:Hg end;
      [|discriminate].
    simpl in IHzs. injection IHzs as ->. reflexivity.
Qed.

(** C9: [real2complex] and [complex2real] are mutually inverse: on a real
    array whose last axis has even length, [real2complex] returns a
    complex array that [complex2real] maps back to the input, and on every
    complex array [real2complex] undoes [complex2real]. *)
Theorem real2complex_complex2real_inverse (x : ndarray F) (z : ndarray (F * F)) :
  (last_axis_even x ->
   exists z', real2complex x = Some z' /\ complex2real z' = x) /\
  real2complex (complex2real z) = Some z.
Proof.
  split.
  - apply complex2real_real2complex.
  - apply real2complex_complex2real.
Qed.
End ComplexRoundTrip.

Lemma real2complex_complex2real_inverse_witness :
  last_axis_even (Stack [Row [1; 2; 3; 4]; Row [5; 6; 7; 8]]) /\
  (exists z', real2complex (Stack [Row [1; 2; 3; 4]; Row [5; 6; 7; 8]]) = Some z' /\
              complex2real z' = Stack [Row [1; 2; 3; 4]; Row [5; 6; 7; 8]]) /\
  real2complex (complex2real (Stack [Row [(1, 3); (2, 4)]])) =
    Some (Stack [Row [(1, 3); (2, 4)]]).
Proof.
  assert (last_axis_even (Stack [Row [1; 2; 3; 4]; Row [5; 6; 7; 8]])) as Hev.
  { simpl. repeat split; exists 2%nat; reflexivity. }
  split; [exact Hev|].
  destruct (real2complex_complex2real_inverse
              (Stack [Row [1; 2; 3; 4]; Row [5; 6; 7; 8]])
              (Stack [Row [(1, 3); (2, 4)]])) as [H1 H2].
  split; [exact (H1 Hev) | exact H2].
Defined.

Lemma ceil_div_60_bounds (r : Z) : 1 <= r -> 1 <= ceil_div 60 r <= 60.
Proof.
  intros Hr. unfold ceil_div. change (Z.opp 60) with (Z.neg 60).
  assert (-60 <= -60 / r) by (apply Z.div_le_lower_bound; lia).
  assert (-60 / r < 0) by (apply Z.div_lt_upper_bound; lia).
  lia.
Qed.

Lemma ceil_60_div_bounds (r : Z) : 1 <= r -> 0 <= ceil_60_div r <= 60.
Proof.
  intros Hr. unfold ceil_60_div. pose proof (ceil_div_60_bounds r Hr).
  destruct (60 * 2 ^ 1075 <=? r); lia.
Qed.

(** Below the underflow, [ceil_60_div r] is the least integer [c] with
    [60 <= c * r]. *)
Lemma ceil_60_div_exact (r : Z) :
  1 <= r < 60 * 2 ^ 1075 ->
  (ceil_60_div r - 1) * r < 60 <= ceil_60_div r * r.
Proof.
  intros [Hr Hlt]. unfold ceil_60_div.
  destruct (Z.leb_spec (60 * 2 ^ 1075) r) as [Hle|_]; [lia|].
  unfold ceil_div. change (Z.opp 60) with (Z.neg 60).
  pose proof (Z.div_mod (-60) r ltac:(lia)) as Hdm.
  pose proof (Z.mod_pos_bound (-60) r ltac:(lia)) as Hmod.
  split; nia.
Qed.

Lemma slice_bound_inside (n i : Z) : 0 <= i <= n -> slice_bound n i = i.
Proof.
  intros H. unfold slice_bound.
  destruct (Z.ltb_spec i 0); lia.
Qed.

Lemma at_rows_set_true_shape (lo hi : Z) (A : list (list (list bool))) d0 d1 d2 :
  has_shape3 d0 d1 d2 A -> has_shape3 d0 d1 d2 (at_rows_set_true lo hi A).
Proof.
  intros [H0 H]. unfold at_rows_set_true. split.
  - rewrite length_fmap. exact H0.
  - apply Forall_fmap. eapply Forall_impl; [exact H|].
    intros p [Hp Hrows]. simpl. split.
    + rewrite length_imap. exact Hp.
    + apply Forall_forall. intros row Hin.
      apply list_elem_of_lookup in Hin as [i Hi].
      rewrite list_lookup_imap in Hi.
      destruct (p !! i) as [row0|] eqn:Hrow0; [|discriminate].
      simpl in Hi. injection Hi as <-.
      assert (length row0 = d2) as Hlen.
      { eapply Forall_lookup_1 in Hrows; [exact Hrows|exact Hrow0]. }
      destruct (_ && _); [rewrite length_fmap|]; exact Hlen.
Qed.

(** The exact ceiling of [60 / r] is the one integer [c] with
    [c - 1 < 60 / r <= c]; below the underflow it is the value of
    [math.ceil(60 / r)]. *)
Lemma ceil_60_div_unique (r c : Z) :
  r <> 0 -> r < 60 * 2 ^ 1075 ->
  (0 < r -> (c - 1) * r < 60 <= c * r) ->
  (r < 0 -> c * r <= 60 < (c - 1) * r) ->
  ceil_60_div r = c.
Proof.
  intros Hr Hlt Hpos Hneg. unfold ceil_60_div.
  destruct (Z.leb_spec (60 * 2 ^ 1075) r) as [Hle|_]; [lia|].
  unfold ceil_div. change (Z.opp 60) with (Z.neg 60).
  pose proof (Z.div_mod (-60) r Hr) as Hdm.
  destruct (Z.lt_trichotomy r 0) as [Hn|[?|Hp]]; [|lia|].
  - pose proof (Z.mod_neg_bound (-60) r Hn) as Hmod.
    specialize (Hneg Hn). nia.
  - pose proof (Z.mod_pos_bound (-60) r Hp) as Hmod.
    specialize (Hpos Hp). nia.
Qed.

(** The rows of the mask, in terms of the value of [math.ceil(60 / r)]. *)
Lemma make_mask_entries (r : Z) (u : nat -> Q) :
  r <> 0 ->
  -60 <= ceil_60_div r <= 60 ->
  exists A, make_mask r u = Some A /\
    has_shape3 1 320 1 A /\
    forall i, (i < 320)%nat ->
      entry3 A 0 i 0
      = Some ((160 - ceil_60_div r <=? Z.of_nat i) && (Z.of_nat i <? 160 + ceil_60_div r)
              || Qltb (u i) (200 / inject_Z (320 * r - 120))).
Proof.
  intros Hr Hc.
  unfold make_mask. rewrite decide_False by assumption.
  eexists. split; [reflexivity|]. split.
  - apply at_rows_set_true_shape. split; [reflexivity|].
    cbn [fmap list_fmap]. constructor; [|constructor]. split.
    + rewrite !length_fmap, length_seq. reflexivity.
    + apply Forall_fmap, Forall_fmap, Forall_forall. intros; reflexivity.
  - intros i Hi. unfold at_rows_set_true, entry3.
    cbn [fmap list_fmap lookup list_lookup].
    rewrite list_lookup_imap, !list_lookup_fmap.
    rewrite lookup_seq_lt by lia.
    cbn [fmap option_fmap option_map list_fmap].
    rewrite !length_fmap, length_seq.
    rewrite !slice_bound_inside by lia.
    cbn [Nat.add].
    destruct ((160 - ceil_60_div r <=? Z.of_nat i) && (Z.of_nat i <? 160 + ceil_60_div r));
      reflexivity.
Qed.

(** C10, as the code has it: for every acceleration factor [r >= 1] and
    every random draw [u] (whatever the key, or no key), [make_mask]
    returns a boolean array of shape (1, 320, 1); when [r < 60 * 2 ^ 1075],
    its rows [160 - c] up to, but excluding, [160 + c] are all [True],
    [c] being the ceiling of the exact quotient [60 / r]: the integer with
    [(c - 1) * r < 60 <= c * r]. *)
Theorem make_mask_center_band (r c : Z) (u : nat -> Q) :
  1 <= r ->
  (c - 1) * r < 60 <= c * r ->
  exists A, make_mask r u = Some A /\
            has_shape3 1 320 1 A /\
            (r < 60 * 2 ^ 1075 ->
             forall i, 160 - c <= i < 160 + c ->
                       entry3 A 0 (Z.to_nat i) 0 = Some true).
Proof.
  intros Hr Hc. pose proof (ceil_60_div_bounds r Hr) as Hb.
  destruct (make_mask_entries r u ltac:(lia) ltac:(lia)) as (A & HA & Hshape & Hrows).
  exists A. split; [exact HA|]. split; [exact Hshape|].
  intros Hlt i Hi.
  assert (ceil_60_div r = c) as Hceil by (apply ceil_60_div_unique; lia).
  rewrite Hceil in Hrows, Hb.
  rewrite Hrows by lia. f_equal. apply orb_true_iff. left.
  apply andb_true_intro. split; [apply Z.leb_le | apply Z.ltb_lt]; lia.
Qed.

Lemma make_mask_center_band_witness :
  1 <= 4 /\
  (15 - 1) * 4 < 60 <= 15 * 4 /\
  exists A, make_mask 4 (fun _ => 1%Q) = Some A /\
            has_shape3 1 320 1 A /\
            forall i, 160 - 15 <= i < 160 + 15 ->
                      entry3 A 0 (Z.to_nat i) 0 = Some true.
Proof.
  split; [lia|]. split; [lia|].
  destruct (make_mask_center_band 4 15 (fun _ => 1%Q) ltac:(lia) ltac:(lia))
    as (A & HA & Hshape & Hband).
  exists A. split; [exact HA|]. split; [exact Hshape|].
  apply Hband. reflexivity.
Defined.

(** C10 as worded fails where the double [60 / r] underflows: at
    [r = 60 * 2 ^ 1075] the ceiling of the exact quotient is 1, so that the
    band would be the rows 159 and 160, but [math.ceil(60 / r)] is 0, the
    slice [160:160] is empty, and a row whose draw is not below the
    threshold stays [False]. *)
Lemma make_mask_center_band_fails :
  1 <= 60 * 2 ^ 1075 /\
  (1 - 1) * (60 * 2 ^ 1075) < 60 <= 1 * (60 * 2 ^ 1075) /\
  160 - 1 <= 159 < 160 + 1 /\
  exists A, make_mask (60 * 2 ^ 1075) (fun _ => 1%Q) = Some A /\
            entry3 A 0 (Z.to_nat 159) 0 = Some false.
Proof.
  split; [vm_compute; discriminate|].
  split; [split; vm_compute; [reflexivity|discriminate]|].
  split; [lia|].
  eexists. split; [reflexivity|]. vm_compute. reflexivity.
Qed.

(** With the default [r = 4] and a draw that is never below the threshold,
    exactly the 30 central rows are set. *)
Example make_mask_r4_rows :
  option_map
    (map (fun p : list (list bool) => length (filter (fun row => row = [true]) p)))
    (make_mask 4 (fun _ => 1%Q)) = Some [30%nat].
Proof. vm_compute. reflexivity. Qed.

(* ===================================================================== *)
(** ** Layout of the stages built by [UNet.__init__]                      *)
(* ===================================================================== *)

Section UNetLayout.
Variable cfg : UNetConfig.

Lemma in_heads_lookup (i : nat) :
  in_heads cfg i = true <-> is_Some (heads cfg !! Z.of_nat i).
Proof. unfold in_heads. rewrite bool_decide_eq_true. reflexivity. Qed.

Lemma stage_repeats_layout (i n : nat) (do up do' up' : list block) :
  stage_repeats cfg i n do up = Some (do', up') ->
  (n = 0%nat \/ exists c, hid_channels cfg !! i = Some c) /\
  forall c, hid_channels cfg !! i = Some c ->
    do' = do ++ mjoin (replicate n (stage_unit cfg i c)) /\
    up' = up ++ mjoin (replicate n (stage_unit cfg i c)).
Proof.
  revert do up. induction n as [|n IH]; intros do up H; simpl in H.
  - injection H as <- <-. split; [left; reflexivity|].
    intros c _. simpl. rewrite !app_nil_r. auto.
  - unfold new_ResBlock in H.
    destruct (hid_channels cfg !! i) as [c|] eqn:Hc; [|discriminate].
    simpl in H. split; [right; eauto|].
    intros c' [= <-].
    unfold stage_unit.
    destruct (in_heads cfg i) eqn:Hin.
    + unfold new_AttBlock in H. rewrite Hc in H. simpl in H.
      destruct (heads cfg !! Z.of_nat i) as [h|] eqn:Hh; [|discriminate].
      simpl in H. destruct (decide (h = 0)); [discriminate|]. simpl in H.
      apply IH in H as [_ H]. destruct (H c eq_refl) as [-> ->].
      unfold stage_unit. rewrite Hh. simpl.
      rewrite <- !app_assoc. simpl. auto.
    + assert (heads cfg !! Z.of_nat i = None) as Hh.
      { destruct (heads cfg !! Z.of_nat i) eqn:Hh; [|reflexivity].
        assert (in_heads cfg i = true) by (apply in_heads_lookup; eauto).
        congruence. }
      apply IH in H as [_ H]. destruct (H c eq_refl) as [-> ->].
      unfold stage_unit. rewrite Hh. simpl.
      rewrite <- !app_assoc. simpl. auto.
Qed.

Lemma stage_repeats_heads (i n : nat) (do up do' up' : list block) :
  stage_repeats cfg i (S n) do up = Some (do', up') ->
  forall h, heads cfg !! Z.of_nat i = Some h -> h <> 0.
Proof.
  simpl. intros H h Hh. unfold new_ResBlock, new_AttBlock in H.
  destruct (hid_channels cfg !! i) as [c|]; [|discriminate]. simpl in H.
  assert (in_heads cfg i = true) as Hin by (apply in_heads_lookup; eauto).
  rewrite Hin, Hh in H. simpl in H.
  destruct (decide (h = 0)); [discriminate|assumption].
Qed.

(** The two lists of a stage, block by block. *)
Lemma UNet_stage_exact (i : nat) (blocks : Z) (do up : list block) :
  UNet_stage cfg i blocks = Some (do, up) ->
  exists c,
    hid_channels cfg !! i = Some c /\
    do = entry_projection cfg i c
         :: (if in_heads cfg i then [PosEmbedding] else [])
         ++ stage_body cfg i c blocks /\
    up = stage_body cfg i c blocks ++ [exit_projection cfg i c] /\
    (0 < blocks -> forall h, heads cfg !! Z.of_nat i = Some h -> h <> 0).
Proof.
  unfold UNet_stage. intros H.
  destruct (stage_repeats cfg i (Z.to_nat blocks) _ []) as [[do0 up0]|] eqn:Hrep;
    [|discriminate].
  simpl in H.
  assert (0 < blocks -> forall h, heads cfg !! Z.of_nat i = Some h -> h <> 0) as Hheads.
  { intros Hpos. destruct (Z.to_nat blocks) as [|n] eqn:Hn; [lia|].
    eapply stage_repeats_heads; eassumption. }
  apply stage_repeats_layout in Hrep as [_ Hrep].
  destruct (decide (0 < i)%nat) as [Hi|Hi].
  - destruct i as [|j]; [lia|]. simpl in H. rewrite Nat.sub_0_r in H.
    destruct (hid_channels cfg !! j) as [cprev|] eqn:Hprev; [|discriminate].
    simpl in H.
    destruct (hid_channels cfg !! S j) as [c|] eqn:Hc; [|discriminate].
    simpl in H. injection H as <- <-.
    destruct (Hrep c eq_refl) as [-> ->].
    exists c. unfold entry_projection, exit_projection.
    rewrite (nth_lookup_Some _ _ 0 _ Hprev).
    repeat split; try reflexivity. exact Hheads.
  - assert (i = 0%nat) as -> by lia.
    destruct (hid_channels cfg !! 0%nat) as [c|] eqn:Hc; [|discriminate].
    simpl in H. injection H as <- <-.
    destruct (Hrep c eq_refl) as [-> ->].
    exists c. repeat split; try reflexivity. exact Hheads.
Qed.

Lemma UNet_stage_layout (i : nat) (blocks : Z) (do up : list block) :
  UNet_stage cfg i blocks = Some (do, up) ->
  exists c proj unproj,
    hid_channels cfg !! i = Some c /\
    is_projection proj = true /\ is_projection unproj = true /\
    do = proj :: (if in_heads cfg i then [PosEmbedding] else [])
              ++ stage_body cfg i c blocks /\
    up = stage_body cfg i c blocks ++ [unproj] /\
    (i = 0%nat -> unproj = Linear c (out_channels cfg)).
Proof.
  intros H. apply UNet_stage_exact in H as (c & Hc & -> & -> & _).
  exists c, (entry_projection cfg i c), (exit_projection cfg i c).
  repeat split; try assumption; try reflexivity.
  - destruct i; reflexivity.
  - destruct i; reflexivity.
  - intros ->. reflexivity.
Qed.

Lemma UNet_stages_layout (i0 : nat) (bl : list Z) (net0 net : UNet) :
  UNet_stages cfg i0 bl net0 = Some net ->
  exists dos ups,
    length dos = length bl /\ length ups = length bl /\
    descent net = descent net0 ++ dos /\
    ascent net = reverse ups ++ ascent net0 /\
    forall k b, bl !! k = Some b ->
      exists do up, dos !! k = Some do /\ ups !! k = Some up /\
                    UNet_stage cfg (i0 + k) b = Some (do, up).
Proof.
  revert i0 net0. induction bl as [|b bl IH]; intros i0 net0 H; simpl in H.
  - injection H as <-. exists [], []. rewrite app_nil_r. repeat split.
    intros k b Hk. rewrite lookup_nil in Hk. discriminate.
  - destruct (UNet_stage cfg i0 b) as [[do up]|] eqn:Hst; [|discriminate].
    simpl in H. apply IH in H as (dos & ups & Hld & Hlu & Hd & Ha & Hk).
    simpl in Hd, Ha.
    exists (do :: dos), (up :: ups). simpl. repeat split; try lia.
    + rewrite Hd, <- app_assoc. reflexivity.
    + rewrite Ha, reverse_cons, <- app_assoc. reflexivity.
    + intros [|k] b' Hb'; simpl in Hb'.
      * injection Hb' as <-. exists do, up. rewrite Nat.add_0_r. auto.
      * destruct (Hk k b' Hb') as (do' & up' & ? & ? & Hs).
        exists do', up'. replace (i0 + S k)%nat with (S i0 + k)%nat by lia. auto.
Qed.

(** The stage lists of a constructed network, stage by stage. *)
Lemma UNet_init_stage (net : UNet) (i : nat) (blocks : Z) :
  UNet_init cfg = Some net ->
  hid_blocks cfg !! i = Some blocks ->
  exists do up,
    descent net !! i = Some do /\
    ascent net !! (length (hid_blocks cfg) - 1 - i)%nat = Some up /\
    UNet_stage cfg i blocks = Some (do, up).
Proof.
  intros Hinit Hb. unfold UNet_init in Hinit.
  apply UNet_stages_layout in Hinit as (dos & ups & Hld & Hlu & Hd & Ha & Hk).
  destruct (Hk i blocks Hb) as (do & up & Hdo & Hup & Hst).
  simpl in *. rewrite app_nil_r in Ha.
  exists do, up. rewrite Hd, Ha. repeat split; try assumption.
  pose proof (lookup_lt_Some _ _ _ Hb) as Hlt.
  rewrite reverse_lookup by lia.
  replace (length ups - S (length (hid_blocks cfg) - 1 - i))%nat with i by lia.
  exact Hup.
Qed.

Lemma UNet_init_lengths (net : UNet) :
  UNet_init cfg = Some net ->
  length (descent net) = length (hid_blocks cfg) /\
  length (ascent net) = length (hid_blocks cfg).
Proof.
  intros Hinit. unfold UNet_init in Hinit.
  apply UNet_stages_layout in Hinit as (dos & ups & Hld & Hlu & Hd & Ha & _).
  rewrite Hd, Ha. simpl. rewrite app_nil_r, length_reverse. auto.
Qed.
End UNetLayout.

Section StageBody.
Variable cfg : UNetConfig.

Lemma stage_unit_attention (i : nat) (c : Z) :
  existsb is_attention (stage_unit cfg i c) = in_heads cfg i.
Proof.
  unfold stage_unit, in_heads.
  destruct (heads cfg !! Z.of_nat i) as [h|]; reflexivity.
Qed.

Lemma stage_unit_posemb (i : nat) (c : Z) :
  existsb is_posemb (stage_unit cfg i c) = false.
Proof. unfold stage_unit. destruct (heads cfg !! Z.of_nat i); reflexivity. Qed.

Lemma stage_unit_residual (i : nat) (c : Z) :
  in_heads cfg i = false -> forallb is_residual (stage_unit cfg i c) = true.
Proof.
  unfold stage_unit, in_heads. intros H.
  apply bool_decide_eq_false in H.
  destruct (heads cfg !! Z.of_nat i) as [h|]; [|reflexivity].
  exfalso. apply H. eauto.
Qed.

Lemma mjoin_replicate_S {A} (n : nat) (u : list A) :
  mjoin (replicate (S n) u) = u ++ mjoin (replicate n u).
Proof. reflexivity. Qed.

Lemma stage_body_attention (i : nat) (c blocks : Z) :
  existsb is_attention (stage_body cfg i c blocks) = in_heads cfg i && (0 <? blocks).
Proof.
  unfold stage_body.
  destruct (Z.ltb_spec 0 blocks) as [Hpos|Hneg].
  - destruct (Z.to_nat blocks) as [|n] eqn:Hn; [lia|]. clear Hn.
    rewrite andb_true_r, mjoin_replicate_S, existsb_app, stage_unit_attention.
    destruct (in_heads cfg i) eqn:Hin; [reflexivity|]. cbn [orb].
    induction n as [|n IH]; [reflexivity|].
    rewrite mjoin_replicate_S, existsb_app, stage_unit_attention, Hin. exact IH.
  - replace (Z.to_nat blocks) with 0%nat by lia. simpl.
    rewrite andb_false_r. reflexivity.
Qed.

Lemma stage_body_posemb (i : nat) (c blocks : Z) :
  existsb is_posemb (stage_body cfg i c blocks) = false.
Proof.
  unfold stage_body. induction (Z.to_nat blocks) as [|n IH]; [reflexivity|].
  rewrite mjoin_replicate_S, existsb_app, stage_unit_posemb. exact IH.
Qed.

Lemma stage_body_residual (i : nat) (c blocks : Z) :
  in_heads cfg i = false -> forallb is_residual (stage_body cfg i c blocks) = true.
Proof.
  intros Hin. unfold stage_body.
  induction (Z.to_nat blocks) as [|n IH]; [reflexivity|].
  rewrite mjoin_replicate_S, forallb_app, stage_unit_residual by assumption. exact IH.
Qed.

Lemma filter_posemb_nil (l : list block) :
  existsb is_posemb l = false -> filter (fun b => is_posemb b = true) l = [].
Proof.
  induction l as [|b l IH]; [reflexivity|]. simpl. intros Hno.
  apply orb_false_elim in Hno as [Hb Hl].
  rewrite filter_cons, decide_False by (rewrite Hb; discriminate).
  apply IH, Hl.
Qed.

Lemma projection_not_attention (b : block) :
  is_projection b = true -> is_attention b = false /\ is_posemb b = false.
Proof. destruct b; simpl; intros; try discriminate; auto. Qed.
End StageBody.


(** C5, as stated, fails: stage 0 is a key of [heads], the constructor
    succeeds, and yet neither list of stage 0 contains an attention block,
    since there is no residual block for one to follow. *)
Lemma UNet_init_attention_iff_heads_fails :
  exists net do up,
    UNet_init cfg_no_repeats = Some net /\
    descent net !! 0%nat = Some do /\ ascent net !! 0%nat = Some up /\
    ~ (has_attention do = true <-> in_heads cfg_no_repeats 0 = true) /\
    ~ (has_attention up = true <-> in_heads cfg_no_repeats 0 = true).
Proof.
  eexists _, _, _. split; [vm_compute; reflexivity|].
  split; [reflexivity|]. split; [reflexivity|].
  split; intros [_ H]; specialize (H eq_refl); vm_compute in H; discriminate.
Qed.

(** C5, amended: in a constructed network, the descending list of stage [i]
    is the entry projection, then one positional embedding exactly when [i]
    is a key of [heads], then [hid_blocks[i]] repeats of a residual block
    followed, exactly when [i] is a key of [heads], by an attention block
    with [heads[i]] heads; the ascending list is the same repeats followed by
    the exit projection.  Hence attention blocks appear in the lists of
    stage [i] if and only if [i] is a key of [heads] and the stage has at
    least one repeat, a stage that is not in [heads] holds residual blocks
    and projections only, and the positional embedding occurs at most once,
    in the descent, right after the entry projection. *)
Theorem UNet_init_attention_stages (cfg : UNetConfig) (net : UNet) (i : nat) (blocks : Z) :
  UNet_init cfg = Some net ->
  hid_blocks cfg !! i = Some blocks ->
  exists c proj unproj do up,
    hid_channels cfg !! i = Some c /\
    descent net !! i = Some do /\
    ascent net !! (length (hid_blocks cfg) - 1 - i)%nat = Some up /\
    is_projection proj = true /\ is_projection unproj = true /\
    do = proj :: (if in_heads cfg i then [PosEmbedding] else [])
              ++ stage_body cfg i c blocks /\
    up = stage_body cfg i c blocks ++ [unproj] /\
    (has_attention do = true <-> in_heads cfg i = true /\ 0 < blocks) /\
    (has_attention up = true <-> in_heads cfg i = true /\ 0 < blocks) /\
    (in_heads cfg i = false ->
     forallb (fun b => is_residual b || is_projection b) (do ++ up) = true) /\
    length (filter (fun b => is_posemb b = true) do) = (if in_heads cfg i then 1%nat else 0%nat) /\
    existsb is_posemb up = false.
Proof.
  intros Hinit Hb.
  destruct (UNet_init_stage cfg net i blocks Hinit Hb) as (do & up & Hdo & Hup & Hst).
  destruct (UNet_stage_layout cfg i blocks do up Hst)
    as (c & proj & unproj & Hc & Hp & Hu & Edo & Eup & _).
  destruct (projection_not_attention _ Hp) as [Hpa Hpp].
  destruct (projection_not_attention _ Hu) as [Hua Hup'].
  exists c, proj, unproj, do, up.
  do 7 (split; [assumption|]).
  assert (in_heads cfg i && (0 <? blocks) = true <->
          in_heads cfg i = true /\ 0 < blocks) as Hiff
    by (rewrite andb_true_iff, Z.ltb_lt; reflexivity).
  split; [|split; [|split; [|split]]].
  - rewrite <- Hiff. subst do. unfold has_attention. simpl.
    rewrite Hpa, existsb_app, stage_body_attention. simpl.
    destruct (in_heads cfg i); simpl; reflexivity.
  - rewrite <- Hiff. subst up. unfold has_attention.
    rewrite existsb_app, stage_body_attention. simpl.
    rewrite Hua, !orb_false_r. reflexivity.
  - intros Hin. subst do up. rewrite Hin. simpl.
    rewrite Hp, orb_true_r. simpl.
    rewrite !forallb_app. simpl. rewrite Hu, orb_true_r. simpl.
    assert (forallb (fun b => is_residual b || is_projection b)
                    (stage_body cfg i c blocks) = true) as ->.
    { pose proof (stage_body_residual cfg i c blocks Hin) as Hres.
      rewrite forallb_forall in Hres. apply forallb_forall.
      intros b Hin'. rewrite (Hres b Hin'). reflexivity. }
    reflexivity.
  - subst do.
    pose proof (stage_body_posemb cfg i c blocks) as Hno.
    apply filter_posemb_nil in Hno as Hnil.
    rewrite filter_cons, decide_False by (rewrite Hpp; discriminate).
    rewrite filter_app, Hnil, app_nil_r.
    destruct (in_heads cfg i); reflexivity.
  - subst up. rewrite existsb_app, stage_body_posemb. simpl.
    rewrite Hup'. reflexivity.
Qed.

Lemma UNet_init_attention_stages_witness :
  exists net,
    UNet_init cfg_cifar = Some net /\
    hid_blocks cfg_cifar !! 2%nat = Some 5 /\
    exists c proj unproj do up,
      hid_channels cfg_cifar !! 2%nat = Some c /\
      descent net !! 2%nat = Some do /\
      ascent net !! (length (hid_blocks cfg_cifar) - 1 - 2)%nat = Some up /\
      is_projection proj = true /\ is_projection unproj = true /\
      do = proj :: (if in_heads cfg_cifar 2 then [PosEmbedding] else [])
                ++ stage_body cfg_cifar 2 c 5 /\
      up = stage_body cfg_cifar 2 c 5 ++ [unproj] /\
      (has_attention do = true <-> in_heads cfg_cifar 2 = true /\ 0 < 5) /\
      (has_attention up = true <-> in_heads cfg_cifar 2 = true /\ 0 < 5) /\
      (in_heads cfg_cifar 2 = false ->
       forallb (fun b => is_residual b || is_projection b) (do ++ up) = true) /\
      length (filter (fun b => is_posemb b = true) do)
        = (if in_heads cfg_cifar 2 then 1%nat else 0%nat) /\
      existsb is_posemb up = false.
Proof.
  destruct (UNet_init cfg_cifar) as [net|] eqn:Hinit; [|vm_compute in Hinit; discriminate].
  exists net. split; [reflexivity|]. split; [reflexivity|].
  exact (UNet_init_attention_stages cfg_cifar net 2 5 Hinit eq_refl).
Defined.

(** The stages of the CIFAR network: attention at the deepest stage only. *)
Example cfg_cifar_attention :
  option_map (fun net => (map has_attention (descent net), map has_attention (ascent net)))
             (UNet_init cfg_cifar)
  = Some ([false; false; true], [true; false; false]).
Proof. vm_compute. reflexivity. Qed.

(* ===================================================================== *)
(** ** Skip connections of [UNet.__call__]                                *)
(* ===================================================================== *)

Section UNetForward.
Context {T E : Type}.
Variable add : T -> T -> T.
Variable call_xt : block -> T -> E -> T.
Variable call_x : block -> T -> T.

Local Abbreviation array := (@array T).
Local Abbreviation run_blocks := (run_blocks call_xt call_x).
Local Abbreviation run_descent := (run_descent call_xt call_x).
Local Abbreviation run_ascent := (run_ascent add call_xt call_x).
Local Abbreviation apply_blocks := (apply_blocks call_xt call_x).
Local Abbreviation descent_outputs := (descent_outputs call_xt call_x).
Local Abbreviation ascend_with_skips := (ascend_with_skips add call_xt call_x).

(** A non-empty list of blocks ends on a newly created object. *)
Lemma run_blocks_fresh (blocks : list block) (x : array) (t : E) (next : nat) :
  exists x' next',
    run_blocks blocks x t next = (x', next') /\
    value x' = apply_blocks blocks (value x) t /\
    (next <= next')%nat /\
    (blocks = [] -> x' = x /\ next' = next) /\
    (blocks <> [] -> (next <= oid x' < next')%nat).
Proof.
  revert x next. induction blocks as [|b blocks IH]; intros x next; simpl.
  - exists x, next. repeat split; try reflexivity; try lia; congruence.
  - destruct (IH (mkArray next (apply_block call_xt call_x b (value x) t)) (S next))
      as (x' & next' & Hrun & Hval & Hle & Hnil & Hcons).
    exists x', next'. rewrite Hrun. repeat split; try assumption; try lia;
      try discriminate.
    all: destruct blocks as [|b' blocks'];
      [destruct (Hnil eq_refl) as [-> ->]; simpl; lia
      |specialize (Hcons ltac:(discriminate)); lia].
Qed.

(** The descent stores the output of every stage, the last one on top. *)
Lemma run_descent_memory (stages : list (list block)) (x : array) (t : E)
      (memory : list array) (next : nat) :
  (oid x < next)%nat ->
  Forall (fun y => (oid y < next)%nat) memory ->
  exists x' memory' next',
    run_descent stages x t memory next = (x', memory', next') /\
    (oid x' < next')%nat /\
    Forall (fun y => (oid y < next')%nat) memory' /\
    value <$> memory' =
      reverse (descent_outputs stages (value x) t) ++ (value <$> memory) /\
    (stages <> [] -> exists rest, memory' = x' :: rest) /\
    (stages = [] -> x' = x /\ memory' = memory).
Proof.
  revert x memory next.
  induction stages as [|blocks stages IH]; intros x memory next Hx Hmem; simpl.
  - exists x, memory, next. repeat split; try assumption; try reflexivity; congruence.
  - destruct (run_blocks_fresh blocks x t next)
      as (x1 & next1 & Hrun & Hval & Hle & Hnil & Hcons).
    rewrite Hrun.
    assert (oid x1 < next1)%nat as Hx1.
    { destruct blocks; [destruct (Hnil eq_refl) as [-> ->]; assumption
                       |specialize (Hcons ltac:(discriminate)); lia]. }
    assert (Forall (fun y => (oid y < next1)%nat) (x1 :: memory)) as Hmem1.
    { constructor; [assumption|].
      eapply Forall_impl; [exact Hmem|]. simpl. intros; lia. }
    destruct (IH x1 (x1 :: memory) next1 Hx1 Hmem1)
      as (x' & memory' & next' & Hdesc & Hx' & Hmem' & Hvals & Htop & Hstay).
    exists x', memory', next'. rewrite Hdesc.
    repeat split; try assumption; try discriminate.
    + rewrite Hvals, fmap_cons, Hval, reverse_cons, <- app_assoc. reflexivity.
    + intros _. destruct stages as [|s stages'].
      * destruct (Hstay eq_refl) as [-> ->]. eauto.
      * apply Htop. discriminate.
Qed.

(** Past the deepest stage the activation is newer than every stored
    output, so every remaining stage adds its matching output. *)
Lemma run_ascent_adds (outs : list T) (stages : list (list block)) (t : E) :
  forall (j : nat) (x : array) (memory : list array) (next : nat),
    (1 <= j)%nat ->
    (j + length stages <= length outs)%nat ->
    value <$> memory = reverse (take (length outs - j) outs) ->
    Forall (fun bs => bs <> []) stages ->
    Forall (fun y => (oid y < oid x)%nat) memory ->
    (oid x < next)%nat ->
    exists x' next',
      run_ascent stages x t memory next = Some (x', next') /\
      ascend_with_skips stages j outs (value x) t = Some (value x').
Proof.
  induction stages as [|blocks stages IH];
    intros j x memory next Hj Hlen Hvals Hne Hold Hx; simpl.
  - eauto.
  - simpl in Hlen.
    assert (length outs - j = S (length outs - S j))%nat as Hsplit by lia.
    rewrite Hsplit in Hvals.
    destruct (outs !! (length outs - S j)%nat) as [vy|] eqn:Hvy.
    2:{ apply lookup_ge_None in Hvy. lia. }
    rewrite (take_S_r _ _ _ Hvy), reverse_app in Hvals. simpl in Hvals.
    destruct memory as [|y memory]; [discriminate|].
    simpl in Hvals. injection Hvals as Hy Hvals.
    inversion Hold as [|? ? Hyx Hold']; subst.
    inversion Hne as [|? ? Hblocks Hne']; subst.
    rewrite decide_False by lia.
    rewrite decide_True by lia.
    replace (length outs - 1 - j)%nat with (length outs - S j)%nat by lia.
    rewrite Hvy. simpl.
    rewrite decide_False by lia.
    destruct (run_blocks_fresh blocks (mkArray next (add (value x) (value y))) t (S next))
      as (x1 & next1 & Hrun & Hval & Hle & _ & Hfresh).
    specialize (Hfresh Hblocks). rewrite Hrun. simpl in Hval.
    destruct (IH (S j) x1 memory next1) as (x' & next' & Hasc & Hspec);
      try assumption; try lia.
    { eapply Forall_impl; [exact Hold'|]. simpl. intros; lia. }
    exists x', next'. split; [exact Hasc|].
    rewrite <- Hval. exact Hspec.
Qed.

(** On lists of equal length whose ascending stages are not empty, the
    forward pass skips the addition at the deepest stage only. *)
Lemma UNet_call_with_skips (net : UNet) (x : T) (t : E) :
  length (ascent net) = length (descent net) ->
  Forall (fun bs => bs <> []) (ascent net) ->
  exists v, UNet_call add call_xt call_x net x t = Some v /\
            UNet_with_skips add call_xt call_x net x t = Some v.
Proof.
  intros Hlen Hne. unfold UNet_call, UNet_with_skips.
  destruct (run_descent_memory (descent net) (mkArray 0 x) t [] 1)
    as (x1 & memory & next & Hdesc & Hx1 & Hmem & Hvals & Htop & Hstay);
    [simpl; lia | constructor |].
  rewrite Hdesc. simpl in Hvals. rewrite app_nil_r in Hvals.
  set (outs := descent_outputs (descent net) x t) in *.
  assert (length outs = length (descent net)) as Houts.
  { unfold outs. clear. generalize x.
    induction (descent net) as [|bs l IH]; intros v; simpl; [reflexivity|].
    rewrite IH. reflexivity. }
  destruct (ascent net) as [|blocks stages] eqn:Hasc.
  - simpl. exists (value x1). split; [reflexivity|].
    destruct (descent net); [|discriminate].
    destruct (Hstay eq_refl) as [-> _]. reflexivity.
  - simpl in Hlen.
    destruct (Htop ltac:(intros E0; rewrite E0 in Hlen; discriminate))
      as [rest ->].
    simpl in Hvals.
    assert (reverse outs = value x1 :: (value <$> rest)) as Hrev by (symmetry; exact Hvals).
    assert (outs = reverse (value <$> rest) ++ [value x1]) as Eouts.
    { rewrite <- (reverse_involutive outs), Hrev, reverse_cons. reflexivity. }
    simpl. rewrite decide_True by reflexivity.
    rewrite decide_True by lia.
    replace (length outs - 1 - 0)%nat with (length outs - 1)%nat by lia.
    assert (outs !! (length outs - 1)%nat = Some (value x1)) as Hlast.
    { rewrite Eouts, length_app. simpl.
      rewrite lookup_app_r by lia.
      replace (length (reverse (value <$> rest)) + 1 - 1 - length (reverse (value <$> rest)))%nat
        with 0%nat by lia.
      reflexivity. }
    rewrite Hlast. simpl. rewrite decide_True by reflexivity.
    assert (List.last outs x = value x1) as ->.
    { rewrite Eouts. apply List.last_last. }
    inversion Hne as [|? ? Hblocks Hne']; subst.
    destruct (run_blocks_fresh blocks x1 t next)
      as (x2 & next2 & Hrun & Hval & Hle & _ & Hfresh).
    specialize (Hfresh Hblocks). rewrite Hrun.
    inversion Hmem as [|? ? _ Hrest]; subst.
    destruct (run_ascent_adds outs stages t 1 x2 rest next2)
      as (x' & next' & Hrun' & Hspec); try assumption; try lia.
    { assert (length outs - 1 = length (reverse (value <$> rest)))%nat as ->
        by (rewrite Eouts, length_app; simpl; lia).
      rewrite Eouts, take_app_length, reverse_involutive. reflexivity. }
    { eapply Forall_impl; [exact Hrest|]. simpl. intros; lia. }
    exists (value x'). rewrite Hrun'. split; [reflexivity|].
    rewrite <- Hval. exact Hspec.
Qed.
End UNetForward.

Lemma UNet_init_ascent_nonempty (cfg : UNetConfig) (net : UNet) :
  UNet_init cfg = Some net -> Forall (fun bs => bs <> []) (ascent net).
Proof.
  intros Hinit. unfold UNet_init in Hinit.
  apply UNet_stages_layout in Hinit as (dos & ups & Hld & Hlu & Hd & Ha & Hk).
  rewrite Ha. simpl. rewrite app_nil_r. apply Forall_reverse.
  apply Forall_lookup. intros k up Hup.
  assert (k < length (hid_blocks cfg))%nat as Hlt
    by (rewrite <- Hlu; eapply lookup_lt_Some; eassumption).
  destruct (lookup_lt_is_Some_2 _ _ Hlt) as [b Hb].
  destruct (Hk k b Hb) as (do & up' & _ & Hup' & Hst).
  rewrite Hup in Hup'. injection Hup' as <-.
  apply UNet_stage_layout in Hst as (c & proj & unproj & _ & _ & _ & _ & -> & _).
  intros Hnil. apply app_eq_nil in Hnil as [_ Hnil]. discriminate.
Qed.

(** C1: in the forward pass of a constructed network, every ascending stage
    first adds the output of its matching descending stage to the current
    activation and then applies its blocks, except the deepest stage, where
    nothing is added: the test [x is not y] fails exactly when the popped
    entry is the output of the last descending stage, which is the current
    activation itself. *)
Theorem UNet_call_skip_connections {T E : Type}
    (add : T -> T -> T) (call_xt : block -> T -> E -> T) (call_x : block -> T -> T)
    (cfg : UNetConfig) (net : UNet) (x : T) (t : E) :
  UNet_init cfg = Some net ->
  exists v, UNet_call add call_xt call_x net x t = Some v /\
            UNet_with_skips add call_xt call_x net x t = Some v.
Proof.
  intros Hinit. apply UNet_call_with_skips.
  - destruct (UNet_init_lengths cfg net Hinit) as [-> ->]. reflexivity.
  - exact (UNet_init_ascent_nonempty cfg net Hinit).
Qed.

Lemma UNet_call_skip_connections_witness :
  exists net,
    UNet_init cfg_small = Some net /\
    exists v, UNet_call Z.add (fun _ v t => v * t) (fun _ v => v + 1) net 5 3 = Some v /\
              UNet_with_skips Z.add (fun _ v t => v * t) (fun _ v => v + 1) net 5 3 = Some v.
Proof.
  destruct (UNet_init cfg_small) as [net|] eqn:Hinit; [|vm_compute in Hinit; discriminate].
  exists net. split; [reflexivity|].
  exact (UNet_call_skip_connections Z.add (fun _ v t => v * t) (fun _ v => v + 1)
           cfg_small net 5 3 Hinit).
Defined.

(** On the small network, read symbolically: the deepest stage passes its
    activation on, the outer stage adds the output of the first descending
    stage. *)
Example UNet_call_small_symbolic :
  (net ← UNet_init cfg_small;
   UNet_call Plus (fun b v (_ : unit) => Call b v) Call net Input tt) =
  (let c0 := Conv 3 8 [3; 3] [1; 1] [(1, 1); (1, 1)] in
   let r0 := ResBlock 8 4 None [3; 3] [(1, 1); (1, 1)] in
   let c1 := Conv 8 16 [3; 3] [2; 2] [(1, 1); (1, 1)] in
   let r1 := ResBlock 16 4 None [3; 3] [(1, 1); (1, 1)] in
   let a1 := AttBlock 16 4 2 in
   let u1 := Sequential [Resample [2; 2]; Conv 16 8 [3; 3] [1; 1] [(1, 1); (1, 1)]] in
   let d0 := Call r0 (Call c0 Input) in
   let d1 := Call a1 (Call r1 (Call PosEmbedding (Call c1 d0))) in
   Some (Call (Linear 8 3) (Call r0 (Plus (Call u1 (Call a1 (Call r1 d1))) d0)))).
Proof. vm_compute. reflexivity. Qed.

(** The identity test matters: on hand-made lists with an empty ascending
    stage, which the constructor never builds, the activation is still the
    stored object at the second stage and the addition is skipped again. *)
Example UNet_call_empty_stage_skips_twice :
  UNet_call Plus (fun b v (_ : unit) => Call b v) Call
    (mkUNet [[Linear 1 1]; []] [[]; [Linear 1 1]]) Input tt =
  Some (Call (Linear 1 1) (Call (Linear 1 1) Input)).
Proof. vm_compute. reflexivity. Qed.

(* ===================================================================== *)
(** ** Shapes through the layers and the blocks                           *)
(* ===================================================================== *)

Section ShapeLayers.
Import Shape.

Lemma broadcast_rev_same (r : list Z) : broadcast_rev r r = Some r.
Proof.
  induction r as [|d r IH]; [reflexivity|]. simpl.
  unfold broadcast_dim. rewrite decide_True by reflexivity. simpl.
  rewrite IH. reflexivity.
Qed.

Lemma broadcast_same (s : shape) : broadcast s s = Some s.
Proof.
  unfold broadcast. rewrite broadcast_rev_same. simpl.
  rewrite reverse_involutive. reflexivity.
Qed.

Lemma broadcast_dim_one_l (d : Z) : broadcast_dim 1 d = Some d.
Proof.
  unfold broadcast_dim. destruct (decide (1 = d)) as [<-|]; [reflexivity|].
  rewrite decide_True by reflexivity. reflexivity.
Qed.

Lemma broadcast_dim_one_r (d : Z) : broadcast_dim d 1 = Some d.
Proof.
  unfold broadcast_dim. destruct (decide (d = 1)) as [->|]; [reflexivity|].
  rewrite decide_True by reflexivity. reflexivity.
Qed.

Lemma broadcast_dim_same (d : Z) : broadcast_dim d d = Some d.
Proof. unfold broadcast_dim. rewrite decide_True by reflexivity. reflexivity. Qed.

Lemma reverse_hwc (bs : list Z) (h w c : Z) :
  reverse (c :: w :: h :: reverse bs) = bs ++ [h; w; c].
Proof.
  rewrite !reverse_cons, reverse_involutive, <- !app_assoc. reflexivity.
Qed.

(** A per-channel modulation broadcasts over the two spatial axes. *)
Lemma broadcast_modulation_l (bs : list Z) (h w c : Z) :
  broadcast (bs ++ [1; 1; c]) (bs ++ [h; w; c]) = Some (bs ++ [h; w; c]).
Proof.
  unfold broadcast. rewrite !reverse_app. simpl.
  rewrite broadcast_dim_same, !broadcast_dim_one_l. simpl.
  rewrite broadcast_rev_same. simpl.
  rewrite reverse_hwc. reflexivity.
Qed.

Lemma broadcast_modulation_r (bs : list Z) (h w c : Z) :
  broadcast (bs ++ [h; w; c]) (bs ++ [1; 1; c]) = Some (bs ++ [h; w; c]).
Proof.
  unfold broadcast. rewrite !reverse_app. simpl.
  rewrite broadcast_dim_same, !broadcast_dim_one_r. simpl.
  rewrite broadcast_rev_same. simpl.
  rewrite reverse_hwc. reflexivity.
Qed.

Lemma on_spatial_last (bs : list Z) (c : Z) (c1 c2 : option Z)
      (f : list Z -> option (list Z)) (sp : list Z) :
  match c1 with Some c' => c = c' | None => True end ->
  f [] = Some sp ->
  on_spatial 0 c1 c2 f (bs ++ [c]) =
  Some (bs ++ sp ++ [match c2 with Some c' => c' | None => c end]).
Proof.
  intros Hc Hf. unfold on_spatial. rewrite reverse_app. simpl.
  assert ((match c1 with Some c0 => bool_decide (c = c0) | None => true end) = true) as ->.
  { destruct c1; [apply bool_decide_eq_true; exact Hc|reflexivity]. }
  rewrite ?bool_decide_eq_true_2 by (simpl; lia). simpl.
  rewrite take_0, drop_0. change (reverse []) with (@nil Z).
  rewrite Hf. simpl. rewrite reverse_involutive. reflexivity.
Qed.

Lemma on_spatial_hw (bs : list Z) (h w c : Z) (c1 c2 : option Z)
      (f : list Z -> option (list Z)) (sp : list Z) :
  match c1 with Some c' => c = c' | None => True end ->
  f [h; w] = Some sp ->
  on_spatial 2 c1 c2 f (bs ++ [h; w; c]) =
  Some (bs ++ sp ++ [match c2 with Some c' => c' | None => c end]).
Proof.
  intros Hc Hf. unfold on_spatial. rewrite reverse_app. simpl.
  assert ((match c1 with Some c0 => bool_decide (c = c0) | None => true end) = true) as ->.
  { destruct c1; [apply bool_decide_eq_true; exact Hc|reflexivity]. }
  rewrite ?bool_decide_eq_true_2 by (simpl; lia). simpl.
  rewrite take_0, drop_0. change (reverse [w; h]) with [h; w]. rewrite Hf. simpl.
  rewrite reverse_involutive. reflexivity.
Qed.

Lemma on_spatial_flat (bs : list Z) (l c : Z) (c1 c2 : option Z)
      (f : list Z -> option (list Z)) (sp : list Z) :
  match c1 with Some c' => c = c' | None => True end ->
  f [l] = Some sp ->
  on_spatial 1 c1 c2 f (bs ++ [l; c]) =
  Some (bs ++ sp ++ [match c2 with Some c' => c' | None => c end]).
Proof.
  intros Hc Hf. unfold on_spatial. rewrite reverse_app. simpl.
  assert ((match c1 with Some c0 => bool_decide (c = c0) | None => true end) = true) as ->.
  { destruct c1; [apply bool_decide_eq_true; exact Hc|reflexivity]. }
  rewrite ?bool_decide_eq_true_2 by (simpl; lia). simpl.
  rewrite take_0, drop_0. change (reverse [l]) with [l]. rewrite Hf. simpl.
  rewrite reverse_involutive. reflexivity.
Qed.

Lemma size_app (s1 s2 : shape) : size (s1 ++ s2) = size s1 * size s2.
Proof.
  unfold size. induction s1 as [|d s1 IH]; simpl.
  - destruct (fold_right Z.mul 1 s2); reflexivity.
  - rewrite IH. lia.
Qed.

(** Along an axis, a unit-stride convolution with an odd kernel [2a + 1]
    and padding [(a, a)] keeps the length. *)
Lemma conv_dim_same (d a : Z) :
  0 <= d -> conv_dim d (2 * a + 1) 1 (a, a) = d.
Proof.
  intros Hd. unfold conv_dim. simpl.
  rewrite Z.div_1_r. lia.
Qed.

(** With stride 2 it halves an even length. *)
Lemma conv_dim_half (d a : Z) :
  0 <= d -> conv_dim (2 * d) (2 * a + 1) 2 (a, a) = d.
Proof.
  intros Hd. unfold conv_dim. simpl.
  replace (2 * d + a + a - (2 * a + 1)) with (1 + (d - 1) * 2) by lia.
  rewrite Z.div_add by lia. change (1 / 2) with 0. lia.
Qed.

Lemma odd_half (a : Z) : 0 <= a -> (2 * a + 1) / 2 = a.
Proof.
  intros Ha. replace (2 * a + 1) with (1 + a * 2) by lia.
  rewrite Z.div_add by lia. reflexivity.
Qed.
End ShapeLayers.

Section ShapeBlocks.
Import Shape.
(** The batch axes, the kernel half-widths and the embedding size. *)
Variable bs : list Z.
Variables a b e : Z.

Let ks : list Z := [2 * a + 1; 2 * b + 1].
Let pad : list (Z * Z) := [(a, a); (b, b)].

Lemma layer_call_Linear (i o : Z) (wt bi : unit) :
  layer_call (nn.Linear i o wt bi) (Some (bs ++ [i])) = Some (bs ++ [o]).
Proof.
  unfold layer_call. simpl.
  rewrite (on_spatial_last bs i (Some i) (Some o) Some []) by reflexivity.
  reflexivity.
Qed.

Lemma layer_call_Conv_same (i o h w : Z) (wt bi : unit) :
  0 <= h -> 0 <= w ->
  layer_call (nn.Conv i o ks [1; 1] pad wt bi) (Some (bs ++ [h; w; i]))
  = Some (bs ++ [h; w; o]).
Proof.
  intros Hh Hw.
  assert (conv_dims [h; w] ks [1; 1] pad = Some [h; w]) as Hdims.
  { unfold ks, pad. cbn [conv_dims]. rewrite !decide_True by lia.
    rewrite !conv_dim_same by lia. reflexivity. }
  unfold layer_call. simpl.
  rewrite (on_spatial_hw bs h w i (Some i) (Some o) _ [h; w])
    by (reflexivity || exact Hdims).
  reflexivity.
Qed.

Lemma layer_call_Conv_half (i o h w : Z) (wt bi : unit) :
  0 <= h -> 0 <= w ->
  layer_call (nn.Conv i o ks [2; 2] pad wt bi) (Some (bs ++ [2 * h; 2 * w; i]))
  = Some (bs ++ [h; w; o]).
Proof.
  intros Hh Hw.
  assert (conv_dims [2 * h; 2 * w] ks [2; 2] pad = Some [h; w]) as Hdims.
  { unfold ks, pad. cbn [conv_dims]. rewrite !decide_True by lia.
    rewrite !conv_dim_half by lia. reflexivity. }
  unfold layer_call. simpl.
  rewrite (on_spatial_hw bs (2 * h) (2 * w) i (Some i) (Some o) _ [h; w])
    by (reflexivity || exact Hdims).
  reflexivity.
Qed.

Lemma layer_call_pointwise (l : nn.layer unit) (s : shape) :
  match l with
  | nn.SiLU | nn.LayerNorm | nn.Identity | nn.TrainingDropout _ => True
  | _ => False
  end ->
  layer_call l (Some s) = Some s.
Proof. destruct l; simpl; intros []; reflexivity. Qed.

Lemma layer_call_Rearrange (c : Z) :
  layer_call nn.Rearrange_11C (Some (bs ++ [c])) = Some (bs ++ [1; 1; c]).
Proof.
  unfold layer_call. simpl.
  rewrite (on_spatial_last bs c None None _ [1; 1]) by reflexivity.
  reflexivity.
Qed.

Lemma layer_call_attention (hd c hid l : Z) (p : unit) :
  layer_call (nn.MultiheadAttention hd c c hid p) (Some (bs ++ [l; c]))
  = Some (bs ++ [l; c]).
Proof.
  unfold layer_call. simpl.
  rewrite (on_spatial_flat bs l c (Some c) (Some c) Some [l]) by reflexivity.
  reflexivity.
Qed.

Lemma flatten_hw_shape (h w c : Z) :
  flatten_hw (Some (bs ++ [h; w; c])) = Some (bs ++ [h * w; c]).
Proof.
  unfold flatten_hw. simpl.
  rewrite (on_spatial_hw bs h w c None None _ [h * w]) by reflexivity.
  reflexivity.
Qed.

Lemma part3_triple (c i : Z) : 0 <= i -> part3 (3 * c) i = c.
Proof.
  intros Hi. unfold part3.
  rewrite (Z.mul_comm 3 c), Z.div_mul, Z.mod_mul by lia.
  destruct (Z.ltb_spec i 0); lia.
Qed.

Local Opaque layer_call broadcast.

(** The three outputs of a modulation have one entry per channel and
    singleton spatial axes. *)
Lemma Modulation_call_shape (c : Z) (rng : nat) :
  exists m,
    nn.Modulation_init unit_weight unit_bias unit_scale c e rng = Some (m, S (S rng)) /\
    nn.Modulation_call layer_call array_split3 m (Some (bs ++ [e]))
    = (Some (bs ++ [1; 1; c]), Some (bs ++ [1; 1; c]), Some (bs ++ [1; 1; c])).
Proof.
  eexists. split; [reflexivity|].
  unfold nn.Modulation_call, nn.Sequential_call.
  cbn [nn.mlp fold_left list_insert insert length Nat.sub].
  rewrite layer_call_Linear, layer_call_pointwise by exact I.
  rewrite layer_call_Linear, layer_call_Rearrange.
  unfold array_split3. rewrite reverse_app.
  change (reverse [1; 1; 3 * c]) with [3 * c; 1; 1]. cbn [app].
  rewrite !part3_triple by lia. rewrite !reverse_hwc. reflexivity.
Qed.

(** A residual block keeps the shape of its input. *)
Lemma call_xt_ResBlock (c : Z) (d : option Q) (h w : Z) :
  0 <= h -> 0 <= w ->
  call_xt (ResBlock c e d ks pad) (Some (bs ++ [h; w; c])) (Some (bs ++ [e]))
  = Some (bs ++ [h; w; c]).
Proof.
  intros Hh Hw. unfold call_xt, nn.ResBlock_init.
  destruct (Modulation_call_shape c 0) as (m & -> & Hmod).
  cbn [mbind option_bind nn.new_Conv fmap list_fmap].
  unfold ResBlock_call, nn.ResBlock_call.
  cbn [nn.res_modulation nn.block]. rewrite Hmod.
  unfold add_one, add. cbn [mbind option_bind].
  rewrite broadcast_modulation_l. cbn [mbind option_bind].
  rewrite broadcast_modulation_r.
  unfold nn.Sequential_call. cbn [fold_left].
  rewrite layer_call_pointwise by exact I.
  rewrite layer_call_Conv_same by assumption.
  rewrite layer_call_pointwise by exact I.
  rewrite (layer_call_pointwise (nn.dropout_layer d)) by (destruct d; exact I).
  rewrite layer_call_Conv_same by assumption.
  cbn [mbind option_bind].
  rewrite broadcast_modulation_l. cbn [mbind option_bind].
  apply broadcast_same.
Qed.

(** So does an attention block. *)
Lemma call_xt_AttBlock (c hd : Z) (h w : Z) :
  hd <> 0 ->
  call_xt (AttBlock c e hd) (Some (bs ++ [h; w; c])) (Some (bs ++ [e]))
  = Some (bs ++ [h; w; c]).
Proof.
  intros Hhd. unfold call_xt, nn.AttBlock_init.
  destruct (Modulation_call_shape c 0) as (m & -> & Hmod).
  cbn [mbind option_bind]. rewrite decide_False by assumption.
  cbn [mbind option_bind].
  unfold AttBlock_call, nn.AttBlock_call.
  cbn [nn.att_modulation nn.norm nn.attn]. rewrite Hmod.
  unfold add_one, add. cbn [mbind option_bind].
  rewrite broadcast_modulation_l. cbn [mbind option_bind].
  rewrite broadcast_modulation_r.
  rewrite layer_call_pointwise by exact I.
  rewrite flatten_hw_shape, layer_call_attention.
  unfold reshape_like. cbn [mbind option_bind].
  rewrite decide_True.
  2:{ rewrite !size_app. unfold size. simpl. lia. }
  cbn [mbind option_bind].
  rewrite broadcast_modulation_l. cbn [mbind option_bind].
  apply broadcast_same.
Qed.

Local Transparent layer_call broadcast.

(** The positional embedding keeps the shape when the channels are a
    multiple of four. *)
Lemma call_x_PosEmbedding (c h w : Z) :
  c mod 4 = 0 ->
  call_x PosEmbedding (Some (bs ++ [h; w; c])) = Some (bs ++ [h; w; c]).
Proof.
  intros Hc. simpl. unfold PosEmbedding_call. simpl.
  rewrite reverse_app. simpl.
  replace (4 * (c / 4)) with c by (pose proof (Z.div_mod c 4); lia).
  unfold broadcast. rewrite reverse_app. simpl.
  rewrite !broadcast_dim_same. simpl.
  assert (broadcast_rev (reverse bs) [] = Some (reverse bs)) as ->
    by (destruct (reverse bs); reflexivity).
  simpl. rewrite reverse_hwc. reflexivity.
Qed.

(** Nearest-neighbour upsampling by two followed by a convolution. *)
Lemma call_x_upsample (i o h w : Z) :
  0 <= h -> 0 <= w ->
  call_x (Sequential [Resample [2; 2]; Conv i o ks [1; 1] pad])
         (Some (bs ++ [h; w; i]))
  = Some (bs ++ [2 * h; 2 * w; o]).
Proof.
  intros Hh Hw. cbn [call_x].
  assert (Resample_call [2; 2] (Some (bs ++ [h; w; i])) = Some (bs ++ [2 * h; 2 * w; i])) as ->.
  { unfold Resample_call. simpl.
    rewrite (on_spatial_hw bs h w i None None _ [2 * h; 2 * w]) by reflexivity.
    reflexivity. }
  apply layer_call_Conv_same; lia.
Qed.
End ShapeBlocks.

Section ForwardChains.
Context {T E : Type}.
Variable call_xt : block -> T -> E -> T.
Variable call_x : block -> T -> T.

Lemma apply_blocks_app (l1 l2 : list block) (v : T) (t : E) :
  apply_blocks call_xt call_x (l1 ++ l2) v t
  = apply_blocks call_xt call_x l2 (apply_blocks call_xt call_x l1 v t) t.
Proof. unfold apply_blocks. apply fold_left_app. Qed.

(** When the stages map a sequence of activations [st] onto each other,
    the descent stores [st 1], [st 2], ... *)
Lemma descent_outputs_chain (stages : list (list block)) (st : nat -> T) (t : E) :
  forall k : nat,
    (forall i blocks, stages !! i = Some blocks ->
       apply_blocks call_xt call_x blocks (st (k + i)%nat) t = st (S (k + i))) ->
    descent_outputs call_xt call_x stages (st k) t
    = (fun i => st (S i)) <$> seq k (length stages).
Proof.
  induction stages as [|blocks stages IH]; intros k Hst; [reflexivity|].
  simpl. pose proof (Hst 0%nat blocks eq_refl) as H0.
  rewrite Nat.add_0_r in H0. rewrite H0. f_equal.
  apply IH. intros i bl Hi.
  replace (S k + i)%nat with (k + S i)%nat by lia.
  apply Hst. exact Hi.
Qed.
End ForwardChains.

Section ShapeUNet.
Import Shape.
Variable cfg : UNetConfig.
Variable net : UNet.
Variables a b h0 w0 : Z.
Variable bs : list Z.
Hypothesis Hinit : UNet_init cfg = Some net.
Hypothesis Hks : kernel_size cfg = [2 * a + 1; 2 * b + 1].
Hypothesis Ha : 0 <= a.
Hypothesis Hb : 0 <= b.
Hypothesis Hh0 : 0 <= h0.
Hypothesis Hw0 : 0 <= w0.
Hypothesis Hpos : forall i c,
    in_heads cfg i = true -> hid_channels cfg !! i = Some c -> c mod 4 = 0.

Let n : nat := length (hid_blocks cfg).
Let t : option shape := Some (bs ++ [emb_features cfg]).
Let side (i : nat) : Z := 2 ^ Z.of_nat (n - 1 - i).
Let level (i : nat) : shape :=
  bs ++ [h0 * side i; w0 * side i; nth i (hid_channels cfg) 0].
Let down (m : nat) : option shape :=
  match m with
  | O => Some (bs ++ [h0 * side 0; w0 * side 0; in_channels cfg])
  | S i => Some (level i)
  end.
Let up (m : nat) : option shape :=
  match m with
  | O => Some (bs ++ [h0 * side 0; w0 * side 0; out_channels cfg])
  | S i => Some (level i)
  end.

Lemma side_nonneg (i : nat) : 0 <= side i.
Proof. unfold side. apply Z.pow_nonneg. lia. Qed.

Lemma side_double (i : nat) : (S i < n)%nat -> side i = 2 * side (S i).
Proof.
  intros Hi. unfold side.
  replace (n - 1 - i)%nat with (S (n - 1 - S i)) by lia.
  rewrite Nat2Z.inj_succ, Z.pow_succ_r by lia. reflexivity.
Qed.

Lemma padding_odd : padding cfg = [(a, a); (b, b)].
Proof. unfold padding. rewrite Hks. simpl. rewrite !odd_half by lia. reflexivity. Qed.

Lemma stride_two : stride cfg = [2; 2].
Proof. unfold stride. rewrite Hks. reflexivity. Qed.

Lemma unit_stride_one : unit_stride cfg = [1; 1].
Proof. unfold unit_stride. rewrite Hks. reflexivity. Qed.

(** The repeats of a stage keep the shape. *)
Lemma stage_body_shape (i : nat) (c blocks h w : Z) :
  (0 < blocks -> forall hd, heads cfg !! Z.of_nat i = Some hd -> hd <> 0) ->
  0 <= h -> 0 <= w ->
  apply_blocks call_xt call_x (stage_body cfg i c blocks) (Some (bs ++ [h; w; c])) t
  = Some (bs ++ [h; w; c]).
Proof.
  intros Hhd Hh Hw. unfold stage_body.
  destruct (Z.to_nat blocks) as [|k] eqn:Hk; [reflexivity|].
  assert (0 < blocks) as Hblocks by lia. specialize (Hhd Hblocks).
  clear Hk. generalize (S k). clear k. intros k.
  induction k as [|k IH]; [reflexivity|].
  rewrite mjoin_replicate_S, apply_blocks_app.
  assert (apply_blocks call_xt call_x (stage_unit cfg i c) (Some (bs ++ [h; w; c])) t
          = Some (bs ++ [h; w; c])) as ->; [|exact IH].
  unfold stage_unit. rewrite Hks, padding_odd.
  destruct (heads cfg !! Z.of_nat i) as [hd|] eqn:Hheads.
  - unfold apply_blocks. cbn [fold_left]. unfold apply_block. cbn [takes_embedding].
    unfold t. rewrite call_xt_ResBlock by assumption.
    apply call_xt_AttBlock. apply Hhd. reflexivity.
  - unfold apply_blocks. cbn [fold_left]. unfold apply_block. cbn [takes_embedding].
    unfold t. apply call_xt_ResBlock; assumption.
Qed.

Section Stage.
Variable i : nat.
Variable blocks : Z.
Variables do ups : list block.
Hypothesis Hi : (i < n)%nat.
Hypothesis Hstage : UNet_stage cfg i blocks = Some (do, ups).

(** Descending stage [i] maps the activation of level [i - 1] (the input
    for [i = 0]) to level [i]. *)
Lemma stage_descends :
  apply_blocks call_xt call_x do (down i) t = down (S i).
Proof.
  destruct (UNet_stage_exact cfg i blocks do ups Hstage) as (c & Hc & -> & _ & Hhd).
  assert (nth i (hid_channels cfg) 0 = c) as Hnth by (apply nth_lookup_Some with (d := 0) in Hc; exact Hc).
  change (entry_projection cfg i c :: ?l) with ([entry_projection cfg i c] ++ l).
  rewrite !apply_blocks_app.
  assert (apply_blocks call_xt call_x [entry_projection cfg i c] (down i) t
          = Some (bs ++ [h0 * side i; w0 * side i; c])) as ->.
  { unfold apply_blocks. cbn [fold_left]. unfold apply_block.
    destruct i as [|j]; cbn [entry_projection takes_embedding down call_x].
    - rewrite Hks, padding_odd, unit_stride_one.
      apply layer_call_Conv_same; pose proof (side_nonneg 0); nia.
    - rewrite Hks, padding_odd, stride_two. unfold level.
      rewrite (side_double j) by lia.
      replace (h0 * (2 * side (S j))) with (2 * (h0 * side (S j))) by lia.
      replace (w0 * (2 * side (S j))) with (2 * (w0 * side (S j))) by lia.
      apply layer_call_Conv_half; pose proof (side_nonneg (S j)); nia. }
  assert (apply_blocks call_xt call_x (if in_heads cfg i then [PosEmbedding] else [])
            (Some (bs ++ [h0 * side i; w0 * side i; c])) t
          = Some (bs ++ [h0 * side i; w0 * side i; c])) as ->.
  { destruct (in_heads cfg i) eqn:Hin; [|reflexivity].
    unfold apply_blocks. cbn [fold_left]. unfold apply_block. cbn [takes_embedding].
    apply call_x_PosEmbedding. eapply Hpos; eassumption. }
  rewrite stage_body_shape; try assumption.
  - cbn [down]. unfold level. rewrite Hnth. reflexivity.
  - pose proof (side_nonneg i); nia.
  - pose proof (side_nonneg i); nia.
Qed.

(** Ascending stage [i] maps level [i] back to level [i - 1], and stage
    0 to the output. *)
Lemma stage_ascends :
  apply_blocks call_xt call_x ups (Some (level i)) t = up i.
Proof.
  destruct (UNet_stage_exact cfg i blocks do ups Hstage) as (c & Hc & _ & -> & Hhd).
  assert (nth i (hid_channels cfg) 0 = c) as Hnth by (apply nth_lookup_Some with (d := 0) in Hc; exact Hc).
  rewrite apply_blocks_app. unfold level. rewrite Hnth.
  rewrite stage_body_shape; try assumption;
    try (pose proof (side_nonneg i); nia).
  unfold apply_blocks. cbn [fold_left]. unfold apply_block.
  destruct i as [|j]; cbn [exit_projection takes_embedding up].
  - cbn [call_x].
    replace (bs ++ [h0 * side 0; w0 * side 0; c])
      with ((bs ++ [h0 * side 0; w0 * side 0]) ++ [c])
      by (rewrite <- app_assoc; reflexivity).
    rewrite layer_call_Linear, <- app_assoc. reflexivity.
  - rewrite Hks, padding_odd, stride_two, unit_stride_one.
    rewrite call_x_upsample by (pose proof (side_nonneg (S j)); nia).
    unfold level. rewrite (side_double j) by lia.
    do 3 f_equal; [lia|]. f_equal. lia.
Qed.
End Stage.

Lemma UNet_stage_of_descent (i : nat) (do : list block) :
  descent net !! i = Some do ->
  exists blocks ups, (i < n)%nat /\ UNet_stage cfg i blocks = Some (do, ups).
Proof.
  intros Hdo. pose proof (lookup_lt_Some _ _ _ Hdo) as Hlt.
  destruct (UNet_init_lengths cfg net Hinit) as [Hld _]. rewrite Hld in Hlt.
  destruct (lookup_lt_is_Some_2 _ _ Hlt) as [blocks Hbl].
  destruct (UNet_init_stage cfg net i blocks Hinit Hbl) as (do' & ups & Hdo' & _ & Hst).
  rewrite Hdo in Hdo'. injection Hdo' as <-. eauto.
Qed.

Lemma UNet_descent_shapes :
  descent_outputs call_xt call_x (descent net) (down 0) t
  = (fun i => down (S i)) <$> seq 0 n.
Proof.
  destruct (UNet_init_lengths cfg net Hinit) as [Hld _].
  unfold n. rewrite <- Hld.
  apply descent_outputs_chain. intros i do Hdo. simpl.
  destruct (UNet_stage_of_descent i do Hdo) as (blocks & ups & Hi & Hst).
  eapply stage_descends; eassumption.
Qed.

Lemma UNet_ascent_shapes (outs : list (option shape)) :
  outs = (fun i => down (S i)) <$> seq 0 n ->
  forall m, (m <= n)%nat ->
    ascend_with_skips add call_xt call_x
      (drop (n - m) (ascent net)) (n - m) outs (up m) t = Some (up 0).
Proof.
  intros Houts.
  destruct (UNet_init_lengths cfg net Hinit) as [_ Hla]. fold n in Hla.
  assert (length outs = n) as Hlo by (rewrite Houts, length_fmap, length_seq; reflexivity).
  induction m as [|i IH]; intros Hm.
  - rewrite Nat.sub_0_r, drop_ge by lia. reflexivity.
  - destruct (lookup_lt_is_Some_2 (hid_blocks cfg) i ltac:(fold n; lia)) as [blocks Hbl].
    destruct (UNet_init_stage cfg net i blocks Hinit Hbl) as (do & ups & _ & Hup & Hst).
    fold n in Hup.
    replace (n - 1 - i)%nat with (n - S i)%nat in Hup by lia.
    rewrite (drop_S _ _ _ Hup).
    cbn [ascend_with_skips]. rewrite Hlo.
    rewrite decide_True by lia.
    replace (n - 1 - (n - S i))%nat with i by lia.
    assert (outs !! i = Some (down (S i))) as ->.
    { rewrite Houts, list_lookup_fmap, lookup_seq_lt by lia. reflexivity. }
    cbn [mbind option_bind].
    assert ((if decide (i = (n - 1)%nat) then up (S i) else add (up (S i)) (down (S i)))
            = Some (level i)) as ->.
    { destruct (decide (i = (n - 1)%nat)); [reflexivity|].
      cbn [up down]. unfold add. cbn [mbind option_bind]. apply broadcast_same. }
    rewrite (stage_ascends i blocks do ups) by (assumption || lia).
    replace (S (n - S i)) with (n - i)%nat by lia.
    apply IH. lia.
Qed.

(** Shape of the forward pass of a constructed network with at least one
    stage. *)
Lemma UNet_call_shape :
  (0 < n)%nat ->
  Shape.UNet_call net (bs ++ [h0 * side 0; w0 * side 0; in_channels cfg])
                  (bs ++ [emb_features cfg])
  = Some (bs ++ [h0 * side 0; w0 * side 0; out_channels cfg]).
Proof.
  intros Hn. unfold Shape.UNet_call.
  destruct (UNet_call_with_skips add call_xt call_x net
              (Some (bs ++ [h0 * side 0; w0 * side 0; in_channels cfg]))
              (Some (bs ++ [emb_features cfg])))
    as (v & Hcall & Hspec).
  { destruct (UNet_init_lengths cfg net Hinit) as [-> ->]. reflexivity. }
  { exact (UNet_init_ascent_nonempty cfg net Hinit). }
  transitivity (mjoin (Some v)); [f_equal; exact Hcall|]. cbn [mjoin option_join].
  unfold UNet_with_skips in Hspec.
  change (Some (bs ++ [h0 * side 0; w0 * side 0; in_channels cfg])) with (down 0) in Hspec.
  fold t in Hspec. rewrite UNet_descent_shapes in Hspec.
  assert (List.last ((fun i => down (S i)) <$> seq 0 n) (down 0) = up n) as Hlast.
  { destruct n as [|k] eqn:Hk; [lia|].
    rewrite seq_S, fmap_app. simpl. apply List.last_last. }
  rewrite Hlast in Hspec.
  pose proof (UNet_ascent_shapes _ eq_refl n (Nat.le_refl n)) as Hasc.
  rewrite Nat.sub_diag, drop_0 in Hasc.
  rewrite Hasc in Hspec. injection Hspec as <-. reflexivity.
Qed.
End ShapeUNet.

(** C4, as stated, fails: with an even kernel size the padding [k // 2]
    makes every convolution grow the image by one (32 x 32 becomes
    33 x 33); with 3 x 3 kernels and two stages a 1 x 1 image comes back as
    2 x 2 (the upsampled activation broadcasts against the stored one) and a
    3 x 3 image raises; and a network without stages returns its input,
    with [in_channels] channels. *)
Lemma UNet_output_shape_fails :
  (exists net, UNet_init cfg_even_kernel = Some net /\
               Shape.UNet_call net [32; 32; 3] [4] = Some [33; 33; 5]) /\
  (exists net, UNet_init cfg_two_stages = Some net /\
               Shape.UNet_call net [1; 1; 3] [4] = Some [2; 2; 5] /\
               Shape.UNet_call net [3; 3; 3] [4] = None) /\
  (exists net, UNet_init cfg_no_stage = Some net /\
               Shape.UNet_call net [32; 32; 3] [4] = Some [32; 32; 3]).
Proof.
  split; [|split]; eexists; (split; [vm_compute; reflexivity|]);
    repeat split; vm_compute; reflexivity.
Qed.

(** C4, amended: in a constructed network with at least one stage, the last
    ascending stage ends with the linear layer from [hid_channels[0]] to
    [out_channels]; and when the two kernel sizes are odd, the height and
    the width of the input are multiples of [2 ^ (stages - 1)] and the
    stages with attention have a multiple of four channels, the forward
    pass returns an array with the spatial (and batch) axes of the input
    and [out_channels] channels. *)
Theorem UNet_output_shape (cfg : UNetConfig) (net : UNet) (a b h0 w0 : Z) (bs : list Z) :
  UNet_init cfg = Some net ->
  hid_blocks cfg <> [] ->
  kernel_size cfg = [2 * a + 1; 2 * b + 1] -> 0 <= a -> 0 <= b ->
  0 <= h0 -> 0 <= w0 ->
  (forall i c, in_heads cfg i = true -> hid_channels cfg !! i = Some c -> c mod 4 = 0) ->
  let n := length (hid_blocks cfg) in
  let h := h0 * 2 ^ Z.of_nat (n - 1) in
  let w := w0 * 2 ^ Z.of_nat (n - 1) in
  (exists c0 body,
     hid_channels cfg !! 0%nat = Some c0 /\
     ascent net !! (length (ascent net) - 1)%nat
       = Some (body ++ [Linear c0 (out_channels cfg)])) /\
  Shape.UNet_call net (bs ++ [h; w; in_channels cfg]) (bs ++ [emb_features cfg])
  = Some (bs ++ [h; w; out_channels cfg]).
Proof.
  intros Hinit Hne Hks Ha Hb Hh0 Hw0 Hpos n h w.
  assert (0 < n)%nat as Hn by (unfold n; destruct (hid_blocks cfg); [congruence|simpl; lia]).
  split.
  - destruct (lookup_lt_is_Some_2 (hid_blocks cfg) 0 Hn) as [blocks Hbl].
    destruct (UNet_init_stage cfg net 0 blocks Hinit Hbl) as (do & up & _ & Hup & Hst).
    apply UNet_stage_exact in Hst as (c0 & Hc0 & _ & -> & _).
    destruct (UNet_init_lengths cfg net Hinit) as [_ ->].
    rewrite Nat.sub_0_r in Hup. eauto.
  - pose proof (UNet_call_shape cfg net a b h0 w0 bs Hinit Hks Ha Hb Hh0 Hw0 Hpos Hn) as H.
    cbv beta zeta in H. rewrite Nat.sub_0_r in H. exact H.
Qed.

Lemma UNet_output_shape_witness :
  exists net,
    UNet_init cfg_cifar = Some net /\
    (exists c0 body,
       hid_channels cfg_cifar !! 0%nat = Some c0 /\
       ascent net !! (length (ascent net) - 1)%nat
         = Some (body ++ [Linear c0 (out_channels cfg_cifar)])) /\
    Shape.UNet_call net ([256] ++ [8 * 2 ^ 2; 8 * 2 ^ 2; 3]) ([256] ++ [256])
    = Some ([256] ++ [8 * 2 ^ 2; 8 * 2 ^ 2; 3]).
Proof.
  destruct (UNet_init cfg_cifar) as [net|] eqn:Hinit; [|vm_compute in Hinit; discriminate].
  exists net. split; [reflexivity|].
  refine (UNet_output_shape cfg_cifar net 1 1 8 8 [256] Hinit _ _ _ _ _ _ _).
  - discriminate.
  - reflexivity.
  - lia.
  - lia.
  - lia.
  - lia.
  - intros i c Hin Hc.
    destruct i as [|[|[|i]]]; try (vm_compute in Hin; discriminate).
    vm_compute in Hc. injection Hc as <-. reflexivity.
Defined.

(** The CIFAR network on a batch of 32 x 32 images. *)
Example UNet_call_cifar_shape :
  (net ← UNet_init cfg_cifar; Shape.UNet_call net [256; 32; 32; 3] [256; 256])
  = Some [256; 32; 32; 3].
Proof. vm_compute. reflexivity. Qed.

(* ===================================================================== *)
(** ** The residual block: modulation, then normalisation                 *)
(* ===================================================================== *)

Section RealFacts.
Import Real.
Local Open Scope R_scope.

Lemma silu_zero : silu 0 = 0.
Proof. unfold silu, Rdiv. ring. Qed.

Lemma silu_pos (v : R) : 0 < v -> 0 < silu v.
Proof.
  intros Hv. unfold silu. apply Rdiv_lt_0_compat; [exact Hv|].
  pose proof (exp_pos (- v)). lra.
Qed.

Lemma linear_row_identity_2 (u v : R) :
  linear_row [[1; 0]; [0; 1]] [zeros 2] 2 [u; v] = [u; v].
Proof. unfold linear_row. change (Z.to_nat 2) with 2%nat. cbn. repeat (f_equal; try ring). Qed.

Lemma layer_norm_row_const_2 (u : R) : layer_norm_row [u; u] = [0; 0].
Proof.
  unfold layer_norm_row. cbn [length fmap list_fmap sum fold_right INR].
  assert (u - (u + (u + 0)) / (1 + 1) = 0) as -> by lra.
  unfold Rdiv. repeat (f_equal; try ring).
Qed.

Lemma spread_pos : 0 < spread.
Proof.
  unfold spread. apply Rdiv_lt_0_compat; [lra|].
  apply sqrt_lt_R0. unfold epsilon. lra.
Qed.

Lemma layer_norm_row_01 : layer_norm_row [0; 1] = [- spread; spread].
Proof.
  unfold layer_norm_row, spread. cbn [length fmap list_fmap sum fold_right INR].
  assert ((0 + (1 + 0)) / (1 + 1) = / 2) as -> by lra.
  assert (((0 - / 2) * (0 - / 2) + ((1 - / 2) * (1 - / 2) + 0)) / (1 + 1) = / 4) as -> by lra.
  replace (1 - / 2) with (/ 2) by lra. replace (0 - / 2) with (- / 2) by lra.
  unfold Rdiv. repeat (f_equal; try ring).
Qed.

Lemma ResBlock_2_modulation (r : nn.ResBlock tensor) (n : nat) (t : R) :
  ResBlock_2 = Some (r, n) ->
  Modulation_call pointwise_conv (nn.res_modulation r) [[t]]
  = ([[0; 0]], [[1; 0]], [[1; 1]]) /\
  nn.block r = [nn.LayerNorm;
                nn.Conv 2 2 [1%Z; 1%Z] [1%Z; 1%Z] [(0%Z, 0%Z); (0%Z, 0%Z)]
                        [[1; 0]; [0; 1]] [zeros 2];
                nn.SiLU; nn.Identity;
                nn.Conv 2 2 [1%Z; 1%Z] [1%Z; 1%Z] [(0%Z, 0%Z); (0%Z, 0%Z)]
                        [[1; 0]; [0; 1]] [zeros 2]].
Proof.
  intros H. unfold ResBlock_2 in H.
  cbv [nn.ResBlock_init nn.Modulation_init nn.new_Linear nn.new_Conv
       nn.scale_weight mbind option_bind lookup list_lookup length Nat.sub
       insert list_insert fmap list_fmap] in H.
  injection H as <- <-. split; [|reflexivity].
  unfold Modulation_call, nn.Modulation_call, nn.Sequential_call.
  cbn [nn.res_modulation nn.mlp fold_left layer_call fmap list_fmap].
  unfold linear_row, init_bias_2, init_weight_2.
  change (Z.to_nat (3 * 2)) with 6%nat. change (Z.to_nat 1) with 1%nat.
  cbn [Nat.ltb Nat.leb Nat.eqb replicate zeros vecmat hd vadd vscale zip_with
       fmap list_fmap].
  unfold array_split3, split3_row.
  cbn [fmap list_fmap length Nat.div Nat.modulo Nat.divmod Nat.ltb Nat.leb
       Nat.add take drop fst snd Nat.sub].
  repeat (f_equal; try ring).
Qed.

Lemma add_one_row (u v : R) : add_one [[u; v]] = [[u + 1; v + 1]].
Proof. reflexivity. Qed.

Lemma mul_row (a b u v : R) : mul [[a; b]] [[u; v]] = [[a * u; b * v]].
Proof. reflexivity. Qed.

Lemma add_row (a b u v : R) : add [[a; b]] [[u; v]] = [[a + u; b + v]].
Proof. reflexivity. Qed.

Lemma ResBlock_2_code (r : nn.ResBlock tensor) (n : nat) (t : R) :
  ResBlock_2 = Some (r, n) ->
  ResBlock_call pointwise_conv r [[0; 1]] [[t]] = [[0; 1]].
Proof.
  intros H. destruct (ResBlock_2_modulation r n t H) as [Hmod Hblock].
  unfold Modulation_call in Hmod.
  unfold ResBlock_call, nn.ResBlock_call. rewrite Hmod, Hblock.
  unfold nn.Sequential_call. cbn [fold_left layer_call pointwise_conv].
  rewrite add_one_row, mul_row, add_row.
  cbn [fmap list_fmap].
  replace ((0 + 1) * 0 + 1) with 1 by ring.
  replace ((0 + 1) * 1 + 0) with 1 by ring.
  rewrite layer_norm_row_const_2, !linear_row_identity_2.
  cbn [fmap list_fmap]. rewrite silu_zero, linear_row_identity_2.
  rewrite mul_row, add_row. repeat (f_equal; try ring).
Qed.

Lemma ResBlock_2_normalize_first (r : nn.ResBlock tensor) (n : nat) (t : R) :
  ResBlock_2 = Some (r, n) ->
  nn.ResBlock_normalize_first add mul add_one (layer_call pointwise_conv) array_split3
    r [[0; 1]] [[t]]
  = Some [[0 + 1 * silu ((0 + 1) * - spread + 1); 1 + 1 * silu ((0 + 1) * spread + 0)]].
Proof.
  intros H. destruct (ResBlock_2_modulation r n t H) as [Hmod Hblock].
  unfold Modulation_call in Hmod.
  unfold nn.ResBlock_normalize_first. rewrite Hmod, Hblock.
  cbn [layer_call pointwise_conv fmap list_fmap].
  rewrite layer_norm_row_01.
  rewrite add_one_row, mul_row, add_row.
  cbn [fmap list_fmap]. rewrite !linear_row_identity_2.
  cbn [fmap list_fmap]. rewrite !linear_row_identity_2.
  rewrite mul_row, add_row. reflexivity.
Qed.
(** C2, as stated, fails: on two channels holding 0 and 1, with the
    modulation [a = (0, 0)], [b = (1, 0)], [c = (1, 1)] and identity
    convolutions, the block returns its input (the modulated input
    [(1, 1)] is constant over the channels, so its normalisation is zero),
    whereas normalising first and modulating afterwards moves the second
    channel above 1. *)
Lemma ResBlock_normalize_first_differs :
  exists r n,
    ResBlock_2 = Some (r, n) /\
    nn.ResBlock_normalize_first add mul add_one (layer_call pointwise_conv) array_split3
      r [[0; 1]] [[0]]
    <> Some (ResBlock_call pointwise_conv r [[0; 1]] [[0]]).
Proof.
  destruct ResBlock_2 as [[r n]|] eqn:H; [|discriminate].
  exists r, n. split; [reflexivity|].
  rewrite (ResBlock_2_normalize_first r n 0 H), (ResBlock_2_code r n 0 H).
  intros [= _ Heq].
  pose proof (silu_pos ((0 + 1) * spread + 0)) as Hpos.
  pose proof spread_pos. lra.
Qed.
End RealFacts.

Section ResBlockOrder.
Context {W T : Type}.
Variable init_weight : Z -> Z -> nat -> W.
Variable init_bias : Z -> nat -> W.
Variable scale : Q -> W -> W.
Variable add mul : T -> T -> T.
Variable add_one : T -> T.
Variable layer_call : nn.layer W -> T -> T.
Variable array_split3 : T -> T * T * T.

Lemma ResBlock_init_block (channels emb : Z) (dropout : option Q)
      (ks : list Z) (pad : list (Z * Z)) (rng : nat) (r : nn.ResBlock W) (rng' : nat) :
  nn.ResBlock_init init_weight init_bias scale channels emb dropout ks pad rng
  = Some (r, rng') ->
  exists conv1 conv2,
    nn.is_conv conv1 = true /\ nn.is_conv conv2 = true /\
    nn.block r = [nn.LayerNorm; conv1; nn.SiLU; nn.dropout_layer dropout; conv2].
Proof.
  unfold nn.ResBlock_init. intros H.
  destruct (nn.Modulation_init _ _ _ _ _ _) as [[m rng1]|]; [|discriminate].
  simpl in H. injection H as <- _.
  eexists _, _. split; [|split]. 3: reflexivity. all: reflexivity.
Qed.
End ResBlockOrder.

(** C2, amended: for every input [x] and embedding [t], a constructed
    residual block first applies the per-channel affine modulation
    [(a + 1) * x + b] to its input, then normalises the result, passes it
    through the two convolutions with the nonlinearity and the optional
    dropout between them, scales by the third modulation output [c] and adds
    the input back: it returns [x + c * block((a + 1) * x + b)], the
    normalisation being the first layer of [block]. *)
Theorem ResBlock_call_modulates_then_normalizes {W T : Type}
    (init_weight : Z -> Z -> nat -> W) (init_bias : Z -> nat -> W) (scale : Q -> W -> W)
    (add mul : T -> T -> T) (add_one : T -> T)
    (layer_call : nn.layer W -> T -> T) (array_split3 : T -> T * T * T)
    (channels emb : Z) (dropout : option Q) (ks : list Z) (pad : list (Z * Z))
    (rng : nat) (r : nn.ResBlock W) (rng' : nat) (x t : T) :
  nn.ResBlock_init init_weight init_bias scale channels emb dropout ks pad rng
  = Some (r, rng') ->
  exists conv1 conv2 a b c,
    nn.is_conv conv1 = true /\ nn.is_conv conv2 = true /\
    nn.block r = [nn.LayerNorm; conv1; nn.SiLU; nn.dropout_layer dropout; conv2] /\
    nn.Modulation_call layer_call array_split3 (nn.res_modulation r) t = (a, b, c) /\
    nn.ResBlock_call add mul add_one layer_call array_split3 r x t
    = add x (mul c
        (layer_call conv2
           (layer_call (nn.dropout_layer dropout)
              (layer_call nn.SiLU
                 (layer_call conv1
                    (layer_call nn.LayerNorm (add (mul (add_one a) x) b))))))) /\
    nn.ResBlock_modulate_first add mul add_one layer_call array_split3 r x t
    = Some (nn.ResBlock_call add mul add_one layer_call array_split3 r x t).
Proof.
  intros Hinit.
  destruct (ResBlock_init_block _ _ _ _ _ _ _ _ _ _ _ Hinit)
    as (conv1 & conv2 & Hc1 & Hc2 & Hblock).
  destruct (nn.Modulation_call layer_call array_split3 (nn.res_modulation r) t)
    as [[a b] c] eqn:Hmod.
  exists conv1, conv2, a, b, c.
  unfold nn.ResBlock_call, nn.ResBlock_modulate_first, nn.Sequential_call.
  rewrite Hmod, Hblock. cbn [fold_left]. repeat split; assumption.
Qed.

Lemma ResBlock_call_modulates_then_normalizes_witness :
  exists r rng',
    nn.ResBlock_init Shape.unit_weight Shape.unit_bias Shape.unit_scale
      8 4 None [3; 3] [(1, 1); (1, 1)] 0 = Some (r, rng') /\
    exists conv1 conv2 a b c,
      nn.is_conv conv1 = true /\ nn.is_conv conv2 = true /\
      nn.block r = [nn.LayerNorm; conv1; nn.SiLU; nn.dropout_layer None; conv2] /\
      nn.Modulation_call Shape.layer_call Shape.array_split3 (nn.res_modulation r)
        (Some [4]) = (a, b, c) /\
      nn.ResBlock_call Shape.add Shape.add Shape.add_one Shape.layer_call
        Shape.array_split3 r (Some [32; 32; 8]) (Some [4])
      = Shape.add (Some [32; 32; 8]) (Shape.add c
          (Shape.layer_call conv2
             (Shape.layer_call (nn.dropout_layer None)
                (Shape.layer_call nn.SiLU
                   (Shape.layer_call conv1
                      (Shape.layer_call nn.LayerNorm
                         (Shape.add (Shape.add (Shape.add_one a) (Some [32; 32; 8])) b))))))) /\
      nn.ResBlock_modulate_first Shape.add Shape.add Shape.add_one Shape.layer_call
        Shape.array_split3 r (Some [32; 32; 8]) (Some [4])
      = Some (nn.ResBlock_call Shape.add Shape.add Shape.add_one Shape.layer_call
                Shape.array_split3 r (Some [32; 32; 8]) (Some [4])).
Proof.
  eexists _, _. split; [reflexivity|].
  exact (ResBlock_call_modulates_then_normalizes
           Shape.unit_weight Shape.unit_bias Shape.unit_scale
           Shape.add Shape.add Shape.add_one Shape.layer_call Shape.array_split3
           8 4 None [3; 3] [(1, 1); (1, 1)] 0 _ _ (Some [32; 32; 8]) (Some [4]) eq_refl).
Defined.

(* ===================================================================== *)
(** ** The modulation at initialisation                                    *)
(* ===================================================================== *)

Section RealLinear.
Import Real.
Local Open Scope R_scope.

Lemma vscale_zeros (s : R) (n : nat) : vscale s (zeros n) = zeros n.
Proof.
  unfold vscale, zeros. induction n as [|n IH]; [reflexivity|].
  cbn [replicate fmap list_fmap]. f_equal; [ring|exact IH].
Qed.

Lemma vscale_vadd (s ri : R) (u acc : vec) :
  vadd (vscale ri (vscale s u)) (vscale s acc) = vscale s (vadd (vscale ri u) acc).
Proof.
  unfold vadd, vscale. revert acc.
  induction u as [|x u IH]; intros [|y acc]; try reflexivity.
  cbn [fmap list_fmap zip_with]. f_equal; [ring|apply IH].
Qed.

(** The projection is linear in its weight. *)
Lemma vecmat_scale (h : vec) (s : Q) (W : tensor) (o : nat) :
  vecmat h (scale s W) o = vscale (Q2R s) (vecmat h W o).
Proof.
  revert W. induction h as [|x h IH]; intros W.
  - simpl. destruct (scale s W); rewrite vscale_zeros; reflexivity.
  - destruct W as [|Wi W]; simpl; [rewrite vscale_zeros; reflexivity|].
    fold (scale s W). rewrite IH. apply vscale_vadd.
Qed.

Lemma Q2R_hundredth : Q2R (1 # 100) = / 100.
Proof. unfold Q2R. simpl. lra. Qed.

Lemma bounded_affine (s beta M : R) (u bias : vec) :
  0 <= s ->
  bounded M u -> bounded beta bias ->
  bounded (beta + s * M) (vadd (vscale s u) bias).
Proof.
  intros Hs Hu. unfold bounded, vadd, vscale. revert bias.
  induction Hu as [|x u Hx Hu IH]; intros bias Hb; [constructor|].
  destruct Hb as [|y bias Hy Hb]; [constructor|].
  cbn [fmap list_fmap zip_with]. constructor; [|apply IH; exact Hb].
  eapply Rle_trans; [apply Rabs_triang|].
  rewrite Rabs_mult, (Rabs_pos_eq s) by exact Hs.
  assert (s * Rabs x <= s * M) by (apply Rmult_le_compat_l; assumption).
  lra.
Qed.

Lemma bounded_split3 (bound : R) (r : vec) :
  bounded bound r ->
  bounded bound (fst (fst (split3_row r))) /\
  bounded bound (snd (fst (split3_row r))) /\
  bounded bound (snd (split3_row r)).
Proof.
  intros H. unfold split3_row, bounded in *. cbn [fst snd].
  repeat split; repeat (apply Forall_take || apply Forall_drop); exact H.
Qed.
End RealLinear.

Section RealBroadcast.
Import Real.
Local Open Scope R_scope.

Lemma bzip_single_l (f : R -> R -> R) (cv : vec) (y : tensor) :
  bzip f [cv] y = zip_with f cv <$> y.
Proof.
  unfold bzip. destruct y as [|r1 [|r2 y]]; try reflexivity.
  cbn [bcast length Nat.max].
  rewrite zip_with_replicate_l by reflexivity. reflexivity.
Qed.

Lemma bzip_same_length (f : R -> R -> R) (x y : tensor) :
  length x = length y -> bzip f x y = zip_with (zip_with f) x y.
Proof.
  intros Hlen. unfold bzip.
  destruct x as [|x1 [|x2 x]], y as [|y1 [|y2 y]]; try discriminate; reflexivity.
Qed.

Lemma nth_zip_with (f : R -> R -> R) (u v : vec) (k : nat) :
  (k < length u)%nat -> (k < length v)%nat ->
  nth k (zip_with f u v) 0 = f (nth k u 0) (nth k v 0).
Proof.
  intros Hu Hv.
  destruct (lookup_lt_is_Some_2 u k Hu) as [a Ha].
  destruct (lookup_lt_is_Some_2 v k Hv) as [b Hb].
  rewrite (nth_lookup_Some _ _ _ _ Ha), (nth_lookup_Some _ _ _ _ Hb).
  apply nth_lookup_Some. rewrite lookup_zip_with, Ha, Hb. reflexivity.
Qed.

Lemma has_shape_row (P C : nat) (x : tensor) (p : nat) :
  has_shape P C x -> (p < P)%nat ->
  exists r, x !! p = Some r /\ length r = C /\ nth p x [] = r.
Proof.
  intros [Hlen Hrows] Hp.
  destruct (lookup_lt_is_Some_2 x p ltac:(lia)) as [r Hr].
  exists r. repeat split; [exact Hr| |apply nth_lookup_Some; exact Hr].
  eapply Forall_lookup_1 in Hrows; [exact Hrows|exact Hr].
Qed.

(** Entries of [x + c * y] for a per-channel [c]. *)
Lemma residual_entry (x y : tensor) (cv : vec) (P C p k : nat) :
  has_shape P C x -> has_shape P C y -> length cv = C ->
  (p < P)%nat -> (k < C)%nat ->
  entry (add x (mul [cv] y)) p k = entry x p k + nth k cv 0 * entry y p k.
Proof.
  intros Hx Hy Hc Hp Hk. unfold add, mul, entry.
  rewrite bzip_single_l.
  rewrite bzip_same_length
    by (rewrite length_fmap; destruct Hx as [Hx1 _], Hy as [Hy1 _]; lia).
  destruct (has_shape_row P C x p Hx Hp) as (rx & Hrx & Hlx & Hnx).
  destruct (has_shape_row P C y p Hy Hp) as (ry & Hry & Hly & Hny).
  assert (nth p (zip_with (zip_with Rplus) x (zip_with Rmult cv <$> y)) []
          = zip_with Rplus rx (zip_with Rmult cv ry)) as Hrow.
  { apply nth_lookup_Some.
    rewrite lookup_zip_with, Hrx, list_lookup_fmap, Hry. reflexivity. }
  rewrite Hrow, Hnx, Hny.
  rewrite nth_zip_with; [|lia|rewrite length_zip_with; lia].
  rewrite nth_zip_with by lia. reflexivity.
Qed.
End RealBroadcast.

Section NearIdentity.
Import Real.
Local Open Scope R_scope.
Variable external : nn.layer tensor -> tensor -> tensor.
Variable init_weight : Z -> Z -> nat -> tensor.
Variable init_bias : Z -> nat -> tensor.

Lemma Modulation_init_layers (channels emb : Z) (rng : nat) :
  exists m,
    nn.Modulation_init init_weight init_bias scale channels emb rng = Some (m, S (S rng)) /\
    nn.mlp m = [nn.Linear emb emb (init_weight emb emb rng) (init_bias emb rng);
                nn.SiLU;
                nn.Linear emb (3 * channels)
                  (scale (1 # 100) (init_weight emb (3 * channels) (S rng)))
                  (init_bias (3 * channels) (S rng));
                nn.Rearrange_11C].
Proof. eexists. split; reflexivity. Qed.

Lemma Modulation_call_scaled (m : nn.Modulation tensor) (channels emb : Z) (rng : nat)
      (tv : vec) :
  nn.mlp m = [nn.Linear emb emb (init_weight emb emb rng) (init_bias emb rng);
              nn.SiLU;
              nn.Linear emb (3 * channels)
                (scale (1 # 100) (init_weight emb (3 * channels) (S rng)))
                (init_bias (3 * channels) (S rng));
              nn.Rearrange_11C] ->
  nn.Sequential_call (layer_call external) (nn.mlp m) [tv]
  = [vadd (vscale (/ 100)
             (vecmat (silu <$> linear_row (init_weight emb emb rng) (init_bias emb rng) emb tv)
                     (init_weight emb (3 * channels) (S rng))
                     (Z.to_nat (3 * channels))))
          (hd [] (init_bias (3 * channels) (S rng)))].
Proof.
  intros ->. unfold nn.Sequential_call.
  cbn [fold_left layer_call fmap list_fmap].
  unfold linear_row at 1. rewrite vecmat_scale, Q2R_hundredth. reflexivity.
Qed.

Lemma residual_bound (x y : tensor) (cv : vec) (bound : R) (P C p k : nat) :
  has_shape P C x -> has_shape P C y -> length cv = C ->
  bounded bound cv ->
  (p < P)%nat -> (k < C)%nat ->
  Rabs (entry (add x (mul [cv] y)) p k - entry x p k) <= bound * Rabs (entry y p k).
Proof.
  intros Hx Hy Hc Hb Hp Hk.
  rewrite (residual_entry x y cv P C p k) by assumption.
  replace (entry x p k + nth k cv 0 * entry y p k - entry x p k)
    with (nth k cv 0 * entry y p k) by ring.
  rewrite Rabs_mult. apply Rmult_le_compat_r; [apply Rabs_pos|].
  destruct (lookup_lt_is_Some_2 cv k ltac:(lia)) as [c Hck].
  rewrite (nth_lookup_Some _ _ _ _ Hck).
  unfold bounded in Hb. eapply Forall_lookup_1 in Hb; [exact Hb|exact Hck].
Qed.
End NearIdentity.

Section RealBounds.
Import Real.
Local Open Scope R_scope.

Lemma split3_row_app (r : vec) :
  fst (fst (split3_row r)) ++ snd (fst (split3_row r)) ++ snd (split3_row r) = r.
Proof.
  unfold split3_row. cbn [fst snd].
  set (k0 := (length r / 3 + (if (0 <? length r mod 3)%nat then 1 else 0))%nat).
  set (k1 := (length r / 3 + (if (1 <? length r mod 3)%nat then 1 else 0))%nat).
  rewrite <- (drop_drop r k1 k0), (take_drop k1 (drop k0 r)). apply take_drop.
Qed.

Lemma silu_half (v : R) : 0 < v -> v / 2 < silu v < v.
Proof.
  intros Hv. unfold silu.
  pose proof (exp_pos (- v)) as Hpos.
  assert (exp (- v) < 1) as Hlt.
  { rewrite <- exp_0. apply exp_increasing. lra. }
  assert (v / (1 + exp (- v)) * (1 + exp (- v)) = v) as Hq by (field; lra).
  split; apply (Rmult_lt_reg_r (1 + exp (- v))); try lra; rewrite Hq; nra.
Qed.

Lemma spread_large : 8 / 9 < spread.
Proof.
  unfold spread, epsilon.
  assert (0 < sqrt (/ 4 + / 100000)) as Hpos by (apply sqrt_lt_R0; lra).
  assert (sqrt (/ 4 + / 100000) < 9 / 16) as Hlt.
  { rewrite <- (sqrt_square (9 / 16)) by lra. apply sqrt_lt_1_alt. lra. }
  assert (/ 2 / sqrt (/ 4 + / 100000) * sqrt (/ 4 + / 100000) = / 2) as Hq
    by (field; lra).
  apply (Rmult_lt_reg_r (sqrt (/ 4 + / 100000))); [exact Hpos|].
  rewrite Hq. lra.
Qed.

Lemma linear_row_half_2 (u v : R) :
  linear_row [[/ 2; 0]; [0; / 2]] [zeros 2] 2 [u; v] = [u / 2; v / 2].
Proof.
  unfold linear_row. change (Z.to_nat 2) with 2%nat. cbn.
  repeat (f_equal; try lra).
Qed.

Lemma ResBlock_3_modulation (r : nn.ResBlock tensor) (n : nat) (t : R) :
  ResBlock_3 = Some (r, n) ->
  Modulation_call pointwise_conv (nn.res_modulation r) [[t]]
  = ([[0; 0]], [[0; 0]], [[9 / 10; 9 / 10]]) /\
  nn.block r = [nn.LayerNorm;
                nn.Conv 2 2 [1%Z; 1%Z] [1%Z; 1%Z] [(0%Z, 0%Z); (0%Z, 0%Z)]
                        [[/ 2; 0]; [0; / 2]] [zeros 2];
                nn.SiLU; nn.Identity;
                nn.Conv 2 2 [1%Z; 1%Z] [1%Z; 1%Z] [(0%Z, 0%Z); (0%Z, 0%Z)]
                        [[/ 2; 0]; [0; / 2]] [zeros 2]].
Proof.
  intros H. unfold ResBlock_3 in H.
  cbv [nn.ResBlock_init nn.Modulation_init nn.new_Linear nn.new_Conv
       nn.scale_weight mbind option_bind lookup list_lookup length Nat.sub
       insert list_insert fmap list_fmap] in H.
  injection H as <- <-. split; [|reflexivity].
  unfold Modulation_call, nn.Modulation_call, nn.Sequential_call.
  cbn [nn.res_modulation nn.mlp fold_left layer_call fmap list_fmap].
  unfold linear_row, init_bias_3, init_weight_3.
  change (Z.to_nat (3 * 2)) with 6%nat. change (Z.to_nat 1) with 1%nat.
  cbn [Nat.ltb Nat.leb Nat.eqb replicate zeros vecmat hd vadd vscale zip_with
       fmap list_fmap].
  unfold array_split3, split3_row.
  cbn [fmap list_fmap length Nat.div Nat.modulo Nat.divmod Nat.ltb Nat.leb
       Nat.add take drop fst snd Nat.sub].
  repeat (f_equal; try lra).
Qed.

Lemma ResBlock_3_code (r : nn.ResBlock tensor) (n : nat) (t : R) :
  ResBlock_3 = Some (r, n) ->
  ResBlock_call pointwise_conv r [[0; 1]] [[t]]
  = [[0 + 9 / 10 * (silu (- spread / 2) / 2); 1 + 9 / 10 * (silu (spread / 2) / 2)]].
Proof.
  intros H. destruct (ResBlock_3_modulation r n t H) as [Hmod Hblock].
  unfold Modulation_call in Hmod.
  unfold ResBlock_call, nn.ResBlock_call. rewrite Hmod, Hblock.
  unfold nn.Sequential_call. cbn [fold_left layer_call pointwise_conv].
  rewrite add_one_row, mul_row, add_row.
  cbn [fmap list_fmap].
  replace ((0 + 1) * 0 + 0) with 0 by ring.
  replace ((0 + 1) * 1 + 0) with 1 by ring.
  rewrite layer_norm_row_01, !linear_row_half_2.
  cbn [fmap list_fmap]. rewrite linear_row_half_2.
  rewrite mul_row, add_row. reflexivity.
Qed.
End RealBounds.

(** C6, as the code has it: the output projection of a modulation, the
    second linear layer of its MLP ([layers[-2]]), has its initial weight,
    and only its weight, scaled by [1e-2] at construction; its bias is
    left as it was initialised.  The outputs [a], [b], [c] are therefore
    the bias plus a hundredth of the unscaled projection [h @ W2]: when
    the entries of the bias are at most [beta] and those of [h @ W2] at
    most [M] in absolute value, the outputs are at most [beta + M / 100]
    (at most [M / 100] for a zero bias), and a residual or attention block
    with this modulation returns [x + c * y] with every entry within
    [(beta + M / 100) * |y|] of its input: the block is the identity up
    to that factor. *)
Theorem Modulation_init_near_identity
    (external : nn.layer Real.tensor -> Real.tensor -> Real.tensor)
    (init_weight : Z -> Z -> nat -> Real.tensor) (init_bias : Z -> nat -> Real.tensor)
    (channels emb : Z) (rng : nat) (tv : Real.vec) (beta M : R) :
  let W1 := init_weight emb emb rng in
  let b1 := init_bias emb rng in
  let W2 := init_weight emb (3 * channels) (S rng) in
  let b2 := init_bias (3 * channels) (S rng) in
  let h := Real.silu <$> Real.linear_row W1 b1 emb tv in
  Real.bounded beta (hd [] b2) ->
  Real.bounded M (Real.vecmat h W2 (Z.to_nat (3 * channels))) ->
  exists m av bv cv,
    nn.Modulation_init init_weight init_bias Real.scale channels emb rng
      = Some (m, S (S rng)) /\
    nn.mlp m = [nn.Linear emb emb W1 b1; nn.SiLU;
                nn.Linear emb (3 * channels) (Real.scale (1 # 100) W2) b2;
                nn.Rearrange_11C] /\
    nn.mlp m !! (length (nn.mlp m) - 2)%nat
      = Some (nn.Linear emb (3 * channels) (Real.scale (1 # 100) W2) b2) /\
    Real.Modulation_call external m [tv] = ([av], [bv], [cv]) /\
    av ++ bv ++ cv
    = Real.vadd (Real.vscale (/ 100) (Real.vecmat h W2 (Z.to_nat (3 * channels))))
                (hd [] b2) /\
    Real.bounded (beta + M / 100) av /\
    Real.bounded (beta + M / 100) bv /\
    Real.bounded (beta + M / 100) cv /\
    (forall (r : nn.ResBlock Real.tensor) (x : Real.tensor) (P C p k : nat),
        nn.res_modulation r = m ->
        let y := nn.Sequential_call (Real.layer_call external) (nn.block r)
                   (Real.add (Real.mul (Real.add_one [av]) x) [bv]) in
        Real.has_shape P C x -> Real.has_shape P C y -> length cv = C ->
        (p < P)%nat -> (k < C)%nat ->
        (Rabs (Real.entry (Real.ResBlock_call external r x [tv]) p k - Real.entry x p k)
         <= (beta + M / 100) * Rabs (Real.entry y p k))%R) /\
    (forall (r : nn.AttBlock Real.tensor) (x : Real.tensor) (P C p k : nat),
        nn.att_modulation r = m ->
        let y := Real.layer_call external (nn.attn r)
                   (Real.layer_call external (nn.norm r)
                      (Real.add (Real.mul (Real.add_one [av]) x) [bv])) in
        Real.has_shape P C x -> Real.has_shape P C y -> length cv = C ->
        (p < P)%nat -> (k < C)%nat ->
        (Rabs (Real.entry (Real.AttBlock_call external r x [tv]) p k - Real.entry x p k)
         <= (beta + M / 100) * Rabs (Real.entry y p k))%R).
Proof.
  intros W1 b1 W2 b2 h Hbias Hproj.
  destruct (Modulation_init_layers init_weight init_bias channels emb rng)
    as (m & Hinit & Hmlp).
  pose proof (Modulation_call_scaled external init_weight init_bias m channels emb rng tv Hmlp)
    as Hout.
  fold W1 b1 W2 b2 in Hmlp, Hout. fold h in Hout.
  set (row := Real.vadd (Real.vscale (/ 100) (Real.vecmat h W2 (Z.to_nat (3 * channels))))
                        (hd [] b2)) in *.
  assert (Real.bounded (beta + M / 100) row) as Hrow.
  { replace (beta + M / 100)%R with (beta + / 100 * M)%R by lra.
    apply bounded_affine; [lra|assumption|assumption]. }
  destruct (bounded_split3 _ _ Hrow) as (Ha & Hb & Hc).
  assert (Real.Modulation_call external m [tv]
          = ([fst (fst (Real.split3_row row))], [snd (fst (Real.split3_row row))],
             [snd (Real.split3_row row)])) as Hmod.
  { unfold Real.Modulation_call, nn.Modulation_call. rewrite Hout. reflexivity. }
  eexists m, _, _, _.
  split; [exact Hinit|]. split; [exact Hmlp|].
  split; [rewrite Hmlp; reflexivity|].
  split; [exact Hmod|].
  split; [apply split3_row_app|].
  split; [exact Ha|]. split; [exact Hb|]. split; [exact Hc|].
  split.
  - intros r x P C p k Hr y Hx Hy Hlen Hp Hk.
    assert (Real.ResBlock_call external r x [tv]
            = Real.add x (Real.mul [snd (Real.split3_row row)] y)) as ->.
    { unfold Real.ResBlock_call, nn.ResBlock_call.
      unfold Real.Modulation_call in Hmod. rewrite Hr, Hmod. reflexivity. }
    apply (residual_bound x y _ _ P C p k); assumption.
  - intros r x P C p k Hr y Hx Hy Hlen Hp Hk.
    assert (Real.AttBlock_call external r x [tv]
            = Real.add x (Real.mul [snd (Real.split3_row row)] y)) as ->.
    { unfold Real.AttBlock_call, nn.AttBlock_call.
      unfold Real.Modulation_call in Hmod. rewrite Hr, Hmod. reflexivity. }
    apply (residual_bound x y _ _ P C p k); assumption.
Qed.

(** The unscaled projection of the modulation without bias, on the
    embedding [(1)]. *)
Lemma projection_ones :
  Real.vecmat (Real.silu <$> Real.linear_row (init_weight_ones 1 1 0) (init_bias_zero 1 0) 1 [1%R])
              (init_weight_ones 1 (3 * 1) 1) (Z.to_nat (3 * 1))
  = [Real.silu 1; Real.silu 1; Real.silu 1].
Proof.
  unfold init_weight_ones, init_bias_zero, Real.linear_row.
  change (Z.to_nat (3 * 1)) with 3%nat. change (Z.to_nat 1) with 1%nat.
  cbn [replicate Real.zeros Real.vecmat hd Real.vadd Real.vscale zip_with
       fmap list_fmap].
  replace (1 * 1 + 0 + 0)%R with 1%R by ring.
  repeat (f_equal; try ring).
Defined.

Lemma Modulation_init_near_identity_witness :
  Real.bounded 0 (hd [] (init_bias_zero (3 * 1) 1)) /\
  Real.bounded 1
    (Real.vecmat (Real.silu <$> Real.linear_row (init_weight_ones 1 1 0) (init_bias_zero 1 0) 1 [1%R])
                 (init_weight_ones 1 (3 * 1) 1) (Z.to_nat (3 * 1))) /\
  Real.vadd (Real.vscale (/ 100)
               (Real.vecmat (Real.silu <$> Real.linear_row (init_weight_ones 1 1 0) (init_bias_zero 1 0) 1 [1%R])
                            (init_weight_ones 1 (3 * 1) 1) (Z.to_nat (3 * 1))))
            (hd [] (init_bias_zero (3 * 1) 1))
  = [(/ 100 * Real.silu 1 + 0)%R; (/ 100 * Real.silu 1 + 0)%R;
     (/ 100 * Real.silu 1 + 0)%R] /\
  exists m av bv cv,
    nn.Modulation_init init_weight_ones init_bias_zero Real.scale 1 1 0%nat
      = Some (m, S (S 0%nat)) /\
    nn.mlp m = [nn.Linear 1 1 (init_weight_ones 1 1 0) (init_bias_zero 1 0); nn.SiLU;
                nn.Linear 1 (3 * 1) (Real.scale (1 # 100) (init_weight_ones 1 (3 * 1) 1)) (init_bias_zero (3 * 1) 1);
                nn.Rearrange_11C] /\
    nn.mlp m !! (length (nn.mlp m) - 2)%nat
      = Some (nn.Linear 1 (3 * 1) (Real.scale (1 # 100) (init_weight_ones 1 (3 * 1) 1)) (init_bias_zero (3 * 1) 1)) /\
    Real.Modulation_call Real.pointwise_conv m [[1%R]] = ([av], [bv], [cv]) /\
    av ++ bv ++ cv
    = Real.vadd (Real.vscale (/ 100) (Real.vecmat (Real.silu <$> Real.linear_row (init_weight_ones 1 1 0) (init_bias_zero 1 0) 1 [1%R]) (init_weight_ones 1 (3 * 1) 1) (Z.to_nat (3 * 1))))
                (hd [] (init_bias_zero (3 * 1) 1)) /\
    Real.bounded (0 + 1 / 100) av /\
    Real.bounded (0 + 1 / 100) bv /\
    Real.bounded (0 + 1 / 100) cv /\
    (forall (r : nn.ResBlock Real.tensor) (x : Real.tensor) (P C p k : nat),
        nn.res_modulation r = m ->
        let y := nn.Sequential_call (Real.layer_call Real.pointwise_conv) (nn.block r)
                   (Real.add (Real.mul (Real.add_one [av]) x) [bv]) in
        Real.has_shape P C x -> Real.has_shape P C y -> length cv = C ->
        (p < P)%nat -> (k < C)%nat ->
        (Rabs (Real.entry (Real.ResBlock_call Real.pointwise_conv r x [[1%R]]) p k - Real.entry x p k)
         <= (0 + 1 / 100) * Rabs (Real.entry y p k))%R) /\
    (forall (r : nn.AttBlock Real.tensor) (x : Real.tensor) (P C p k : nat),
        nn.att_modulation r = m ->
        let y := Real.layer_call Real.pointwise_conv (nn.attn r)
                   (Real.layer_call Real.pointwise_conv (nn.norm r)
                      (Real.add (Real.mul (Real.add_one [av]) x) [bv])) in
        Real.has_shape P C x -> Real.has_shape P C y -> length cv = C ->
        (p < P)%nat -> (k < C)%nat ->
        (Rabs (Real.entry (Real.AttBlock_call Real.pointwise_conv r x [[1%R]]) p k - Real.entry x p k)
         <= (0 + 1 / 100) * Rabs (Real.entry y p k))%R).
Proof.
  assert (Real.bounded 0 (hd [] (init_bias_zero (3 * 1) 1))) as Hbias.
  { unfold Real.bounded, init_bias_zero. change (Z.to_nat (3 * 1)) with 3%nat.
    cbn [hd Real.zeros replicate].
    repeat (apply List.Forall_cons; [rewrite Rabs_R0; lra|]).
    apply List.Forall_nil. }
  assert (Real.bounded 1
            (Real.vecmat (Real.silu <$> Real.linear_row (init_weight_ones 1 1 0) (init_bias_zero 1 0) 1 [1%R])
                         (init_weight_ones 1 (3 * 1) 1) (Z.to_nat (3 * 1)))) as Hproj.
  { rewrite projection_ones. unfold Real.bounded.
    pose proof (silu_half 1 ltac:(lra)) as Hs.
    repeat (apply List.Forall_cons; [rewrite Rabs_pos_eq; lra|]).
    apply List.Forall_nil. }
  split; [exact Hbias|]. split; [exact Hproj|].
  split; [rewrite projection_ones; reflexivity|].
  exact (Modulation_init_near_identity Real.pointwise_conv init_weight_ones init_bias_zero
           1 1 0 [1%R] 0 1 Hbias Hproj).
Defined.

(** C6 as worded fails: the scaling leaves the bias of the output
    projection alone, so that the outputs are near zero only if that bias
    is.  With initial parameters all below 1 in absolute value, a zero
    weight and the bias [(0, 0, 0, 0, 9/10, 9/10)] for the projection, the
    output [c] is [(9/10, 9/10)], and the block moves the second of two
    channels holding 0 and 1 by more than a tenth. *)
Lemma Modulation_init_bias_not_scaled :
  exists r n,
    ResBlock_3 = Some (r, n) /\
    Real.Modulation_call Real.pointwise_conv (nn.res_modulation r) [[0%R]]
    = ([[0; 0]], [[0; 0]], [[9 / 10; 9 / 10]])%R /\
    (Real.entry (Real.ResBlock_call Real.pointwise_conv r [[0; 1]] [[0]]) 0 1
     - Real.entry [[0; 1]] 0 1 > 1 / 10)%R.
Proof.
  destruct ResBlock_3 as [[r n]|] eqn:H; [|discriminate].
  exists r, n. split; [reflexivity|].
  split; [exact (proj1 (ResBlock_3_modulation r n 0%R H))|].
  rewrite (ResBlock_3_code r n 0%R H). unfold Real.entry. cbn [nth].
  pose proof spread_large as Hs.
  pose proof (silu_half (spread / 2) ltac:(lra)) as Hh.
  lra.
Qed.

(* ===================================================================== *)
(** ** The calls of a training lap                                        *)
(* ===================================================================== *)

Section TrainSpecs.
Import Train.
Context {P V D St : Type}.
Variable ext : externals P V D St.

Local Abbreviation model := (model P V).
Local Abbreviation event := (event P V).
Local Abbreviation world := (world P V).

Lemma spec_weaken {A} (lap : nat) (c : M P V A) Q Q' :
  spec lap c Q -> (forall f0 r evs f1, Q f0 r evs f1 -> Q' f0 r evs f1) ->
  spec lap c Q'.
Proof.
  intros Hc HQ w. destruct (Hc w) as (evs & Htr & HQc). eauto.
Qed.

Lemma spec_ret {A} (lap : nat) (a : A) :
  spec lap (ret a : M P V A) (fun f0 r evs f1 => r = Done a /\ evs = [] /\ f1 = f0).
Proof. intros w. exists []. simpl. rewrite app_nil_r. auto. Qed.

Lemma spec_draw {A} (lap : nat) (e : event) (f : nat -> A) :
  spec lap (draw ext lap e f)
    (fun f0 r evs f1 =>
       f1 = f0 /\ ((r = Raised /\ evs = []) \/ (exists n, r = Done (f n) /\ evs = [e]))).
Proof.
  intros w. unfold draw. destruct (fails ext (clock w)); simpl.
  - exists []. rewrite app_nil_r. auto.
  - exists [e]. split; [reflexivity|]. split; [reflexivity|]. right. eauto.
Qed.

Lemma spec_bind {A B} (lap : nat) (c : M P V A) (k : A -> M P V B) Q1 Q2 Q :
  spec lap c Q1 ->
  (forall a, spec lap (k a) (Q2 a)) ->
  (forall f0 evs f1, Q1 f0 Raised evs f1 -> Q f0 Raised evs f1) ->
  (forall f0 a e1 f1 r e2 f2,
      Q1 f0 (Done a) e1 f1 -> Q2 a f1 r e2 f2 -> Q f0 r (e1 ++ e2) f2) ->
  spec lap (bind c k) Q.
Proof.
  intros Hc Hk Hraise Hdone w. unfold bind.
  destruct (Hc w) as (e1 & Htr1 & HQ1).
  destruct (c w) as [[a|] w1]; simpl in *.
  - destruct (Hk a w1) as (e2 & Htr2 & HQ2).
    exists (e1 ++ e2). split.
    + rewrite Htr2, Htr1, fmap_app, app_assoc. reflexivity.
    + eapply Hdone; eassumption.
  - exists e1. split; [exact Htr1|]. apply Hraise. exact HQ1.
Qed.

Lemma guarded_nil : guarded (@nil event).
Proof. intros i e Hi. rewrite lookup_nil in Hi. discriminate. Qed.

Lemma guarded_app (a b : list event) : guarded a -> guarded b -> guarded (a ++ b).
Proof.
  intros Ha Hb i e Hi Hu.
  destruct (decide (i < length a)%nat) as [Hlt|Hge].
  - rewrite lookup_app_l in Hi by exact Hlt.
    destruct (Ha i e Hi Hu) as (j & -> & Hj).
    exists j. split; [reflexivity|]. rewrite lookup_app_l by lia. exact Hj.
  - rewrite lookup_app_r in Hi by lia.
    destruct (Hb _ e Hi Hu) as (j & Hij & Hj).
    exists (length a + j)%nat. split; [lia|].
    rewrite lookup_app_r by lia.
    replace (length a + j - length a)%nat with j by lia. exact Hj.
Qed.

Lemma guarded_plain (evs : list event) :
  Forall (fun e => ~ uses_model e) evs -> guarded evs.
Proof.
  intros H i e Hi Hu. exfalso.
  eapply Forall_lookup_1 in H; [|exact Hi]. exact (H Hu).
Qed.

Lemma guarded_off_then (e : event) : guarded [TrainMode false; e].
Proof.
  intros i e' Hi Hu. destruct i as [|[|i]]; simpl in Hi.
  - injection Hi as <-. destruct Hu.
  - exists 0%nat. auto.
  - discriminate.
Qed.

Lemma epochs_logged_app (a b : list event) :
  epochs_logged (a ++ b) = (epochs_logged a + epochs_logged b)%nat.
Proof. unfold epochs_logged. rewrite List.filter_app, length_app. reflexivity. Qed.
End TrainSpecs.

Section TrainLoops.
Import Train.
Context {P V D St : Type}.
Variable ext : externals P V D St.
Variable lap : nat.
Variable static : bool.

Local Abbreviation event := (event P V).

Lemma loop_post_bind {A B} (c : M P V A) (k : A -> M P V B) (n1 n2 : nat) :
  spec lap c (loop_post static n1) ->
  (forall a, spec lap (k a) (loop_post static n2)) ->
  spec lap (bind c k) (loop_post static (n1 + n2)).
Proof.
  intros Hc Hk. eapply spec_bind; [exact Hc|exact Hk|..].
  - intros f0 evs f1 (-> & Hall & Hg & _). repeat split; try assumption.
    intros a [=].
  - intros f0 a e1 f1 r e2 f2 (-> & Hall1 & Hg1 & Hn1) (-> & Hall2 & Hg2 & Hn2).
    repeat split.
    + apply Forall_app; auto.
    + apply guarded_app; assumption.
    + intros b ->. rewrite epochs_logged_app, (Hn1 a eq_refl), (Hn2 b eq_refl).
      reflexivity.
Qed.

Lemma loop_post_ret {A} (a : A) : spec lap (ret a : M P V A) (loop_post static 0).
Proof.
  eapply spec_weaken; [apply spec_ret|].
  intros f0 r evs f1 (-> & -> & ->). repeat split; try constructor.
  apply guarded_nil.
Qed.

(** A call of the epochs that does not use a model. *)
Lemma loop_post_draw {A} (e : event) (f : nat -> A) :
  loop_event static e -> ~ uses_model e ->
  spec lap (draw ext lap e f) (loop_post static (if is_log e then 1 else 0)).
Proof.
  intros He Hu. eapply spec_weaken; [apply spec_draw|].
  intros f0 r evs f1 (-> & [[-> ->]|(n & -> & ->)]).
  - repeat split; [constructor|apply guarded_nil|intros a [=]].
  - repeat split.
    + constructor; [exact He|constructor].
    + apply guarded_plain. constructor; [exact Hu|constructor].
    + intros _ _. unfold epochs_logged. simpl. destruct (is_log e); reflexivity.
Qed.

Lemma spec_train_loop (data : D) (n : nat) (st : St) :
  spec lap (train_loop ext lap static data n st) (loop_post static 0).
Proof.
  revert st. induction n as [|n IH]; intros st; simpl.
  - apply loop_post_ret.
  - apply (loop_post_bind _ _ 0 0); [|exact IH].
    apply (loop_post_draw (SgdStep static)); [reflexivity|intros []].
Qed.

Lemma spec_validation_loop (n : nat) :
  spec lap (validation_loop ext lap static n) (loop_post static 0).
Proof.
  induction n as [|n IH]; simpl.
  - apply loop_post_ret.
  - apply (loop_post_bind _ _ 0 0); [|intros _; exact IH].
    apply (loop_post_draw (Validate static)); [reflexivity|intros []].
Qed.

Lemma spec_stack_mean (n : nat) :
  spec lap (stack_mean n : M P V unit) (loop_post static 0).
Proof.
  intros w. exists []. unfold stack_mean.
  destruct n; simpl; rewrite app_nil_r;
    repeat split; try constructor; try apply guarded_nil;
    try (intros a [=]).
Qed.

(** The periodic evaluation: [train(False)], then the sample, then the
    log. *)
Lemma spec_evaluation (m : Train.model P V) (st : St) :
  spec lap
    (bind (train_mode ext lap false m) (fun m =>
     bind (call ext lap (Sample m)) (fun _ =>
     bind (call ext lap Log) (fun _ => ret st))))
    (loop_post static 1).
Proof.
  intros w. unfold bind, train_mode, call, draw, ret, bind.
  destruct (fails ext (clock w)) eqn:H1; simpl.
  { exists []. rewrite app_nil_r. repeat split; [constructor|apply guarded_nil|intros a [=]]. }
  destruct (fails ext (S (clock w))) eqn:H2; simpl.
  { exists [TrainMode false]. repeat split.
    - repeat constructor.
    - apply guarded_plain. repeat constructor. intros [].
    - intros a [=]. }
  destruct (fails ext (S (S (clock w)))) eqn:H3; simpl.
  { exists [TrainMode false; Sample (mkModel (arrays m) (mu_x m) false)]. repeat split.
    - rewrite <- app_assoc. reflexivity.
    - repeat constructor.
    - apply guarded_off_then.
    - intros a [=]. }
  exists ([TrainMode false; Sample (mkModel (arrays m) (mu_x m) false)] ++ [Log]).
  repeat split.
  - rewrite <- !app_assoc. reflexivity.
  - repeat constructor.
  - apply guarded_app; [apply guarded_off_then|].
    apply guarded_plain. repeat constructor. intros [].
Qed.

Lemma spec_epoch_body (others : option V) (data : D) (epoch : nat) (st : St) :
  spec lap (epoch_body ext lap static others data epoch st) (loop_post static 1).
Proof.
  unfold epoch_body.
  apply (loop_post_bind _ _ 0 1); [apply spec_train_loop|]. intros st'.
  apply (loop_post_bind _ _ 0 1); [apply spec_stack_mean|]. intros _.
  apply (loop_post_bind _ _ 0 1); [apply spec_validation_loop|]. intros _.
  apply (loop_post_bind _ _ 0 1); [apply spec_stack_mean|]. intros _.
  destruct (decide ((epoch + 1) mod 16 = 0)%nat).
  - apply spec_evaluation.
  - apply (loop_post_bind _ _ 1 0); [|intros _; apply loop_post_ret].
    apply (loop_post_draw Log); [exact I|intros []].
Qed.

Lemma spec_epochs_loop (others : option V) (data : D) (epoch n : nat) (st : St) :
  spec lap (epochs_loop ext lap static others data epoch n st) (loop_post static n).
Proof.
  revert epoch st. induction n as [|n IH]; intros epoch st; simpl.
  - apply loop_post_ret.
  - apply (loop_post_bind _ _ 1 n); [apply spec_epoch_body|].
    intros st'. apply IH.
Qed.
End TrainLoops.

Section TrainLap.
Import Train.
Context {P V D St : Type}.
Variable ext : externals P V D St.
Variable lap : nat.

Local Abbreviation event := (event P V).
Local Abbreviation model := (model P V).

Lemma spec_train_mode (b : bool) (m : model) :
  spec lap (train_mode ext lap b m)
    (fun f0 r evs f1 =>
       f1 = f0 /\
       ((r = Raised /\ evs = []) \/
        (r = Done (mkModel (arrays m) (mu_x m) b) /\ evs = [TrainMode b]))).
Proof.
  intros w. unfold train_mode, bind, call, draw, ret.
  destruct (fails ext (clock w)); simpl.
  - exists []. rewrite app_nil_r. auto.
  - exists [TrainMode b]. auto.
Qed.

Lemma spec_load_module (k : nat) :
  spec lap (load_module ext lap k)
    (fun f0 r evs f1 =>
       f1 = f0 /\
       ((r = Raised /\ evs = []) \/
        (exists m, r = Done m /\ evs = [LoadModule k m] /\ f0 !! k = Some m))).
Proof.
  intros w. unfold load_module, draw.
  destruct (fs w !! k) as [m|] eqn:Hm; [destruct (fails ext (clock w))|]; simpl.
  - exists []. rewrite app_nil_r. auto.
  - exists [LoadModule k m]. split; [reflexivity|]. split; [reflexivity|].
    right. eauto.
  - exists []. rewrite app_nil_r. auto.
Qed.

(** The checkpoint: [train(False)], then the dump. *)
Lemma spec_checkpoint (m0 : model) :
  spec lap (bind (train_mode ext lap false m0) (fun m => dump_module ext lap m lap))
    (fun f0 r evs f1 =>
       match r with
       | Raised => f1 = f0 /\ (evs = [] \/ evs = [TrainMode false])
       | Done _ =>
           exists m, evs = [TrainMode false; DumpModule lap m] /\
                     f1 = <[lap := m]> f0 /\ training m = false
       end).
Proof.
  intros w. unfold bind, train_mode, call, draw, ret, bind, dump_module.
  destruct (fails ext (clock w)); simpl.
  { exists []. rewrite app_nil_r. auto. }
  destruct (fails ext (S (clock w))); simpl.
  { exists [TrainMode false]. auto. }
  exists [TrainMode false; DumpModule lap (mkModel (arrays m0) (mu_x m0) false)].
  split; [rewrite <- app_assoc; reflexivity|].
  eexists. repeat split.
Qed.

Lemma loop_event_not_dump (static : bool) (e : event) :
  loop_event static e -> is_dump e = false.
Proof. destruct e; simpl; intros; try reflexivity; contradiction. Qed.

(** From the first epoch to the checkpoint. *)
Lemma spec_tail (static : bool) (others : option V) (data : D) (st : St) :
  spec lap
    (bind (epochs_loop ext lap static others data 0 (epochs ext) st) (fun st =>
     bind (train_mode ext lap false (mkModel (avrg ext st) others static))
          (fun m => dump_module ext lap m lap)))
    (tail_post ext lap static).
Proof.
  eapply spec_bind;
    [apply spec_epochs_loop | intros st'; apply spec_checkpoint | |].
  - intros f0 evs f1 (-> & Hall & Hg & _). repeat split; try assumption.
    + eapply Forall_impl; [exact Hall|]. simpl. auto.
    + eapply Forall_impl; [exact Hall|]. apply loop_event_not_dump.
  - intros f0 st' e1 f1 r e2 f2 (-> & Hall & Hg & Hn) H2.
    specialize (Hn st' eq_refl).
    assert (Forall (fun e => is_dump e = false) e1) as Hnd
      by (eapply Forall_impl; [exact Hall|]; apply loop_event_not_dump).
    assert (Forall (fun e : event => loop_event static e \/
                      exists m, e = DumpModule lap m /\ training m = false) e1) as Hall'
      by (eapply Forall_impl; [exact Hall|]; simpl; auto).
    destruct r as [[]|].
    + destruct H2 as (m & -> & -> & Hm). repeat split.
      * apply Forall_app. split; [exact Hall'|].
        constructor; [left; reflexivity|]. constructor; [|constructor].
        right. eauto.
      * apply guarded_app; [exact Hg|apply guarded_off_then].
      * exists m, e1. repeat split; assumption.
    + destruct H2 as (-> & [-> | ->]); repeat split.
      * rewrite app_nil_r. exact Hall'.
      * rewrite app_nil_r. exact Hg.
      * rewrite app_nil_r. exact Hnd.
      * apply Forall_app. split; [exact Hall'|].
        constructor; [left; reflexivity|constructor].
      * apply guarded_app; [exact Hg|].
        apply guarded_plain. constructor; [intros []|constructor].
      * apply Forall_app. split; [exact Hnd|]. repeat constructor.
Qed.

Lemma setup_event_plain (f0 : gmap nat model) (e : event) :
  setup_event lap f0 e -> is_dump e = false /\ is_log e = false.
Proof. destruct e; simpl; intros; auto; contradiction. Qed.

Lemma tail_event_of_loop (e : event) :
  (loop_event true e \/ exists m, e = DumpModule lap m /\ training m = false) ->
  tail_event lap e.
Proof.
  intros [H|(m & -> & Hm)]; [|simpl; auto].
  destruct e; simpl in *; auto; contradiction.
Qed.

(** A set-up step in front of the rest of the lap: [ok] is what is known
    of the run directory before the step, [okA] what is known once the
    step has returned. *)
Lemma spec_setup_bind {A} (c : M P V A) (k : A -> M P V unit)
      (ok : gmap nat model -> Prop) (okA : A -> gmap nat model -> Prop) :
  spec lap c (fun f0 r evs f1 =>
                f1 = f0 /\
                (ok f0 -> Forall (setup_event lap f0) evs /\
                          forall a, r = Done a -> okA a f0)) ->
  (forall a, spec lap (k a) (fun f0 r evs f1 => okA a f0 -> train_post ext lap f0 r evs f1)) ->
  spec lap (bind c k) (fun f0 r evs f1 => ok f0 -> train_post ext lap f0 r evs f1).
Proof.
  intros Hc Hk. eapply spec_bind; [exact Hc|exact Hk|..].
  - intros f0 evs f1 (-> & H) Hok. destruct (H Hok) as [Hall _].
    split; [|split; [reflexivity|]].
    + exists evs, []. rewrite app_nil_r. auto.
    + eapply Forall_impl; [exact Hall|]. intros e He.
      apply (setup_event_plain f0 e He).
  - intros f0 a e1 f1 r e2 f2 (-> & H) H2 Hok.
    destruct (H Hok) as [Hall HokA].
    destruct (H2 (HokA a eq_refl)) as [(pre & tl & -> & Hpre & Htl) Hres].
    assert (Forall (fun e => is_dump e = false) e1) as Hnd.
    { eapply Forall_impl; [exact Hall|]. intros e He.
      apply (setup_event_plain f0 e He). }
    assert (epochs_logged e1 = 0%nat) as Hlog.
    { unfold epochs_logged. clear -Hall. induction Hall as [|e l He _ IH]; [reflexivity|].
      simpl. destruct (setup_event_plain f0 e He) as [_ ->]. exact IH. }
    split.
    + exists (e1 ++ pre), tl. rewrite app_assoc. repeat split; [|exact Htl].
      apply Forall_app. auto.
    + destruct r as [[]|].
      * destruct Hres as (m & evs0 & Heq & Hnd0 & Hn & -> & Hm).
        exists m, (e1 ++ evs0). rewrite Heq, app_assoc. repeat split; try assumption.
        -- apply Forall_app. auto.
        -- rewrite epochs_logged_app, Hlog. exact Hn.
      * destruct Hres as [-> Hnd2]. split; [reflexivity|].
        apply Forall_app. auto.
Qed.

(** Putting the model in training mode, in front of the epochs. *)
Lemma spec_training_bind (m0 : model) (k : model -> M P V unit) :
  (forall m, spec lap (k m) (tail_post ext lap (training m))) ->
  spec lap (bind (train_mode ext lap true m0) k) (train_post ext lap).
Proof.
  intros Hk. eapply spec_bind; [apply spec_train_mode|exact Hk|..].
  - intros f0 evs f1 (-> & [[_ ->]|[[=] _]]).
    split; [|split; [reflexivity|constructor]].
    exists [], []. repeat split; [constructor|left; reflexivity].
  - intros f0 m e1 f1 r e2 f2 (-> & [[[=] _]|[Hm ->]]) (Hall & Hg & Hres).
    injection Hm as ->. simpl in Hall, Hres.
    split.
    + exists [], ([TrainMode true] ++ e2). repeat split; [constructor|].
      right. exists e2. repeat split; [|exact Hg].
      eapply Forall_impl; [exact Hall|]. apply tail_event_of_loop.
    + destruct r as [[]|].
      * destruct Hres as (m & evs0 & -> & Hnd & Hn & -> & Hm).
        exists m, ([TrainMode true] ++ evs0). rewrite app_assoc.
        repeat split; try assumption.
        apply Forall_app. split; [repeat constructor|exact Hnd].
      * destruct Hres as [-> Hnd]. split; [reflexivity|].
        apply Forall_app. split; [repeat constructor|exact Hnd].
Qed.

Lemma spec_setup_draw {A} (e : event) (f : nat -> A) (k : A -> M P V unit)
      (ok : gmap nat model -> Prop) :
  (forall f0, ok f0 -> setup_event lap f0 e) ->
  (forall a, spec lap (k a) (fun f0 r evs f1 => ok f0 -> train_post ext lap f0 r evs f1)) ->
  spec lap (bind (draw ext lap e f) k)
       (fun f0 r evs f1 => ok f0 -> train_post ext lap f0 r evs f1).
Proof.
  intros He Hk. apply (spec_setup_bind _ _ ok (fun _ => ok)); [|exact Hk].
  eapply spec_weaken; [apply spec_draw|].
  intros f0 r evs f1 (-> & [[-> ->]|(n & -> & ->)]); split; try reflexivity;
    intros Hok; (split; [|intros; exact Hok]).
  - constructor.
  - constructor; [apply He; exact Hok|constructor].
Qed.

(** The model the lap starts from: the checkpoint of the lap before, or
    the Gaussian prior at lap 0. *)
Lemma spec_previous :
  spec lap
    (if decide (0 < lap)%nat then load_module ext lap (lap - 1)
     else bind (draw ext lap FitMoments (fit_moments ext))
               (fun g => ret (mkModel g None false)))
    (fun f0 r evs f1 =>
       f1 = f0 /\
       (True -> Forall (setup_event lap f0) evs /\
                forall m, r = Done m -> (0 < lap)%nat -> f0 !! (lap - 1)%nat = Some m)).
Proof.
  destruct (decide (0 < lap)%nat) as [Hpos|Hzero].
  - eapply spec_weaken; [apply spec_load_module|].
    intros f0 r evs f1 (-> & [[-> ->]|(m & -> & -> & Hm)]); split; try reflexivity;
      intros _; split.
    + constructor.
    + intros m [=].
    + constructor; [simpl; auto|constructor].
    + intros m' [= <-] _. exact Hm.
  - intros w. unfold bind, draw, ret.
    destruct (fails ext (clock w)); simpl.
    + exists []. rewrite app_nil_r. repeat split; [constructor|intros m [=]].
    + exists [FitMoments]. repeat split.
      * constructor; [simpl; lia|constructor].
      * intros m _ Hpos. lia.
Qed.

(** The model that is trained: the previous one, or a new one at lap 0. *)
Lemma spec_model (previous : model) (ok : gmap nat model -> Prop) :
  spec lap
    (if decide (0 < lap)%nat then ret previous
     else bind (draw ext lap MakeModel (make_model ext))
               (fun p => ret (mkModel p None (make_model_training ext))))
    (fun f0 r evs f1 =>
       f1 = f0 /\
       (ok f0 -> Forall (setup_event lap f0) evs /\ forall m : model, r = Done m -> True)).
Proof.
  destruct (decide (0 < lap)%nat) as [Hpos|Hzero].
  - eapply spec_weaken; [apply spec_ret|].
    intros f0 r evs f1 (-> & -> & ->). repeat split. constructor.
  - intros w. unfold bind, draw, ret.
    destruct (fails ext (clock w)); simpl.
    + exists []. rewrite app_nil_r. repeat split. constructor.
    + exists [MakeModel]. repeat split.
      constructor; [simpl; lia|constructor].
Qed.

(** The calls of one lap. *)
Lemma spec_train : spec lap (train ext lap) (train_post ext lap).
Proof.
  eapply spec_weaken with (Q := fun f0 r evs f1 => True -> train_post ext lap f0 r evs f1);
    [|intros f0 r evs f1 H; exact (H I)].
  unfold train, call.
  apply spec_setup_draw; [intros; exact I|]. intros _.
  apply (spec_setup_bind _ _ (fun _ => True)
           (fun m f0 => (0 < lap)%nat -> f0 !! (lap - 1)%nat = Some m));
    [apply spec_previous|].
  intros previous.
  apply spec_setup_draw; [intros f0 Hok; exact Hok|]. intros trainset.
  apply spec_setup_draw; [intros f0 Hok; exact Hok|]. intros testset.
  apply (spec_setup_bind _ _ _ (fun _ _ => True)); [apply spec_model|].
  intros m0.
  eapply spec_weaken; [apply spec_training_bind|intros f0 r evs f1 H _; exact H].
  intros m. apply spec_tail.
Qed.

(** A lap after the first begins with its set-up, then loads the
    checkpoint of the lap before, then generates its training set with
    the loaded model. *)
Lemma train_begins (w : world P V) :
  (0 < lap)%nat ->
  exists evs,
    trace (snd (train ext lap w)) = trace w ++ ((fun e => (lap, e)) <$> evs) /\
    begins_with_load (lap - 1) evs.
Proof.
  intros Hlap. unfold train, call. unfold bind at 1. unfold draw at 1.
  match goal with
  | |- context [bind (if decide _ then _ else _) ?k] => set (K2 := k)
  end.
  destruct (fails ext (clock w)).
  { exists []. cbn. rewrite app_nil_r. split; [reflexivity|left; reflexivity]. }
  cbv beta iota. rewrite decide_True by exact Hlap.
  unfold bind at 1. unfold load_module at 1. cbn [fs].
  destruct (fs w !! (lap - 1)%nat) as [m|].
  2:{ exists [Setup]. cbn. split; [reflexivity|right; left; reflexivity]. }
  unfold draw at 1. cbn [clock fs trace].
  destruct (fails ext (S (clock w))).
  { exists [Setup]. cbn. split; [reflexivity|right; left; reflexivity]. }
  cbv beta iota. unfold K2. unfold bind at 1. unfold draw at 1. cbn [clock fs trace].
  destruct (fails ext (S (S (clock w)))).
  { exists [Setup; LoadModule (lap - 1) m]. cbn. rewrite <- app_assoc.
    split; [reflexivity|]. right; right. exists m, [].
    split; [reflexivity|left; reflexivity]. }
  cbv beta iota.
  match goal with
  | |- exists evs, trace (snd (?c ?w3)) = _ /\ _ =>
      assert (spec lap c
                (fun f0 r evs f1 =>
                   ((0 < lap)%nat -> f0 !! (lap - 1)%nat = Some m) ->
                   train_post ext lap f0 r evs f1)) as Hc;
      [|destruct (Hc w3) as (evs3 & Htr3 & _)]
  end.
  { apply spec_setup_draw; [intros f0 Hok; exact Hok|]. intros testset.
    apply (spec_setup_bind _ _ _ (fun _ _ => True)); [apply spec_model|].
    intros m0.
    eapply spec_weaken; [apply spec_training_bind|intros f0 r evs f1 H _; exact H].
    intros m1. apply spec_tail. }
  exists ([Setup; LoadModule (lap - 1) m; Generate m] ++ evs3). split.
  - rewrite Htr3. cbn [trace]. rewrite fmap_app, <- !app_assoc. reflexivity.
  - right; right. exists m, (Generate m :: evs3).
    split; [reflexivity|]. right. eauto.
Qed.
End TrainLap.
(* ===================================================================== *)
(** ** A lap in which no call raises                                      *)
(* ===================================================================== *)

Section NoFailure.
Import Train.
Context {P V D St : Type}.
Variable ext : externals P V D St.
Hypothesis never_fails : forall n, fails ext n = false.
Hypothesis nonempty_batches :
  (0 < epochs ext)%nat -> (0 < train_batches ext)%nat /\ (0 < test_batches ext)%nat.

Local Abbreviation event := (event P V).
Local Abbreviation model := (model P V).
Local Abbreviation world := (world P V).

Lemma completes_ret {A} (a : A) : completes (ret a : M P V A).
Proof. intros w. exists a, w. reflexivity. Qed.

Lemma completes_bind {A B} (c : M P V A) (k : A -> M P V B) :
  completes c -> (forall a, completes (k a)) -> completes (bind c k).
Proof.
  intros Hc Hk w. destruct (Hc w) as (a & w1 & Hcw).
  destruct (Hk a w1) as (b & w2 & Hkw).
  exists b, w2. unfold bind. rewrite Hcw. exact Hkw.
Qed.

Lemma completes_draw {A} (lap : nat) (e : event) (f : nat -> A) :
  completes (draw ext lap e f).
Proof.
  intros w. unfold draw. rewrite never_fails. eauto.
Qed.

Lemma completes_train_mode (lap : nat) (b : bool) (m : model) :
  completes (train_mode ext lap b m).
Proof.
  apply completes_bind; [apply completes_draw|]. intros _. apply completes_ret.
Qed.

Lemma completes_dump_module (lap : nat) (m : model) (k : nat) :
  completes (dump_module ext lap m k).
Proof.
  intros w. unfold dump_module. rewrite never_fails. eauto.
Qed.

Lemma completes_train_loop (lap : nat) (static : bool) (data : D) (n : nat) (st : St) :
  completes (train_loop ext lap static data n st).
Proof.
  revert st. induction n as [|n IH]; intros st; simpl.
  - apply completes_ret.
  - apply completes_bind; [apply completes_draw|]. exact IH.
Qed.

Lemma completes_validation_loop (lap : nat) (static : bool) (n : nat) :
  completes (validation_loop ext lap static n).
Proof.
  induction n as [|n IH]; simpl.
  - apply completes_ret.
  - apply completes_bind; [apply completes_draw|]. intros _. exact IH.
Qed.

Lemma completes_stack_mean (n : nat) :
  (0 < n)%nat -> completes (stack_mean n : M P V unit).
Proof.
  intros Hn w. unfold stack_mean. destruct n as [|n]; [lia|]. eauto.
Qed.

Lemma completes_epoch_body (lap : nat) (static : bool) (others : option V) (data : D)
      (epoch : nat) (st : St) :
  (0 < train_batches ext)%nat -> (0 < test_batches ext)%nat ->
  completes (epoch_body ext lap static others data epoch st).
Proof.
  intros Htb Hvb. unfold epoch_body.
  apply completes_bind; [apply completes_train_loop|]. intros st1.
  apply completes_bind; [apply completes_stack_mean; exact Htb|]. intros _.
  apply completes_bind; [apply completes_validation_loop|]. intros _.
  apply completes_bind; [apply completes_stack_mean; exact Hvb|]. intros _.
  destruct (decide _).
  - apply completes_bind; [apply completes_train_mode|]. intros m.
    apply completes_bind; [apply completes_draw|]. intros _.
    apply completes_bind; [apply completes_draw|]. intros _. apply completes_ret.
  - apply completes_bind; [apply completes_draw|]. intros _. apply completes_ret.
Qed.

Lemma completes_epochs_loop (lap : nat) (static : bool) (others : option V) (data : D)
      (n : nat) :
  ((0 < n)%nat -> (0 < train_batches ext)%nat /\ (0 < test_batches ext)%nat) ->
  forall (epoch : nat) (st : St),
    completes (epochs_loop ext lap static others data epoch n st).
Proof.
  induction n as [|n IH]; intros Hb epoch st; simpl.
  - apply completes_ret.
  - destruct (Hb ltac:(lia)) as [Htb Hvb].
    apply completes_bind; [apply completes_epoch_body; assumption|].
    intros st1. apply IH. auto.
Qed.

(** Once the previous model is there, the rest of the lap. *)
Lemma completes_from_previous (lap : nat) (previous : model) :
  completes
    (bind (draw ext lap (Generate previous) (generate ext previous)) (fun trainset =>
     bind (draw ext lap (Generate previous) (generate ext previous)) (fun testset =>
     let mu := mean ext trainset in
     bind (if decide (0 < lap)%nat then ret previous
           else bind (draw ext lap MakeModel (make_model ext))
                     (fun p => ret (mkModel p None (make_model_training ext))))
          (fun model =>
     let model := mkModel (arrays model) (Some mu) (training model) in
     bind (train_mode ext lap true model) (fun model =>
     let static := training model in
     let others := mu_x model in
     let st := optimizer_init ext (arrays model) in
     bind (epochs_loop ext lap static others trainset 0 (epochs ext) st) (fun st =>
     let model := mkModel (avrg ext st) others static in
     bind (train_mode ext lap false model) (fun model =>
     dump_module ext lap model lap))))))).
Proof.
  apply completes_bind; [apply completes_draw|]. intros trainset.
  apply completes_bind; [apply completes_draw|]. intros testset.
  cbv zeta.
  apply completes_bind.
  { destruct (decide _); [apply completes_ret|].
    apply completes_bind; [apply completes_draw|]. intros p. apply completes_ret. }
  intros model0.
  apply completes_bind; [apply completes_train_mode|]. intros model1.
  apply completes_bind; [apply completes_epochs_loop; exact nonempty_batches|].
  intros st.
  apply completes_bind; [apply completes_train_mode|]. intros model2.
  apply completes_dump_module.
Qed.

Lemma train_completes (lap : nat) (w : world) :
  ((0 < lap)%nat -> is_Some (fs w !! (lap - 1)%nat)) ->
  exists w', train ext lap w = (Done tt, w').
Proof.
  intros Hck. unfold train.
  unfold bind at 1, call. unfold draw at 1. rewrite never_fails.
  set (w1 := mkWorld (fs w) (trace w ++ [(lap, Setup)]) (S (clock w))).
  unfold bind at 1.
  destruct (decide (0 < lap)%nat) as [Hlap|Hlap].
  - destruct (Hck Hlap) as [m Hm].
    unfold load_module at 1. cbn [fs w1]. 
    replace (fs w1 !! (lap - 1)%nat) with (Some m) by (symmetry; exact Hm).
    unfold draw at 1. rewrite never_fails.
    match goal with
    | |- exists w', ?c ?w0 = _ =>
        destruct (completes_from_previous lap m w0) as ([] & w' & Hrun)
    end.
    exists w'. rewrite decide_True in Hrun by exact Hlap. exact Hrun.
  - unfold bind at 1. unfold draw at 1. rewrite never_fails. unfold ret at 1.
    match goal with
    | |- exists w', ?c ?w0 = _ =>
        destruct (completes_from_previous lap
                    (mkModel (fit_moments ext (clock w1)) None false) w0)
          as ([] & w' & Hrun)
    end.
    exists w'. rewrite decide_False in Hrun by exact Hlap. exact Hrun.
Qed.
End NoFailure.

(** C7: the checkpoint of the lap is written exactly once per run of
    [train], as its last call and after all the configured epochs have been
    logged; a run that raises at any point has dumped nothing and leaves the
    run directory as it was; in either case every checkpoint but the
    lap's own, the previous lap's included, is left unmodified.  And the
    checkpoint is written: when no external call raises, the checkpoint of
    the lap before is there and the loaders yield at least one batch, the
    run completes. *)
Theorem train_checkpoint_written_once {P V D St : Type}
    (ext : Train.externals P V D St) (lap : nat) (w : Train.world P V) :
  (exists evs,
    Train.trace (snd (Train.train ext lap w))
    = Train.trace w ++ ((fun e => (lap, e)) <$> evs) /\
    match fst (Train.train ext lap w) with
    | Train.Done _ =>
        exists m evs0,
          evs = evs0 ++ [Train.DumpModule lap m] /\
          Forall (fun e => Train.is_dump e = false) evs0 /\
          Train.epochs_logged evs0 = Train.epochs ext /\
          Train.fs (snd (Train.train ext lap w)) = <[lap := m]> (Train.fs w)
    | Train.Raised =>
        Forall (fun e => Train.is_dump e = false) evs /\
        Train.fs (snd (Train.train ext lap w)) = Train.fs w
    end /\
    (forall k, k <> lap ->
       Train.fs (snd (Train.train ext lap w)) !! k = Train.fs w !! k)) /\
  ((forall n, Train.fails ext n = false) ->
   ((0 < lap)%nat -> is_Some (Train.fs w !! (lap - 1)%nat)) ->
   ((0 < Train.epochs ext)%nat ->
    (0 < Train.train_batches ext)%nat /\ (0 < Train.test_batches ext)%nat) ->
   fst (Train.train ext lap w) = Train.Done tt).
Proof.
  split.
  - destruct (spec_train ext lap w) as (evs & Htr & _ & Hres).
    exists evs. split; [exact Htr|].
    destruct (fst (Train.train ext lap w)) as [[]|].
    + destruct Hres as (m & evs0 & -> & Hnd & Hn & Hfs & _). split.
      * exists m, (evs0 ++ [Train.TrainMode false]).
        rewrite <- app_assoc. repeat split; try assumption.
        -- apply Forall_app. split; [exact Hnd|repeat constructor].
        -- rewrite epochs_logged_app, Hn. unfold Train.epochs_logged. simpl. lia.
      * intros k Hk. rewrite Hfs, lookup_insert_ne by congruence. reflexivity.
    + destruct Hres as [Hfs Hnd]. split; [auto|].
      intros k _. rewrite Hfs. reflexivity.
  - intros Hnf Hck Hb.
    destruct (train_completes ext Hnf Hb lap w Hck) as [w' ->]. reflexivity.
Qed.

Section TrainFlags.
Import Train.
Context {P V : Type}.

Lemma tail_lookup (lap : nat) (f0 : gmap nat (model P V)) (pre tl' : list (event P V))
      (i : nat) (e : event P V) :
  Forall (setup_event lap f0) pre ->
  (pre ++ TrainMode true :: tl') !! i = Some e ->
  (forall b, e <> TrainMode b) ->
  (i < length pre /\ setup_event lap f0 e)%nat \/
  exists i', i = (length pre + S i')%nat /\ tl' !! i' = Some e.
Proof.
  intros Hpre Hi Hne.
  destruct (decide (i < length pre)%nat) as [Hlt|Hge].
  - left. split; [exact Hlt|]. rewrite lookup_app_l in Hi by exact Hlt.
    eapply Forall_lookup_1 in Hpre; eassumption.
  - right. rewrite lookup_app_r in Hi by lia.
    destruct (i - length pre)%nat as [|i'] eqn:Hd; simpl in Hi.
    + injection Hi as <-. destruct (Hne true eq_refl).
    + exists i'. split; [lia|exact Hi].
Qed.
End TrainFlags.

(** C8: in every run of [train], the training-mode flag is set before each
    use of the model: [train(True)] is called before the first
    optimisation step and every step runs a model in training mode, and
    every evaluation sample and the checkpoint use a model on which
    [train(False)] was called just before, in evaluation mode. *)
Theorem train_mode_set_before_use {P V D St : Type}
    (ext : Train.externals P V D St) (lap : nat) (w : Train.world P V) :
  exists evs,
    Train.trace (snd (Train.train ext lap w))
    = Train.trace w ++ ((fun e => (lap, e)) <$> evs) /\
    (forall i b, evs !! i = Some (Train.SgdStep b) ->
       b = true /\ exists j, (j < i)%nat /\ evs !! j = Some (Train.TrainMode true)) /\
    (forall i m, evs !! i = Some (Train.Sample m) ->
       Train.training m = false /\
       exists j, i = S j /\ evs !! j = Some (Train.TrainMode false)) /\
    (forall i k m, evs !! i = Some (Train.DumpModule k m) ->
       Train.training m = false /\
       exists j, i = S j /\ evs !! j = Some (Train.TrainMode false)).
Proof.
  destruct (spec_train ext lap w) as (evs & Htr & (pre & tl & -> & Hpre & Htl) & _).
  exists (pre ++ tl). split; [exact Htr|].
  destruct Htl as [->|(tl' & -> & Hall & Hg)].
  - rewrite app_nil_r.
    repeat split; intros;
      match goal with
      | H : pre !! _ = Some _ |- _ =>
          eapply Forall_lookup_1 in Hpre; [|exact H]; destruct Hpre
      end.
  - assert (forall i e, (pre ++ Train.TrainMode true :: tl') !! i = Some e ->
                        (forall b, e <> Train.TrainMode b) ->
                        ~ Train.setup_event lap (Train.fs w) e ->
                        exists i', i = (length pre + S i')%nat /\ tl' !! i' = Some e) as Hin.
    { intros i e Hi Hne Hns.
      destruct (tail_lookup lap (Train.fs w) pre tl' i e Hpre Hi Hne) as [[_ Hs]|H];
        [destruct (Hns Hs)|exact H]. }
    assert (forall i' j', i' = S j' -> tl' !! j' = Some (Train.TrainMode false) ->
              exists j, (length pre + S i')%nat = S j /\
                        (pre ++ Train.TrainMode true :: tl') !! j
                        = Some (Train.TrainMode false)) as Hprev.
    { intros i' j' -> Hj'. exists (length pre + S j')%nat. split; [lia|].
      rewrite lookup_app_r by lia.
      replace (length pre + S j' - length pre)%nat with (S j') by lia. exact Hj'. }
    repeat split.
    + destruct (Hin i _ H ltac:(discriminate) ltac:(simpl; auto)) as (i' & -> & Hi').
      eapply Forall_lookup_1 in Hall; [|exact Hi']. exact Hall.
    + destruct (Hin i _ H ltac:(discriminate) ltac:(simpl; auto)) as (i' & -> & Hi').
      exists (length pre). split; [lia|].
      rewrite lookup_app_r by lia. rewrite Nat.sub_diag. reflexivity.
    + destruct (Hin i _ H ltac:(discriminate) ltac:(simpl; auto)) as (i' & -> & Hi').
      eapply Forall_lookup_1 in Hall; [|exact Hi']. exact Hall.
    + destruct (Hin i _ H ltac:(discriminate) ltac:(simpl; auto)) as (i' & -> & Hi').
      destruct (Hg i' _ Hi' I) as (j' & Hij & Hj'). eapply Hprev; eassumption.
    + destruct (Hin i _ H ltac:(discriminate) ltac:(simpl; auto)) as (i' & -> & Hi').
      eapply Forall_lookup_1 in Hall; [|exact Hi']. apply Hall.
    + destruct (Hin i _ H ltac:(discriminate) ltac:(simpl; auto)) as (i' & -> & Hi').
      destruct (Hg i' _ Hi' I) as (j' & Hij & Hj'). eapply Hprev; eassumption.
Qed.

Lemma train_checkpoint_written_once_witness :
  Train.fs world_lap0 !! 0%nat = Some (Train.mkModel 8%nat (Some 2%nat) false) /\
  fst (Train.train ext_example 1 world_lap0) = Train.Done tt /\
  Train.trace (snd (Train.train ext_example 1 world_lap0))
  = Train.trace world_lap0 ++
    ((fun e => (1%nat, e)) <$>
     [Train.Setup;
      Train.LoadModule 0 (Train.mkModel 8%nat (Some 2%nat) false);
      Train.Generate (Train.mkModel 8%nat (Some 2%nat) false);
      Train.Generate (Train.mkModel 8%nat (Some 2%nat) false);
      Train.TrainMode true;
      Train.SgdStep true; Train.SgdStep true; Train.Validate true; Train.Log;
      Train.SgdStep true; Train.SgdStep true; Train.Validate true; Train.Log;
      Train.TrainMode false;
      Train.DumpModule 1 (Train.mkModel 12%nat (Some 18%nat) false)]) /\
  Train.fs (snd (Train.train ext_example 1 world_lap0)) !! 1%nat
  = Some (Train.mkModel 12%nat (Some 18%nat) false) /\
  Train.fs (snd (Train.train ext_example 1 world_lap0)) !! 0%nat
  = Some (Train.mkModel 8%nat (Some 2%nat) false) /\
  fst (Train.train (ext_failing_at 26) 1 world_lap0) = Train.Raised /\
  length (Train.trace (snd (Train.train (ext_failing_at 26) 1 world_lap0)))
  = (length (Train.trace world_lap0) + 10)%nat /\
  Train.fs (snd (Train.train (ext_failing_at 26) 1 world_lap0)) !! 1%nat = None /\
  Train.fs (snd (Train.train (ext_failing_at 26) 1 world_lap0)) !! 0%nat
  = Some (Train.mkModel 8%nat (Some 2%nat) false) /\
  (exists evs,
    Train.trace (snd (Train.train (ext_failing_at 26) 1 world_lap0))
    = Train.trace world_lap0 ++ ((fun e => (1%nat, e)) <$> evs) /\
    match fst (Train.train (ext_failing_at 26) 1 world_lap0) with
    | Train.Done _ =>
        exists m evs0,
          evs = evs0 ++ [Train.DumpModule 1 m] /\
          Forall (fun e => Train.is_dump e = false) evs0 /\
          Train.epochs_logged evs0 = Train.epochs (ext_failing_at 26) /\
          Train.fs (snd (Train.train (ext_failing_at 26) 1 world_lap0))
          = <[1%nat := m]> (Train.fs world_lap0)
    | Train.Raised =>
        Forall (fun e => Train.is_dump e = false) evs /\
        Train.fs (snd (Train.train (ext_failing_at 26) 1 world_lap0))
        = Train.fs world_lap0
    end /\
    (forall k, k <> 1%nat ->
       Train.fs (snd (Train.train (ext_failing_at 26) 1 world_lap0)) !! k
       = Train.fs world_lap0 !! k)) /\
  (exists evs,
    Train.trace (snd (Train.train ext_example 1 world_lap0))
    = Train.trace world_lap0 ++ ((fun e => (1%nat, e)) <$> evs) /\
    match fst (Train.train ext_example 1 world_lap0) with
    | Train.Done _ =>
        exists m evs0,
          evs = evs0 ++ [Train.DumpModule 1 m] /\
          Forall (fun e => Train.is_dump e = false) evs0 /\
          Train.epochs_logged evs0 = Train.epochs ext_example /\
          Train.fs (snd (Train.train ext_example 1 world_lap0))
          = <[1%nat := m]> (Train.fs world_lap0)
    | Train.Raised =>
        Forall (fun e => Train.is_dump e = false) evs /\
        Train.fs (snd (Train.train ext_example 1 world_lap0)) = Train.fs world_lap0
    end /\
    (forall k, k <> 1%nat ->
       Train.fs (snd (Train.train ext_example 1 world_lap0)) !! k
       = Train.fs world_lap0 !! k)).
Proof.
  split; [vm_compute; reflexivity|].
  split.
  { apply (train_checkpoint_written_once ext_example 1 world_lap0).
    - intros n. reflexivity.
    - intros _. exists (Train.mkModel 8%nat (Some 2%nat) false). vm_compute. reflexivity.
    - intros _. simpl. lia. }
  split; [vm_compute; reflexivity|].
  split; [vm_compute; reflexivity|].
  split; [vm_compute; reflexivity|].
  split; [vm_compute; reflexivity|].
  split; [vm_compute; reflexivity|].
  split; [vm_compute; reflexivity|].
  split; [vm_compute; reflexivity|].
  split.
  - exact (proj1 (train_checkpoint_written_once (ext_failing_at 26) 1 world_lap0)).
  - exact (proj1 (train_checkpoint_written_once ext_example 1 world_lap0)).
Defined.

Lemma train_mode_set_before_use_witness :
  exists evs,
    Train.trace (snd (Train.train ext_example 0 world_empty))
    = Train.trace world_empty ++ ((fun e => (0%nat, e)) <$> evs) /\
    (forall i b, evs !! i = Some (Train.SgdStep b) ->
       b = true /\ exists j, (j < i)%nat /\ evs !! j = Some (Train.TrainMode true)) /\
    (forall i m, evs !! i = Some (Train.Sample m) ->
       Train.training m = false /\
       exists j, i = S j /\ evs !! j = Some (Train.TrainMode false)) /\
    (forall i k m, evs !! i = Some (Train.DumpModule k m) ->
       Train.training m = false /\
       exists j, i = S j /\ evs !! j = Some (Train.TrainMode false)).
Proof. exact (train_mode_set_before_use ext_example 0 world_empty). Defined.

(* ===================================================================== *)
(** ** The chain of laps                                                  *)
(* ===================================================================== *)

Section Scheduling.
Import Train.
Context {P V D St : Type}.
Variable ext : externals P V D St.
Variable laps : nat.

Local Abbreviation event := (event P V).
Local Abbreviation model := (model P V).
Local Abbreviation world := (world P V).

Lemma main_jobs_waits (j : job) :
  j ∈ main_jobs laps ->
  waits_for j = if decide (0 < job_lap j)%nat then [(job_lap j - 1)%nat] else [].
Proof.
  unfold main_jobs. intros Hj. apply list_elem_of_fmap in Hj as (lap & -> & _).
  reflexivity.
Qed.

Lemma setup_event_from_checkpoint (k : nat) (f0 : gmap nat model) (m : model) (e : event) :
  f0 !! k = Some m -> setup_event (S k) f0 e -> from_checkpoint k m e.
Proof.
  intros Hm. destruct e; simpl; auto.
  - intros (_ & -> & Hm'). rewrite Nat.sub_0_r in *. split; [reflexivity|congruence].
  - intros H. specialize (H ltac:(lia)). rewrite Nat.sub_0_r in H. congruence.
Qed.

Lemma tail_event_from_checkpoint (lap k : nat) (m : model) (e : event) :
  tail_event lap e -> from_checkpoint k m e.
Proof. destruct e; simpl; auto; contradiction. Qed.

Lemma calls_of_app (lap : nat) (a b : list (nat * event)) :
  calls_of lap (a ++ b) = calls_of lap a ++ calls_of lap b.
Proof. unfold calls_of. rewrite filter_app, fmap_app. reflexivity. Qed.

Lemma calls_of_tagged (lap l : nat) (evs : list event) :
  calls_of lap ((fun e => (l, e)) <$> evs) = if decide (l = lap) then evs else [].
Proof.
  unfold calls_of. induction evs as [|e evs IH]; [destruct (decide _); reflexivity|].
  rewrite fmap_cons, filter_cons. cbn [fst].
  destruct (decide (l = lap)); cbn; rewrite IH; reflexivity.
Qed.

Lemma calls_of_none (lap : nat) (tr : list (nat * event)) :
  (forall i e, tr !! i <> Some (lap, e)) -> calls_of lap tr = [].
Proof.
  unfold calls_of. induction tr as [|[l e] tr IH]; intros Hno; [reflexivity|].
  rewrite filter_cons. cbn [fst].
  destruct (decide (l = lap)) as [->|_].
  - exfalso. exact (Hno 0%nat e eq_refl).
  - apply IH. intros i e' Hi. exact (Hno (S i) e' Hi).
Qed.

Lemma calls_of_elem (lap : nat) (tr : list (nat * event)) (e : event) :
  e ∈ calls_of lap tr -> exists i, tr !! i = Some (lap, e).
Proof.
  unfold calls_of. intros He.
  apply list_elem_of_fmap in He as ([l e'] & -> & Hin).
  apply list_elem_of_filter in Hin as [Hl Hin]. cbn in Hl. subst l.
  apply list_elem_of_lookup in Hin. exact Hin.
Qed.

Lemma calls_of_lookup (lap : nat) (tr : list (nat * event)) (i : nat) (e : event) :
  tr !! i = Some (lap, e) -> e ∈ calls_of lap tr.
Proof.
  unfold calls_of. intros Hi.
  apply list_elem_of_fmap. exists (lap, e). split; [reflexivity|].
  apply list_elem_of_filter. split; [reflexivity|].
  apply list_elem_of_lookup. exists i. exact Hi.
Qed.

Lemma sched_inv_step (s s' : sched P V) :
  sched_inv s -> sched_step ext (main_jobs laps) s s' -> sched_inv s'.
Proof.
  intros (Hsub & Htag & Hprev & Hdump & Hord & Hbeg) Hstep.
  destruct Hstep as [j s r w' Hj Hnew Hdeps Hrun].
  set (lap := job_lap j) in *.
  destruct (spec_train ext lap (sched_world s)) as (evs & Htr & Hshape & Hres).
  rewrite Hrun in Htr, Hres. simpl in Htr, Hres.
  assert (forall i l e, trace w' !! i = Some (l, e) ->
            (i < length (trace (sched_world s)) /\
             trace (sched_world s) !! i = Some (l, e))%nat \/
            (length (trace (sched_world s)) <= i /\ l = lap /\
             evs !! (i - length (trace (sched_world s)))%nat = Some e)%nat) as Hsplit.
  { intros i l e Hi. rewrite Htr in Hi.
    destruct (decide (i < length (trace (sched_world s)))%nat) as [Hlt|Hge].
    - left. rewrite lookup_app_l in Hi by exact Hlt. auto.
    - right. rewrite lookup_app_r in Hi by lia.
      rewrite list_lookup_fmap in Hi.
      destruct (evs !! _) as [e0|] eqn:He0; [|discriminate].
      injection Hi as <- <-. split; [lia|]. split; reflexivity. }
  assert (forall i l e, trace (sched_world s) !! i = Some (l, e) ->
                        trace w' !! i = Some (l, e)) as Hold.
  { intros i l e Hi. rewrite Htr. apply lookup_app_l_Some. exact Hi. }
  assert (forall k, k ∈ succeeded s ->
            k ∈ match r with Done _ => lap :: succeeded s | Raised => succeeded s end)
    as Hmono.
  { intros k Hk. destruct r as [[]|]; [right|]; exact Hk. }
  assert (forall k, S k = lap -> k ∈ succeeded s) as Hwait.
  { intros k Hlap. apply Hdeps. rewrite (main_jobs_waits j Hj). fold lap.
    rewrite <- Hlap. rewrite decide_True by lia. simpl. rewrite Nat.sub_0_r. left. }
  unfold sched_inv. simpl. repeat split.
  - intros k Hk. destruct r as [[]|].
    + apply elem_of_cons in Hk as [->|Hk]; [left|right; auto].
    + right. auto.
  - intros i l e Hi. destruct (Hsplit i l e Hi) as [[_ Hi']|(_ & -> & _)].
    + right. eapply Htag. exact Hi'.
    + left.
  - intros k Hk. apply Hmono.
    apply elem_of_cons in Hk as [Hk|Hk]; [apply Hwait; exact Hk|apply Hprev; exact Hk].
  - intros k Hk.
    assert (k ∈ succeeded s -> k <> lap) as Hne.
    { intros Hks ->. apply Hnew, Hsub, Hks. }
    assert (k ∈ succeeded s ->
            exists i m, trace w' !! i = Some (k, DumpModule k m) /\ fs w' !! k = Some m) as Hkeep.
    { intros Hks. destruct (Hdump k Hks) as (i & m & Hi & Hm).
      exists i, m. split; [apply Hold; exact Hi|].
      destruct r as [[]|].
      - destruct Hres as (m' & evs0 & _ & _ & _ & -> & _).
        rewrite lookup_insert_ne by (intros Heq; apply (Hne Hks); congruence). exact Hm.
      - destruct Hres as [-> _]. exact Hm. }
    destruct r as [[]|]; [|auto].
    apply elem_of_cons in Hk as [->|Hk]; [|auto].
    destruct Hres as (m & evs0 & -> & _ & _ & -> & _).
    exists (length (trace (sched_world s)) + S (length evs0))%nat, m. split.
    + rewrite Htr, lookup_app_r by lia.
      replace (length (trace (sched_world s)) + S (length evs0)
               - length (trace (sched_world s)))%nat with (S (length evs0)) by lia.
      rewrite list_lookup_fmap, lookup_app_r by lia.
      replace (S (length evs0) - length evs0)%nat with 1%nat by lia. reflexivity.
    + apply lookup_insert_eq.
  - intros k i e Hi.
    destruct (Hsplit i (S k) e Hi) as [[Hlt Hi']|(Hge & Hlap & He)].
    + destruct (Hord k i e Hi') as (j0 & m & Hj0 & Hdj & Hall).
      exists j0, m. split; [exact Hj0|]. split; [apply Hold; exact Hdj|].
      intros i' e' Hi2.
      destruct (Hsplit i' (S k) e' Hi2) as [[_ Hi2']|(_ & Hlap & _)];
        [eapply Hall; exact Hi2'|].
      exfalso. apply Hnew. fold lap. rewrite <- Hlap. eapply Htag. exact Hi'.
    + assert (k ∈ succeeded s) as Hk by (apply Hwait; exact Hlap).
      destruct (Hdump k Hk) as (j0 & m & Hdj & Hm).
      exists j0, m.
      split; [apply lookup_lt_Some in Hdj; lia|].
      split; [apply Hold; exact Hdj|].
      intros i' e' Hi2.
      destruct (Hsplit i' (S k) e' Hi2) as [[_ Hi2']|(_ & _ & He')].
      { exfalso. apply Hnew. fold lap. rewrite <- Hlap. eapply Htag. exact Hi2'. }
      destruct Hshape as (pre & tl & -> & Hpre & Htl).
      rewrite <- Hlap in Hpre, Htl.
      apply lookup_app_Some in He' as [He'|[_ He']].
      * eapply Forall_lookup_1 in Hpre; [|exact He'].
        eapply setup_event_from_checkpoint; eassumption.
      * destruct Htl as [->|(tl' & -> & Hall & _)];
          [rewrite lookup_nil in He'; discriminate|].
        destruct (i' - length (trace (sched_world s)) - length pre)%nat as [|n];
          simpl in He'.
        -- injection He' as <-. exact I.
        -- eapply Forall_lookup_1 in Hall; [|exact He'].
           eapply tail_event_from_checkpoint. exact Hall.
  - intros k. rewrite Htr, calls_of_app, calls_of_tagged.
    destruct (decide (lap = S k)) as [Hlap|_]; [|rewrite app_nil_r; apply Hbeg].
    rewrite calls_of_none.
    2:{ intros i e Hi. apply Hnew. fold lap. rewrite Hlap. eapply Htag. exact Hi. }
    destruct (train_begins ext lap (sched_world s) ltac:(lia)) as (evs' & Htr' & Hb).
    rewrite Hrun in Htr'. cbn [snd] in Htr'. rewrite Htr in Htr'.
    apply app_inv_head in Htr'.
    apply (inj (fmap (fun e : event => (lap, e)))) in Htr'. subst evs'.
    rewrite Hlap in Hb. cbn in Hb. rewrite Nat.sub_0_r in Hb. exact Hb.
Qed.

Lemma sched_inv_scheduled (w : world) (s : sched P V) :
  trace w = [] ->
  scheduled ext (main_jobs laps) w s -> sched_inv s.
Proof.
  intros Hw Hs. unfold scheduled in Hs.
  assert (sched_inv (mkSched [] [] w)) as H0.
  { unfold sched_inv. simpl. rewrite Hw. repeat split.
    - intros k Hk. apply elem_of_nil in Hk as [].
    - intros i lap e Hi. rewrite lookup_nil in Hi. discriminate.
    - intros k Hk. apply elem_of_nil in Hk as [].
    - intros k Hk. apply elem_of_nil in Hk as [].
    - intros k i e Hi. rewrite lookup_nil in Hi. discriminate.
    - intros k. left. reflexivity. }
  revert H0. generalize dependent (mkSched (P := P) (V := V) [] [] w). intros s0 Hs.
  induction Hs as [sa|sa sb sc Hstep _ IH]; intros H0; [exact H0|].
  apply IH. eapply sched_inv_step; eassumption.
Qed.
End Scheduling.

(** C3: [__main__] builds one job per lap, job [lap] waiting for job
    [lap - 1], so the laps run in order: lap [k + 1] starts only once lap
    [k] has completed successfully, which it does by dumping its
    checkpoint, and every call of lap [k + 1] comes after that dump.  Lap
    [k + 1] begins by loading that checkpoint: its calls are the set-up,
    then the load of [checkpoint_k], which returns the model lap [k]
    dumped, then the generation of its training set by that model (an
    exception may cut them short; in a lap that has succeeded all three
    are there). *)
Theorem laps_run_in_order {P V D St : Type}
    (ext : Train.externals P V D St) (laps : nat)
    (w : Train.world P V) (s : Train.sched P V) :
  Train.trace w = [] ->
  Train.scheduled ext (Train.main_jobs laps) w s ->
  (forall lap, (lap < laps)%nat ->
     Train.mkJob lap (if decide (0 < lap)%nat then [(lap - 1)%nat] else [])
     ∈ Train.main_jobs laps) /\
  (forall k, S k ∈ Train.started s -> k ∈ Train.succeeded s) /\
  (forall k, k ∈ Train.succeeded s ->
     exists i m,
       Train.trace (Train.sched_world s) !! i = Some (k, Train.DumpModule k m) /\
       Train.fs (Train.sched_world s) !! k = Some m) /\
  (forall k i e,
     Train.trace (Train.sched_world s) !! i = Some (S k, e) ->
     exists j m,
       (j < i)%nat /\
       Train.trace (Train.sched_world s) !! j = Some (k, Train.DumpModule k m) /\
       forall i' e',
         Train.trace (Train.sched_world s) !! i' = Some (S k, e') ->
         Train.from_checkpoint k m e') /\
  (forall k,
     Train.calls_of (S k) (Train.trace (Train.sched_world s)) = [] \/
     Train.calls_of (S k) (Train.trace (Train.sched_world s)) = [Train.Setup] \/
     exists m rest,
       Train.calls_of (S k) (Train.trace (Train.sched_world s))
       = Train.Setup :: Train.LoadModule k m :: rest /\
       (exists j,
          Train.trace (Train.sched_world s) !! j = Some (k, Train.DumpModule k m)) /\
       (rest = [] \/ exists rest', rest = Train.Generate m :: rest')) /\
  (forall k, S k ∈ Train.succeeded s ->
     exists m rest j,
       Train.calls_of (S k) (Train.trace (Train.sched_world s))
       = Train.Setup :: Train.LoadModule k m :: Train.Generate m :: rest /\
       Train.trace (Train.sched_world s) !! j = Some (k, Train.DumpModule k m)).
Proof.
  intros Hw Hs.
  destruct (sched_inv_scheduled ext laps w s Hw Hs)
    as (_ & _ & H1 & H2 & H3 & H4).
  assert (forall k,
     Train.calls_of (S k) (Train.trace (Train.sched_world s)) = [] \/
     Train.calls_of (S k) (Train.trace (Train.sched_world s)) = [Train.Setup] \/
     exists m rest,
       Train.calls_of (S k) (Train.trace (Train.sched_world s))
       = Train.Setup :: Train.LoadModule k m :: rest /\
       (exists j,
          Train.trace (Train.sched_world s) !! j = Some (k, Train.DumpModule k m)) /\
       (rest = [] \/ exists rest', rest = Train.Generate m :: rest')) as H5.
  { intros k. destruct (H4 k) as [Hk|[Hk|(m & rest & Hk & Hrest)]]; [auto|auto|].
    right. right. exists m, rest. split; [exact Hk|]. split; [|exact Hrest].
    assert (Train.LoadModule k m
            ∈ Train.calls_of (S k) (Train.trace (Train.sched_world s))) as Hin.
    { rewrite Hk. apply elem_of_cons. right. apply elem_of_cons. left. reflexivity. }
    apply calls_of_elem in Hin as [i Hi].
    destruct (H3 k i _ Hi) as (j & m' & _ & Hj & Hfrom).
    destruct (Hfrom i _ Hi) as [_ ->]. exists j. exact Hj. }
  split; [|split; [exact H1|split; [exact H2|split; [exact H3|split; [exact H5|]]]]].
  - intros lap Hlap. unfold Train.main_jobs. apply list_elem_of_fmap.
    exists lap. split; [reflexivity|]. apply elem_of_seq. lia.
  - intros k Hk. destruct (H2 _ Hk) as (i & m1 & Hi & _).
    apply calls_of_lookup in Hi.
    destruct (H5 k) as [Hc|[Hc|(m & rest & Hc & [j Hj] & Hrest)]].
    + rewrite Hc in Hi. apply elem_of_nil in Hi as [].
    + rewrite Hc in Hi. apply list_elem_of_singleton in Hi. discriminate.
    + destruct Hrest as [->|(rest' & ->)].
      * rewrite Hc in Hi. apply elem_of_cons in Hi as [Hi|Hi]; [discriminate|].
        apply list_elem_of_singleton in Hi. discriminate.
      * exists m, rest', j. split; [exact Hc|exact Hj].
Qed.

(** Both laps of a two-lap run, in order. *)
Lemma scheduled_two_laps :
  Train.scheduled ext_example (Train.main_jobs 2) world_empty sched_two_laps.
Proof.
  unfold Train.scheduled.
  eapply rtc_l.
  { apply (Train.run_job ext_example (Train.main_jobs 2) (Train.mkJob 0 [])
             (Train.mkSched [] [] world_empty) (Train.Done tt) world_lap0).
    - vm_compute. left.
    - simpl. apply not_elem_of_nil.
    - intros d Hd. apply elem_of_nil in Hd as [].
    - vm_compute. reflexivity. }
  eapply rtc_l; [|apply rtc_refl].
  apply (Train.run_job ext_example (Train.main_jobs 2) (Train.mkJob 1 [0%nat])
           (Train.mkSched [0%nat] [0%nat] world_lap0) (Train.Done tt) world_lap1).
  - vm_compute. right. left.
  - simpl. intros Hin. apply elem_of_cons in Hin as [Hin|Hin];
      [discriminate|apply elem_of_nil in Hin as []].
  - intros d Hd. apply elem_of_cons in Hd as [->|Hd];
      [left|apply elem_of_nil in Hd as []].
  - vm_compute. reflexivity.
Defined.

Lemma laps_run_in_order_witness :
  Train.trace world_empty = [] /\
  Train.scheduled ext_example (Train.main_jobs 2) world_empty sched_two_laps /\
  Train.calls_of 0 (Train.trace (Train.sched_world sched_two_laps))
  = [Train.Setup; Train.FitMoments;
     Train.Generate (Train.mkModel 1%nat None false);
     Train.Generate (Train.mkModel 1%nat None false);
     Train.MakeModel; Train.TrainMode true;
     Train.SgdStep true; Train.SgdStep true; Train.Validate true; Train.Log;
     Train.SgdStep true; Train.SgdStep true; Train.Validate true; Train.Log;
     Train.TrainMode false;
     Train.DumpModule 0 (Train.mkModel 8%nat (Some 2%nat) false)] /\
  Train.calls_of 1 (Train.trace (Train.sched_world sched_two_laps))
  = [Train.Setup;
     Train.LoadModule 0 (Train.mkModel 8%nat (Some 2%nat) false);
     Train.Generate (Train.mkModel 8%nat (Some 2%nat) false);
     Train.Generate (Train.mkModel 8%nat (Some 2%nat) false);
     Train.TrainMode true;
     Train.SgdStep true; Train.SgdStep true; Train.Validate true; Train.Log;
     Train.SgdStep true; Train.SgdStep true; Train.Validate true; Train.Log;
     Train.TrainMode false;
     Train.DumpModule 1 (Train.mkModel 12%nat (Some 18%nat) false)] /\
  (forall lap, (lap < 2)%nat ->
     Train.mkJob lap (if decide (0 < lap)%nat then [(lap - 1)%nat] else [])
     ∈ Train.main_jobs 2) /\
  (forall k, S k ∈ Train.started sched_two_laps -> k ∈ Train.succeeded sched_two_laps) /\
  (forall k, k ∈ Train.succeeded sched_two_laps ->
     exists i m,
       Train.trace (Train.sched_world sched_two_laps) !! i = Some (k, Train.DumpModule k m) /\
       Train.fs (Train.sched_world sched_two_laps) !! k = Some m) /\
  (forall k i e,
     Train.trace (Train.sched_world sched_two_laps) !! i = Some (S k, e) ->
     exists j m,
       (j < i)%nat /\
       Train.trace (Train.sched_world sched_two_laps) !! j = Some (k, Train.DumpModule k m) /\
       forall i' e',
         Train.trace (Train.sched_world sched_two_laps) !! i' = Some (S k, e') ->
         Train.from_checkpoint k m e') /\
  (forall k,
     Train.calls_of (S k) (Train.trace (Train.sched_world sched_two_laps)) = [] \/
     Train.calls_of (S k) (Train.trace (Train.sched_world sched_two_laps)) = [Train.Setup] \/
     exists m rest,
       Train.calls_of (S k) (Train.trace (Train.sched_world sched_two_laps))
       = Train.Setup :: Train.LoadModule k m :: rest /\
       (exists j,
          Train.trace (Train.sched_world sched_two_laps) !! j = Some (k, Train.DumpModule k m)) /\
       (rest = [] \/ exists rest', rest = Train.Generate m :: rest')) /\
  (forall k, S k ∈ Train.succeeded sched_two_laps ->
     exists m rest j,
       Train.calls_of (S k) (Train.trace (Train.sched_world sched_two_laps))
       = Train.Setup :: Train.LoadModule k m :: Train.Generate m :: rest /\
       Train.trace (Train.sched_world sched_two_laps) !! j = Some (k, Train.DumpModule k m)).
Proof.
  split; [reflexivity|]. split; [exact scheduled_two_laps|].
  split; [vm_compute; reflexivity|]. split; [vm_compute; reflexivity|].
  exact (laps_run_in_order ext_example 2 world_empty sched_two_laps
           eq_refl scheduled_two_laps).
Defined.

(** The calls of lap 0 of the small run. *)
Example train_lap0_trace :
  Train.trace (snd (Train.train ext_example 0 world_empty))
  = (fun e => (0%nat, e)) <$>
    [Train.Setup; Train.FitMoments;
     Train.Generate (Train.mkModel 1%nat None false);
     Train.Generate (Train.mkModel 1%nat None false);
     Train.MakeModel; Train.TrainMode true;
     Train.SgdStep true; Train.SgdStep true; Train.Validate true; Train.Log;
     Train.SgdStep true; Train.SgdStep true; Train.Validate true; Train.Log;
     Train.TrainMode false;
     Train.DumpModule 0 (Train.mkModel 8%nat (Some 2%nat) false)].
Proof. vm_compute. reflexivity. Qed.

(** A lap whose sixth call raises leaves the run directory empty. *)
Example train_lap0_raises :
  fst (Train.train ext_failing 0 world_empty) = Train.Raised /\
  Train.fs (snd (Train.train ext_failing 0 world_empty)) = ∅ /\
  length (Train.trace (snd (Train.train ext_failing 0 world_empty))) = 5%nat.
Proof. vm_compute. repeat split. Qed.

(** Lap 1 cannot run in an empty run directory: the load raises. *)
Example train_lap1_needs_checkpoint :
  fst (Train.train ext_example 1 world_empty) = Train.Raised.
Proof. vm_compute. reflexivity. Qed.
(* ===================================================================== *)
(** ** More on [UNet.__init__] and [UNet.__call__]                        *)
(* ===================================================================== *)

Section UNetErrors.
Variable cfg : UNetConfig.

(** [UNet.__init__] raises when [hid_channels] is shorter than
    [hid_blocks] (the [IndexError] of [hid_channels[i]]), and when a stage
    that has blocks is given zero attention heads (the
    [ZeroDivisionError] of [channels // heads]). *)
Theorem UNet_init_raises :
  (length (hid_channels cfg) < length (hid_blocks cfg))%nat \/
  (exists i blocks, hid_blocks cfg !! i = Some blocks /\ 0 < blocks /\
                    heads cfg !! Z.of_nat i = Some 0) ->
  UNet_init cfg = None.
Proof.
  intros H. destruct (UNet_init cfg) as [net|] eqn:Hinit; [exfalso|reflexivity].
  destruct H as [Hshort|(i & blocks & Hb & Hpos & Hh)].
  - destruct (lookup_lt_is_Some_2 (hid_blocks cfg) (length (hid_channels cfg)) Hshort)
      as [blocks Hb].
    destruct (UNet_init_stage cfg net _ blocks Hinit Hb) as (do & up & _ & _ & Hst).
    apply UNet_stage_exact in Hst as (c & Hc & _).
    apply lookup_lt_Some in Hc. lia.
  - destruct (UNet_init_stage cfg net i blocks Hinit Hb) as (do & up & _ & _ & Hst).
    apply UNet_stage_exact in Hst as (c & _ & _ & _ & Hheads).
    exact (Hheads Hpos 0 Hh eq_refl).
Qed.
End UNetErrors.

Lemma UNet_init_raises_witness :
  ((length (hid_channels cfg_short_channels)
    < length (hid_blocks cfg_short_channels))%nat \/
   (exists i blocks,
      hid_blocks cfg_short_channels !! i = Some blocks /\ 0 < blocks /\
      heads cfg_short_channels !! Z.of_nat i = Some 0)) /\
  UNet_init cfg_short_channels = None.
Proof.
  assert (length (hid_channels cfg_short_channels)
          < length (hid_blocks cfg_short_channels))%nat as H by (simpl; lia).
  split; [left; exact H|].
  apply (UNet_init_raises cfg_short_channels). left. exact H.
Defined.

Section UNetMemory.
Context {T E : Type}.
Variable add : T -> T -> T.
Variable call_xt : block -> T -> E -> T.
Variable call_x : block -> T -> T.

Lemma run_descent_length (stages : list (list block)) (x : array) (t : E)
      (memory : list (@array T)) (next : nat) :
  length (snd (fst (run_descent call_xt call_x stages x t memory next)))
  = (length stages + length memory)%nat.
Proof.
  revert x memory next. induction stages as [|blocks stages IH]; intros x memory next.
  - reflexivity.
  - simpl. destruct (run_blocks call_xt call_x blocks x t next) as [x' next'].
    rewrite IH. simpl. lia.
Qed.

Lemma run_ascent_None (stages : list (list block)) (x : array) (t : E)
      (memory : list (@array T)) (next : nat) :
  run_ascent add call_xt call_x stages x t memory next = None
  <-> (length memory < length stages)%nat.
Proof.
  revert x memory next. induction stages as [|blocks stages IH]; intros x memory next.
  - simpl. split; [discriminate|lia].
  - destruct memory as [|y memory]; simpl.
    + split; [lia|reflexivity].
    + destruct (decide (oid x = oid y)) as [_|_];
        match goal with
        | |- context [run_blocks _ _ ?bl ?a ?b ?c] =>
            destruct (run_blocks call_xt call_x bl a b c) as [x' next']
        end;
        rewrite IH; lia.
Qed.

(** [UNet.__call__] raises (the [IndexError] of [memory.pop()] on an empty
    list) exactly when the network has more ascending than descending
    stages; a surplus of descending stages goes unnoticed. *)
Theorem UNet_call_raises_iff (net : UNet) (x : T) (t : E) :
  UNet_call add call_xt call_x net x t = None
  <-> (length (descent net) < length (ascent net))%nat.
Proof.
  unfold UNet_call.
  pose proof (run_descent_length (descent net) (mkArray 0 x) t [] 1) as Hlen.
  destruct (run_descent call_xt call_x (descent net) (mkArray 0 x) t [] 1)
    as [[x' memory] next].
  simpl in Hlen. rewrite Nat.add_0_r in Hlen. rewrite <- Hlen.
  rewrite <- (run_ascent_None (ascent net) x' t memory next).
  destruct (run_ascent add call_xt call_x (ascent net) x' t memory next);
    simpl; split; congruence.
Qed.
End UNetMemory.

Section UNetCounts.
Variable cfg : UNetConfig.

Lemma stage_unit_count (i : nat) (c : Z) :
  length (filter (fun b => is_residual b = true) (stage_unit cfg i c)) = 1%nat /\
  length (filter (fun b => is_attention b = true) (stage_unit cfg i c))
  = (if in_heads cfg i then 1%nat else 0%nat).
Proof.
  unfold stage_unit, in_heads.
  destruct (heads cfg !! Z.of_nat i) as [h|] eqn:Hh.
  - rewrite bool_decide_eq_true_2 by eauto. split; reflexivity.
  - rewrite bool_decide_eq_false_2 by (intros [? ?]; discriminate). split; reflexivity.
Qed.

Lemma stage_body_count (i : nat) (c blocks : Z) :
  length (filter (fun b => is_residual b = true) (stage_body cfg i c blocks))
  = Z.to_nat blocks /\
  length (filter (fun b => is_attention b = true) (stage_body cfg i c blocks))
  = (if in_heads cfg i then Z.to_nat blocks else 0%nat).
Proof.
  unfold stage_body. destruct (stage_unit_count i c) as [Hr Ha].
  induction (Z.to_nat blocks) as [|n [IHr IHa]].
  - simpl. destruct (in_heads cfg i); auto.
  - rewrite mjoin_replicate_S, !filter_app, !length_app, Hr, Ha, IHr, IHa.
    destruct (in_heads cfg i); auto.
Qed.

Lemma UNet_stage_count (i : nat) (blocks : Z) (do up : list block) :
  UNet_stage cfg i blocks = Some (do, up) ->
  Forall (fun l =>
            length (filter (fun b => is_residual b = true) l) = Z.to_nat blocks /\
            length (filter (fun b => is_attention b = true) l)
            = (if in_heads cfg i then Z.to_nat blocks else 0%nat)) [do; up].
Proof.
  intros H. apply UNet_stage_exact in H as (c & _ & -> & -> & _).
  destruct (stage_body_count i c blocks) as [Hr Ha].
  repeat constructor.
  - destruct i, (in_heads cfg 0); simpl; exact Hr || (destruct (in_heads cfg _); exact Hr).
  - destruct i; simpl; destruct (in_heads cfg _); simpl; exact Ha.
  - rewrite filter_app, length_app, Hr. destruct i; simpl; lia.
  - rewrite filter_app, length_app, Ha. destruct i; simpl; lia.
Qed.

(** Counting over the stages [i0], [i0 + 1], ... *)
Lemma stages_count (f : block -> bool) (g : nat -> Z -> nat) (bl : list Z) :
  forall (i0 : nat) (ls : list (list block)),
    length ls = length bl ->
    (forall k b l, bl !! k = Some b -> ls !! k = Some l ->
                   length (filter (fun x => f x = true) l) = g (i0 + k)%nat b) ->
    length (filter (fun x => f x = true) (mjoin ls))
    = sum_list (imap (fun k => g (i0 + k)%nat) bl).
Proof.
  induction bl as [|b bl IH]; intros i0 [|l ls] Hlen Hk; simpl in Hlen; try lia.
  - reflexivity.
  - simpl. rewrite filter_app, length_app.
    rewrite (Hk 0%nat b l eq_refl eq_refl). f_equal.
    rewrite (IH (S i0) ls ltac:(lia)).
    + f_equal. apply imap_ext. intros k x _. simpl. f_equal. lia.
    + intros k b' l' Hb Hl. rewrite (Hk (S k) b' l' Hb Hl). f_equal. lia.
Qed.

(** A constructed network holds [hid_blocks[i]] residual blocks in each
    of the two lists of stage [i], each followed by an attention block
    when [i] is a key of [heads]: the descending and the ascending half
    both have [sum(hid_blocks)] residual blocks. *)
Theorem UNet_init_block_count (net : UNet) :
  UNet_init cfg = Some net ->
  Forall (fun half =>
            length (filter (fun b => is_residual b = true) (mjoin half))
            = sum_list (Z.to_nat <$> hid_blocks cfg) /\
            length (filter (fun b => is_attention b = true) (mjoin half))
            = sum_list (imap (fun i blocks =>
                                if in_heads cfg i then Z.to_nat blocks else 0%nat)
                             (hid_blocks cfg)))
         [descent net; ascent net].
Proof.
  intros Hinit. unfold UNet_init in Hinit.
  apply UNet_stages_layout in Hinit as (dos & ups & Hld & Hlu & Hd & Ha & Hk).
  simpl in Hd, Ha. rewrite app_nil_r in Ha. rewrite Hd, Ha.
  assert (forall ls : list (list block),
            length ls = length (hid_blocks cfg) ->
            (forall k b l, hid_blocks cfg !! k = Some b -> ls !! k = Some l ->
               exists do up, UNet_stage cfg k b = Some (do, up) /\ (l = do \/ l = up)) ->
            length (filter (fun b => is_residual b = true) (mjoin ls))
            = sum_list (Z.to_nat <$> hid_blocks cfg) /\
            length (filter (fun b => is_attention b = true) (mjoin ls))
            = sum_list (imap (fun i blocks =>
                                if in_heads cfg i then Z.to_nat blocks else 0%nat)
                             (hid_blocks cfg))) as Hhalf.
  { intros ls Hlen Hls. split.
    - rewrite <- (imap_const Z.to_nat).
      rewrite (stages_count is_residual (fun _ blocks => Z.to_nat blocks)
                 (hid_blocks cfg) 0 ls Hlen); [reflexivity|].
      intros k b l Hb Hl. destruct (Hls k b l Hb Hl) as (do & up & Hst & Hor).
      apply UNet_stage_count in Hst.
      inversion Hst as [|? ? [H1 _] Hst']; subst.
      inversion Hst' as [|? ? [H2 _] _]; subst.
      destruct Hor as [-> | ->]; assumption.
    - rewrite (stages_count is_attention
                 (fun i blocks => if in_heads cfg i then Z.to_nat blocks else 0%nat)
                 (hid_blocks cfg) 0 ls Hlen); [reflexivity|].
      intros k b l Hb Hl. destruct (Hls k b l Hb Hl) as (do & up & Hst & Hor).
      apply UNet_stage_count in Hst.
      inversion Hst as [|? ? [_ H1] Hst']; subst.
      inversion Hst' as [|? ? [_ H2] _]; subst.
      destruct Hor as [-> | ->]; assumption. }
  constructor; [|constructor; [|constructor]].
  - apply Hhalf; [exact Hld|]. intros k b l Hb Hl.
    destruct (Hk k b Hb) as (do & up & Hdo & _ & Hst). exists do, up.
    split; [exact Hst|]. left. congruence.
  - rewrite reverse_Permutation. apply Hhalf; [exact Hlu|]. intros k b l Hb Hl.
    destruct (Hk k b Hb) as (do & up & _ & Hup & Hst). exists do, up.
    split; [exact Hst|]. right. congruence.
Qed.
End UNetCounts.

Lemma UNet_init_block_count_witness :
  exists net,
    UNet_init cfg_cifar = Some net /\
    Forall (fun half =>
              length (filter (fun b => is_residual b = true) (mjoin half))
              = sum_list (Z.to_nat <$> hid_blocks cfg_cifar) /\
              length (filter (fun b => is_attention b = true) (mjoin half))
              = sum_list (imap (fun i blocks =>
                                  if in_heads cfg_cifar i then Z.to_nat blocks else 0%nat)
                               (hid_blocks cfg_cifar)))
           [descent net; ascent net].
Proof.
  destruct (UNet_init cfg_cifar) as [net|] eqn:Hinit; [|vm_compute in Hinit; discriminate].
  exists net. split; [reflexivity|].
  exact (UNet_init_block_count cfg_cifar net Hinit).
Defined.

Section UNetSurplus.
(** Two configurations that differ in [hid_channels] only. *)
Variables a b e : Z.
Variables hb ks : list Z.
Variable hd : gmap Z Z.
Variable d : option Q.
Variables hc1 hc2 : list Z.
Let cfg1 := mkUNetConfig a b hc1 hb ks e hd d.
Let cfg2 := mkUNetConfig a b hc2 hb ks e hd d.

Lemma stage_repeats_channels (i n : nat) (do up : list block) :
  hc1 !! i = hc2 !! i ->
  stage_repeats cfg1 i n do up = stage_repeats cfg2 i n do up.
Proof.
  intros Hi. revert do up. induction n as [|n IH]; intros do up; [reflexivity|].
  simpl. unfold new_ResBlock, new_AttBlock, in_heads. simpl. rewrite Hi.
  destruct (hc2 !! i) as [c|]; [|reflexivity]. simpl.
  destruct (bool_decide _); [|apply IH].
  destruct (hd !! Z.of_nat i) as [h|]; [|reflexivity]. simpl.
  destruct (decide (h = 0)); [reflexivity|]. simpl. apply IH.
Qed.

Lemma UNet_stage_channels (i : nat) (blocks : Z) :
  hc1 !! i = hc2 !! i -> hc1 !! (i - 1)%nat = hc2 !! (i - 1)%nat ->
  UNet_stage cfg1 i blocks = UNet_stage cfg2 i blocks.
Proof.
  intros Hi Hprev. unfold UNet_stage.
  rewrite (stage_repeats_channels i _ _ _ Hi).
  unfold in_heads. simpl.
  destruct (stage_repeats cfg2 i _ _ _) as [[do up]|]; [|reflexivity]. simpl.
  rewrite Hi, Hprev. reflexivity.
Qed.

Lemma UNet_stages_channels (bl : list Z) :
  forall (i : nat) (net : UNet),
    (forall k, (k < i + length bl)%nat -> hc1 !! k = hc2 !! k) ->
    UNet_stages cfg1 i bl net = UNet_stages cfg2 i bl net.
Proof.
  induction bl as [|blocks bl IH]; intros i net Hk; [reflexivity|].
  simpl in *. rewrite (UNet_stage_channels i blocks) by (apply Hk; lia).
  destruct (UNet_stage cfg2 i blocks) as [[do up]|]; [|reflexivity]. simpl.
  apply IH. intros k Hlt. apply Hk. lia.
Qed.
End UNetSurplus.

(** [UNet.__init__] reads [hid_channels] at the indices of [hid_blocks]
    only: the number of stages is [len(hid_blocks)], and two calls whose
    [hid_channels] agree on that prefix build the same network; channel
    counts beyond it are ignored without an error. *)
Theorem UNet_init_surplus_channels (cfg1 cfg2 : UNetConfig) :
  in_channels cfg1 = in_channels cfg2 -> out_channels cfg1 = out_channels cfg2 ->
  hid_blocks cfg1 = hid_blocks cfg2 -> kernel_size cfg1 = kernel_size cfg2 ->
  emb_features cfg1 = emb_features cfg2 -> heads cfg1 = heads cfg2 ->
  dropout cfg1 = dropout cfg2 ->
  take (length (hid_blocks cfg1)) (hid_channels cfg1)
  = take (length (hid_blocks cfg1)) (hid_channels cfg2) ->
  UNet_init cfg1 = UNet_init cfg2 /\
  forall net, UNet_init cfg1 = Some net ->
              length (descent net) = length (hid_blocks cfg1) /\
              length (ascent net) = length (hid_blocks cfg1).
Proof.
  intros H1 H2 H3 H4 H5 H6 H7 Htake.
  split; [|apply UNet_init_lengths].
  destruct cfg1 as [a1 b1 hc1 hb1 ks1 e1 hd1 d1], cfg2 as [a2 b2 hc2 hb2 ks2 e2 hd2 d2].
  simpl in *. subst. unfold UNet_init. simpl.
  apply UNet_stages_channels. intros k Hk. simpl in Hk.
  rewrite <- (lookup_take_lt hc1 (length hb2) k Hk).
  rewrite <- (lookup_take_lt hc2 (length hb2) k Hk).
  rewrite Htake. reflexivity.
Qed.

Lemma UNet_init_surplus_channels_witness :
  UNet_init cfg_surplus_channels = UNet_init cfg_exact_channels /\
  forall net, UNet_init cfg_surplus_channels = Some net ->
              length (descent net) = length (hid_blocks cfg_surplus_channels) /\
              length (ascent net) = length (hid_blocks cfg_surplus_channels).
Proof.
  apply (UNet_init_surplus_channels cfg_surplus_channels cfg_exact_channels);
    reflexivity.
Defined.
(* ===================================================================== *)
(** ** More on the FastMRI helpers                                        *)
(* ===================================================================== *)

Lemma ceil_60_div_range (r : Z) : r <> 0 -> -60 <= ceil_60_div r <= 60.
Proof.
  intros Hr. destruct (Z.lt_trichotomy r 0) as [Hneg|[?|Hpos]]; [|lia|].
  - unfold ceil_60_div.
    destruct (Z.leb_spec (60 * 2 ^ 1075) r) as [_|_]; [lia|].
    unfold ceil_div. change (Z.opp 60) with (Z.neg 60).
    assert (0 <= -60 / r)
      by (pose proof (Z.div_mod (-60) r ltac:(lia));
          pose proof (Z.mod_neg_bound (-60) r ltac:(lia)); nia).
    assert (-60 / r <= 60)
      by (pose proof (Z.div_mod (-60) r ltac:(lia));
          pose proof (Z.mod_neg_bound (-60) r ltac:(lia)); nia).
    lia.
  - pose proof (ceil_60_div_bounds r ltac:(lia)). lia.
Qed.



(** With [r = 4] and the draw [i / 320] for row [i], the rows below the
    threshold [200 / 1160] are the first 56, and the band is made of the
    30 rows from 145 to 174. *)
Example make_mask_r4_ramp :
  option_map
    (map (fun p : list (list bool) =>
            (fun row : list bool => if decide (row = [true]) then 1 else 0) <$> p))
    (make_mask 4 (fun i => inject_Z (Z.of_nat i) / 320)%Q)
  = Some [replicate 56 1 ++ replicate 89 0 ++ replicate 30 1 ++ replicate 145 0].
Proof. vm_compute. reflexivity. Qed.

(** The ends of the range of [r]: with [r = 1] the threshold is 1 and every
    row is sampled; with a negative [r] the threshold is negative and the
    slice is empty, so that no row is; [r = 0] raises
    ([ZeroDivisionError], from [60 / r]).  The draws are uniform on
    [0, 1). *)
Theorem make_mask_extremes (u : nat -> Q) :
  (forall i, (0 <= u i)%Q /\ (u i < 1)%Q) ->
  make_mask 0 u = None /\
  (exists A, make_mask 1 u = Some A /\
             forall i, (i < 320)%nat -> entry3 A 0 i 0 = Some true) /\
  (forall r, r < 0 ->
     exists A, make_mask r u = Some A /\
               forall i, (i < 320)%nat -> entry3 A 0 i 0 = Some false).
Proof.
  intros Hu. split; [reflexivity|]. split.
  - destruct (make_mask_entries 1 u ltac:(lia) (ceil_60_div_range 1 ltac:(lia)))
      as (A & HA & _ & Hrows).
    exists A. split; [exact HA|]. intros i Hi. rewrite (Hrows i Hi). f_equal.
    apply orb_true_iff. right. unfold Qltb. apply negb_true_iff.
    destruct (Qle_bool _ (u i)) eqn:Hle; [|reflexivity].
    apply Qle_bool_iff in Hle. destruct (Hu i) as [_ Hlt].
    exfalso. apply (Qlt_not_le _ _ Hlt). 
    eapply Qle_trans; [|exact Hle]. vm_compute. discriminate.
  - intros r Hr.
    destruct (make_mask_entries r u ltac:(lia) (ceil_60_div_range r ltac:(lia)))
      as (A & HA & _ & Hrows).
    exists A. split; [exact HA|]. intros i Hi. rewrite (Hrows i Hi). f_equal.
    apply orb_false_iff. split.
    + assert (ceil_60_div r <= 0) as Hc.
      { unfold ceil_60_div.
        destruct (Z.leb_spec (60 * 2 ^ 1075) r) as [_|_]; [lia|].
        unfold ceil_div. change (Z.opp 60) with (Z.neg 60).
        pose proof (Z.div_mod (-60) r ltac:(lia)).
        pose proof (Z.mod_neg_bound (-60) r ltac:(lia)). nia. }
      apply andb_false_iff.
      destruct (Z.leb_spec (160 - ceil_60_div r) (Z.of_nat i)); [right|left; reflexivity].
      apply Z.ltb_ge. lia.
    + unfold Qltb. apply negb_false_iff. apply Qle_bool_iff.
      destruct (Hu i) as [Hge _]. eapply Qle_trans; [|exact Hge].
      unfold Qle, Qdiv, Qmult, Qinv, inject_Z. simpl.
      destruct (320 * r - 120) as [|p|p] eqn:Hd; simpl; lia.
Qed.

Lemma make_mask_extremes_witness :
  make_mask 0 (fun _ => 1 # 2)%Q = None /\
  (exists A, make_mask 1 (fun _ => 1 # 2)%Q = Some A /\
             forall i, (i < 320)%nat -> entry3 A 0 i 0 = Some true) /\
  (forall r, r < 0 ->
     exists A, make_mask r (fun _ => 1 # 2)%Q = Some A /\
               forall i, (i < 320)%nat -> entry3 A 0 i 0 = Some false).
Proof.
  apply (make_mask_extremes (fun _ => 1 # 2)%Q).
  intros _. split; vm_compute; discriminate || reflexivity.
Defined.

Section Shifts.
Context {X : Type}.

Lemma fftshift_ifftshift (l : list X) : fftshift (ifftshift l) = l.
Proof.
  unfold fftshift, ifftshift.
  pose proof (Nat.Div0.div_le_upper_bound (length l) 2 (length l) ltac:(lia)) as Hh.
  set (h := (length l / 2)%nat) in *.
  rewrite length_app, length_drop, length_take.
  replace (length l - h + h `min` length l)%nat with (length l) by lia.
  rewrite drop_app_length' by (rewrite length_drop; lia).
  rewrite take_app_length' by (rewrite length_drop; lia).
  apply take_drop.
Qed.

Lemma ifftshift_fftshift (l : list X) : ifftshift (fftshift l) = l.
Proof.
  unfold fftshift, ifftshift.
  pose proof (Nat.Div0.div_le_upper_bound (length l) 2 (length l) ltac:(lia)) as Hh.
  set (h := (length l / 2)%nat) in *.
  rewrite length_app, length_drop, length_take.
  replace (length l - (length l - h) + (length l - h) `min` length l)%nat
    with (length l) by lia.
  fold h.
  rewrite drop_app_length' by (rewrite length_drop; lia).
  rewrite take_app_length' by (rewrite length_drop; lia).
  apply take_drop.
Qed.
End Shifts.

Section Centred.
Context {A Norm : Type}.
Variable fft2 ifft2 : Norm -> list (list A) -> list (list A).

Lemma fftshift2_ifftshift2 (x : list (list A)) : fftshift2 (ifftshift2 x) = x.
Proof.
  unfold fftshift2, ifftshift2.
  assert (forall l : list (list A), fftshift <$> ifftshift l = ifftshift (fftshift <$> l))
    as Hcomm.
  { intros l. unfold ifftshift.
    rewrite fmap_app, fmap_drop, fmap_take, length_fmap. reflexivity. }
  rewrite Hcomm, fftshift_ifftshift, <- list_fmap_compose.
  rewrite <- (list_fmap_id x) at 2. apply list_fmap_ext.
  intros i l _. apply fftshift_ifftshift.
Qed.

Lemma ifftshift2_fftshift2 (x : list (list A)) : ifftshift2 (fftshift2 x) = x.
Proof.
  unfold fftshift2, ifftshift2.
  assert (forall l : list (list A), ifftshift <$> fftshift l = fftshift (ifftshift <$> l))
    as Hcomm.
  { intros l. unfold fftshift.
    rewrite fmap_app, fmap_drop, fmap_take, length_fmap. reflexivity. }
  rewrite Hcomm, ifftshift_fftshift, <- list_fmap_compose.
  rewrite <- (list_fmap_id x) at 2. apply list_fmap_ext.
  intros i l _. apply ifftshift_fftshift.
Qed.

(** [ifft2c] undoes [fft2c], and [fft2c] undoes [ifft2c], for axes of any
    length, odd ones included: the shift applied after one transform and
    the one applied before the other cancel, and what is left is the
    library's [ifft2] after [fft2] (or the converse) on the shifted
    array. *)
Theorem fft2c_ifft2c_inverse (x k : list (list A)) (norm : Norm) :
  ifft2 norm (fft2 norm (ifftshift2 x)) = ifftshift2 x ->
  fft2 norm (ifft2 norm (ifftshift2 k)) = ifftshift2 k ->
  ifft2c ifft2 (fft2c fft2 x norm) norm = x /\
  fft2c fft2 (ifft2c ifft2 k norm) norm = k.
Proof.
  intros Hx Hk. unfold fft2c, ifft2c.
  rewrite !ifftshift2_fftshift2, Hx, Hk, !fftshift2_ifftshift2. auto.
Qed.
End Centred.

Lemma fft2c_ifft2c_inverse_witness :
  ifft2c idft_2x2 (fft2c dft_2x2 [[1; 2]; [3; 4]] tt) tt = [[1; 2]; [3; 4]] /\
  fft2c dft_2x2 (ifft2c idft_2x2 [[10; -2]; [-4; 0]] tt) tt = [[10; -2]; [-4; 0]].
Proof.
  apply (fft2c_ifft2c_inverse dft_2x2 idft_2x2); vm_compute; reflexivity.
Defined.
(* ===================================================================== *)
(** ** The rearrangements of [FlatUNet.__call__]                          *)
(* ===================================================================== *)

Section Chunks.
Context {X : Type}.

Lemma join_slices (n m : nat) (l : list X) :
  mjoin ((fun k => take n (drop (k * n) l)) <$> seq 0 m) = take (m * n) l.
Proof.
  induction m as [|m IH]; [reflexivity|].
  rewrite seq_S, fmap_app, join_app, IH. simpl. rewrite app_nil_r.
  rewrite take_take_drop. f_equal. lia.
Qed.

Lemma join_chunks (n k : nat) (l : list X) :
  (0 < n)%nat -> length l = (k * n)%nat -> mjoin (FastMRI.chunks n l) = l.
Proof.
  intros Hn Hlen. unfold FastMRI.chunks. rewrite join_slices, Hlen.
  rewrite Nat.div_mul by lia. rewrite <- Hlen. apply take_ge. lia.
Qed.

Lemma chunks_lookup (n k i : nat) (l c : list X) :
  (0 < n)%nat -> length l = (k * n)%nat ->
  FastMRI.chunks n l !! i = Some c ->
  (i < k)%nat /\ c = take n (drop (i * n) l) /\ length c = n.
Proof.
  intros Hn Hlen Hc. unfold FastMRI.chunks in Hc.
  rewrite list_lookup_fmap, Hlen, Nat.div_mul in Hc by lia.
  destruct (seq 0 k !! i) as [j|] eqn:Hj; [|discriminate].
  apply lookup_seq in Hj as [-> Hik]. simpl in Hc. injection Hc as <-.
  repeat split; [exact Hik|].
  rewrite length_take, length_drop. nia.
Qed.

Lemma drop_join (C a : nat) (ps : list (list X)) :
  Forall (fun p => length p = C) ps ->
  drop (a * C) (mjoin ps) = mjoin (drop a ps).
Proof.
  intros Hps. revert a. induction Hps as [|p ps Hp Hps IH]; intros a.
  - rewrite drop_nil. simpl. apply drop_nil.
  - destruct a as [|a]; [reflexivity|]. simpl.
    rewrite <- Hp at 1. rewrite drop_app_add'; [|reflexivity]. apply IH.
Qed.

Lemma take_join (C n : nat) (ps : list (list X)) :
  Forall (fun p => length p = C) ps ->
  take (n * C) (mjoin ps) = mjoin (take n ps).
Proof.
  intros Hps. revert n. induction Hps as [|p ps Hp Hps IH]; intros n.
  - rewrite take_nil. simpl. apply take_nil.
  - destruct n as [|n]; [reflexivity|]. simpl.
    rewrite <- Hp at 1. rewrite take_app_add'; [|reflexivity]. rewrite IH.
    reflexivity.
Qed.

(** The [k]-th of the equally long pieces of a concatenation. *)
Lemma join_piece (C k : nat) (ps : list (list X)) (p : list X) :
  Forall (fun p => length p = C) ps ->
  ps !! k = Some p ->
  take C (drop (k * C) (mjoin ps)) = p.
Proof.
  intros Hps Hk. rewrite (drop_join C k ps Hps).
  assert (Forall (fun p => length p = C) (drop k ps)) as Hd by (apply Forall_drop; exact Hps).
  replace C with (1 * C)%nat at 1 by lia. rewrite (take_join C 1 _ Hd).
  rewrite (drop_S _ _ _ Hk). simpl. apply app_nil_r.
Qed.

Lemma join_pieces (C a n : nat) (ps : list (list X)) :
  Forall (fun p => length p = C) ps ->
  (a + n <= length ps)%nat ->
  (fun w => take C (drop ((a + w) * C) (mjoin ps))) <$> seq 0 n = take n (drop a ps).
Proof.
  intros Hps Hlen. apply list_eq. intros i.
  rewrite list_lookup_fmap. destruct (decide (i < n)%nat) as [Hi|Hi].
  - rewrite lookup_seq_lt by lia. simpl.
    rewrite lookup_take_lt by lia. rewrite lookup_drop.
    destruct (lookup_lt_is_Some_2 ps (a + i) ltac:(lia)) as [p Hp].
    rewrite Hp. f_equal. apply join_piece; assumption.
  - rewrite lookup_seq_ge by lia. simpl.
    symmetry. apply lookup_ge_None. rewrite length_take, length_drop. lia.
Qed.
End Chunks.

Section RearrangeRoundTrip.
Context {A : Type}.

Lemma length_join_const {X} (C : nat) (ps : list (list X)) :
  Forall (fun p => length p = C) ps -> length (mjoin ps) = (length ps * C)%nat.
Proof.
  induction 1 as [|p ps Hp _ IH]; [reflexivity|].
  simpl. rewrite length_app, IH, Hp. reflexivity.
Qed.

Section Group.
(** Four rows of [4 W] pixels of [C] channels. *)
Variable g : list (list (list A)).
Variables W C : nat.
Hypothesis Hg : length g = 4%nat.
Hypothesis Hrows :
  Forall (fun r => length r = (4 * W)%nat /\ Forall (fun px => length px = C) r) g.

Let R (J : nat) : list (list (list A)) :=
  (fun r : list (list A) => take 4 (drop (J * 4) r)) <$> g.

Lemma group_width : (length (hd [] g) / 4 = W)%nat.
Proof.
  pose proof Hrows as Hr. pose proof Hg as Hg4.
  destruct g as [|r g']; [discriminate|].
  apply Forall_cons_1 in Hr as [[Hr _] _].
  cbn [hd]. rewrite Hr, Nat.mul_comm. apply Nat.div_mul. lia.
Qed.

Lemma group_pieces (J : nat) :
  (J < W)%nat ->
  length (R J) = 4%nat /\
  Forall (fun p => length p = 4%nat) (R J) /\
  Forall (fun px => length px = C) (mjoin (R J)) /\
  length (mjoin (R J)) = 16%nat.
Proof.
  intros HJ. unfold R.
  assert (Forall (fun p : list (list A) => length p = 4%nat)
                 ((fun r : list (list A) => take 4 (drop (J * 4) r)) <$> g)) as H4.
  { apply Forall_fmap. eapply Forall_impl; [exact Hrows|].
    intros r [Hr _]. simpl. rewrite length_take, length_drop. lia. }
  repeat split.
  - rewrite length_fmap. exact Hg.
  - exact H4.
  - apply Forall_join, Forall_fmap. eapply Forall_impl; [exact Hrows|].
    intros r [_ Hc]. simpl. apply Forall_take, Forall_drop. exact Hc.
  - rewrite (length_join_const 4 _ H4), length_fmap, Hg. reflexivity.
Qed.

Lemma space_to_depth_row_shape :
  length (FastMRI.space_to_depth_row g) = W /\
  Forall (fun px => length px = (16 * C)%nat) (FastMRI.space_to_depth_row g).
Proof.
  unfold FastMRI.space_to_depth_row. rewrite group_width. split.
  - rewrite length_fmap, length_seq. reflexivity.
  - apply Forall_fmap, Forall_forall. intros J HJ.
    apply elem_of_seq in HJ. simpl.
    destruct (group_pieces J ltac:(lia)) as (_ & _ & Hc & H16).
    fold (R J). rewrite (length_join_const C _ Hc), H16. reflexivity.
Qed.

Lemma depth_to_space_row_inverse :
  FastMRI.depth_to_space_row (FastMRI.space_to_depth_row g) = g.
Proof.
  unfold FastMRI.depth_to_space_row, FastMRI.space_to_depth_row.
  rewrite group_width. apply list_eq. intros h.
  rewrite list_lookup_fmap. destruct (decide (h < 4)%nat) as [Hh|Hh].
  2:{ rewrite lookup_seq_ge by lia. simpl. symmetry.
      apply lookup_ge_None. lia. }
  rewrite lookup_seq_lt by lia. cbn [fmap option_fmap option_map Nat.add].
  destruct (lookup_lt_is_Some_2 g h ltac:(lia)) as [r Hr]. rewrite Hr. f_equal.
  rewrite <- list_fmap_compose.
  assert (length r = (4 * W)%nat) as Hlen.
  { eapply Forall_lookup_1 in Hrows; [|exact Hr]. tauto. }
  transitivity (mjoin ((fun J => take 4 (drop (J * 4) r)) <$> seq 0 W)).
  - f_equal. apply list_fmap_ext. intros i J HJ.
    apply lookup_seq in HJ as [-> HJ]. cbn [Nat.add]. cbv beta.
    destruct (group_pieces i HJ) as (HR4 & H4 & Hc & H16).
    unfold compose. cbv beta. fold (R i). rewrite (length_join_const C _ Hc), H16.
    replace (16 * C / 16)%nat with C
      by (rewrite Nat.mul_comm, Nat.div_mul; lia).
    rewrite (join_pieces C (h * 4) 4 (mjoin (R i)) Hc) by lia.
    apply (join_piece 4 h (R i)); [exact H4|].
    unfold R. rewrite list_lookup_fmap, Hr. reflexivity.
  - rewrite join_slices. apply take_ge. lia.
Qed.
End Group.

(** The second rearrangement of [FlatUNet.__call__] undoes the first: an
    array of shape (4 H, 4 W, C) becomes one of shape (H, W, 16 C), which
    the second pattern turns back into the array. *)
Theorem depth_to_space_space_to_depth (x : list (list (list A))) (H W C : nat) :
  has_shape3 (4 * H) (4 * W) C x ->
  exists y, FastMRI.space_to_depth x = Some y /\
            has_shape3 H W (16 * C) y /\
            FastMRI.depth_to_space y = Some x.
Proof.
  intros [Hlen Hx].
  assert (length x = (H * 4)%nat) as Hlen' by lia.
  assert (forall i g, FastMRI.chunks 4 x !! i = Some g ->
            length g = 4%nat /\
            Forall (fun r => length r = (4 * W)%nat /\
                             Forall (fun px => length px = C) r) g) as Hgroups.
  { intros i g Hg.
    apply (chunks_lookup 4 H) in Hg as (_ & -> & Hg4); [|lia|exact Hlen'].
    split; [exact Hg4|]. apply Forall_take, Forall_drop. exact Hx. }
  unfold FastMRI.space_to_depth. rewrite decide_True.
  2:{ split.
      - rewrite Hlen, Nat.mul_comm. apply Nat.Div0.mod_mul.
      - eapply Forall_impl; [exact Hx|]. intros r [-> _].
        rewrite Nat.mul_comm. apply Nat.Div0.mod_mul. }
  eexists. split; [reflexivity|]. split; [split|].
  - unfold FastMRI.chunks. rewrite !length_fmap, length_seq, Hlen'.
    apply Nat.div_mul. lia.
  - apply Forall_fmap, Forall_forall. intros g Hin.
    apply list_elem_of_lookup in Hin as [i Hi].
    destruct (Hgroups i g Hi) as [Hg4 Hrows]. simpl.
    exact (space_to_depth_row_shape g W C Hg4 Hrows).
  - unfold FastMRI.depth_to_space. rewrite decide_True.
    2:{ apply Forall_fmap, Forall_forall. intros g Hin.
        apply list_elem_of_lookup in Hin as [i Hi].
        destruct (Hgroups i g Hi) as [Hg4 Hrows]. cbv beta.
        destruct (space_to_depth_row_shape g W C Hg4 Hrows) as [_ Hpx].
        eapply Forall_impl; [exact Hpx|]. intros px ->. cbv beta.
        rewrite Nat.mul_comm. apply Nat.Div0.mod_mul. }
    f_equal. rewrite <- list_fmap_compose.
    rewrite <- (join_chunks 4 H x ltac:(lia) Hlen') at 2. f_equal.
    rewrite <- (list_fmap_id (FastMRI.chunks 4 x)) at 2.
    apply list_fmap_ext. intros i g Hi.
    destruct (Hgroups i g Hi) as [Hg4 Hrows]. simpl.
    exact (depth_to_space_row_inverse g W C Hg4 Hrows).
Qed.
End RearrangeRoundTrip.

Lemma depth_to_space_space_to_depth_witness :
  exists y, FastMRI.space_to_depth image_4x4 = Some y /\
            has_shape3 1 1 (16 * 1) y /\
            FastMRI.depth_to_space y = Some image_4x4.
Proof.
  apply (depth_to_space_space_to_depth image_4x4 1 1 1).
  split; [reflexivity|]. repeat constructor.
Defined.

(** The first pattern gathers a 4 x 4 patch row by row. *)
Example space_to_depth_image_4x4 :
  FastMRI.space_to_depth image_4x4
  = Some [[[0; 1; 2; 3; 4; 5; 6; 7; 8; 9; 10; 11; 12; 13; 14; 15]]].
Proof. vm_compute. reflexivity. Qed.

Section FlatUNetShape.
Variable unflatten : Z -> Z -> option Shape.shape -> option Shape.shape.
Variable flatten : option Shape.shape -> option Shape.shape.

Lemma reverse_app_hwc (bs : list Z) (h w c : Z) :
  reverse (bs ++ [h; w; c]) = c :: w :: h :: reverse bs.
Proof. rewrite reverse_app. reflexivity. Qed.

Lemma space_to_depth_shape_hwc (bs : list Z) (h w c : Z) :
  FastMRI.space_to_depth_shape (Some (bs ++ [4 * h; 4 * w; c]))
  = Some (bs ++ [h; w; 16 * c]).
Proof.
  unfold FastMRI.space_to_depth_shape. cbn [mbind option_bind].
  rewrite reverse_app_hwc.
  rewrite decide_True
    by (split; rewrite Z.mul_comm; apply Z.mod_mul; lia).
  rewrite reverse_involutive.
  rewrite !(Z.mul_comm 4), !Z.div_mul by lia. reflexivity.
Qed.

Lemma depth_to_space_shape_hwc (bs : list Z) (h w c : Z) :
  FastMRI.depth_to_space_shape (Some (bs ++ [h; w; 16 * c]))
  = Some (bs ++ [4 * h; 4 * w; c]).
Proof.
  unfold FastMRI.depth_to_space_shape. cbn [mbind option_bind].
  rewrite reverse_app_hwc.
  rewrite decide_True by (rewrite Z.mul_comm; apply Z.mod_mul; lia).
  rewrite reverse_involutive.
  rewrite (Z.mul_comm 16), Z.div_mul by lia. reflexivity.
Qed.

(** [FlatUNet] on the network of [make_model]: with one to five stages,
    odd kernel sizes and a multiple of four channels at the stages with
    attention, a batch of flat 320 x 320 images comes back with its
    shape; between the two reshapes the network works on 80 x 80 images
    of 16 channels. *)
Theorem FlatUNet_call_shape (hc hb ks : list Z) (e : Z) (hd : gmap Z Z) (d : option Q)
        (net : UNet) (a b : Z) (bs : list Z) :
  FastMRI.make_model hc hb ks e hd d = Some net ->
  ks = [2 * a + 1; 2 * b + 1] -> 0 <= a -> 0 <= b ->
  (1 <= length hb <= 5)%nat ->
  (forall i c, is_Some (hd !! Z.of_nat i) -> hc !! i = Some c -> c mod 4 = 0) ->
  unflatten 320 320 (Some (bs ++ [320 * 320 * 1])) = Some (bs ++ [320; 320; 1]) ->
  flatten (Some (bs ++ [320; 320; 1])) = Some (bs ++ [320 * 320 * 1]) ->
  FastMRI.FlatUNet_call unflatten flatten net (bs ++ [320 * 320 * 1]) (bs ++ [e])
  = Some (bs ++ [320 * 320 * 1]).
Proof.
  intros Hinit Hks Ha Hb Hn Hpos Hun Hfl.
  unfold FastMRI.make_model in Hinit.
  set (cfg := mkUNetConfig 16 16 hc hb ks e hd d) in *.
  assert (exists h0, 0 <= h0 /\ 80 = h0 * 2 ^ Z.of_nat (length (hid_blocks cfg) - 1 - 0))
    as (h0 & Hh0 & Hside).
  { simpl. destruct (length hb) as [|[|[|[|[|[|n]]]]]]; try lia.
    - exists 80. split; [lia|reflexivity].
    - exists 40. split; [lia|reflexivity].
    - exists 20. split; [lia|reflexivity].
    - exists 10. split; [lia|reflexivity].
    - exists 5. split; [lia|reflexivity]. }
  pose proof (UNet_call_shape cfg net a b h0 h0 bs Hinit Hks Ha Hb Hh0 Hh0) as Hcall.
  cbv beta zeta in Hcall. rewrite <- Hside in Hcall.
  change (in_channels cfg) with 16 in Hcall.
  change (out_channels cfg) with 16 in Hcall.
  change (emb_features cfg) with e in Hcall.
  assert (Shape.UNet_call net (bs ++ [80; 80; 16]) (bs ++ [e])
          = Some (bs ++ [80; 80; 16])) as Hnet.
  { apply Hcall; [|simpl; lia].
    intros i c Hin Hc. apply (Hpos i c); [|exact Hc].
    apply in_heads_lookup in Hin. exact Hin. }
  unfold FastMRI.FlatUNet_call.
  match goal with
  | |- flatten (_ (mbind _ (_ ?u))) = _ =>
      replace u with (Some (bs ++ [4 * 80; 4 * 80; 1])) by (symmetry; exact Hun)
  end.
  rewrite space_to_depth_shape_hwc. cbn [mbind option_bind].
  match goal with
  | |- flatten (_ ?u) = _ =>
      replace u with (Some (bs ++ [80; 80; 16 * 1])) by (symmetry; exact Hnet)
  end.
  rewrite depth_to_space_shape_hwc. exact Hfl.
Qed.
End FlatUNetShape.

Lemma FlatUNet_call_shape_witness :
  exists net,
    FastMRI.make_model [64; 128; 256] [3; 3; 3] [3; 3] 256 {[ 2 := 1 ]} None = Some net /\
    FastMRI.FlatUNet_call unflatten_shape flatten_shape net
      ([8] ++ [320 * 320 * 1]) ([8] ++ [256])
    = Some ([8] ++ [320 * 320 * 1]).
Proof.
  destruct (FastMRI.make_model [64; 128; 256] [3; 3; 3] [3; 3] 256 {[ 2 := 1 ]} None)
    as [net|] eqn:Hinit; [|vm_compute in Hinit; discriminate].
  exists net. split; [reflexivity|].
  refine (FlatUNet_call_shape unflatten_shape flatten_shape
            [64; 128; 256] [3; 3; 3] [3; 3] 256 {[ 2 := 1 ]} None net 1 1 [8]
            Hinit _ _ _ _ _ _ _).
  - reflexivity.
  - lia.
  - lia.
  - simpl. lia.
  - intros i c Hin Hc.
    destruct i as [|[|[|i]]]; try (vm_compute in Hc; discriminate);
      vm_compute in Hc; injection Hc as <-; reflexivity.
  - vm_compute. reflexivity.
  - vm_compute. reflexivity.
Defined.
(* ===================================================================== *)
(** ** The layers of [MLP]                                                *)
(* ===================================================================== *)

Section MLPLayers.
Context {W : Type}.
Variable init_weight : Z -> Z -> nat -> W.
Variable init_bias : Z -> nat -> W.
Variable activation : nn.layer W.

Lemma MLP_extend_app (pairs : list (Z * Z)) (normalize : bool) (rng : nat)
      (layers : list (option (nn.layer W))) :
  MLP_extend init_weight init_bias activation pairs normalize rng layers
  = (layers ++ fst (MLP_extend init_weight init_bias activation pairs normalize rng []),
     snd (MLP_extend init_weight init_bias activation pairs normalize rng [])).
Proof.
  revert rng layers. induction pairs as [|[before after] rest IH]; intros rng layers.
  - simpl. rewrite app_nil_r. reflexivity.
  - simpl. rewrite IH. rewrite (IH _ [_; _; _]). simpl.
    rewrite <- app_assoc. reflexivity.
Qed.

Lemma MLP_extend_length (pairs : list (Z * Z)) (normalize : bool) (rng : nat) :
  length (fst (MLP_extend init_weight init_bias activation pairs normalize rng []))
  = (3 * length pairs)%nat /\
  snd (MLP_extend init_weight init_bias activation pairs normalize rng [])
  = (rng + length pairs)%nat.
Proof.
  revert rng. induction pairs as [|[before after] rest IH]; intros rng.
  - simpl. lia.
  - simpl. rewrite MLP_extend_app. simpl. destruct (IH (S rng)) as [-> ->]. lia.
Qed.

Lemma MLP_init_layers (in_features out_features : Z) (hid_features : list Z)
        (normalize : bool) (rng : nat) :
  MLP_init init_weight init_bias activation
           in_features out_features hid_features normalize rng
  = (MLP_layout init_weight init_bias activation
                in_features hid_features out_features normalize rng,
     (rng + length hid_features + 1)%nat).
Proof.
  unfold MLP_init.
  revert in_features rng.
  induction hid_features as [|h hid IH]; intros in_features rng.
  - simpl. destruct normalize; f_equal; lia.
  - specialize (IH h (S rng)).
    change (zip (in_features :: h :: hid) ((h :: hid) ++ [out_features]))
      with ((in_features, h) :: zip (h :: hid) (hid ++ [out_features])).
    cbn [MLP_extend nn.new_Linear app].
    rewrite MLP_extend_app.
    destruct (MLP_extend init_weight init_bias activation
                (zip (h :: hid) (hid ++ [out_features])) normalize (S rng) [])
      as [rest rng'] eqn:Hrest.
    pose proof (MLP_extend_length (zip (h :: hid) (hid ++ [out_features]))
                  normalize (S rng)) as [Hlen Hrng].
    rewrite Hrest in Hlen, Hrng. cbn [fst snd] in *.
    assert (length (zip (h :: hid) (hid ++ [out_features])) = S (length hid)) as Hzip.
    { rewrite length_zip_with, length_app. cbn [length]. lia. }
    rewrite Hzip in Hlen, Hrng.
    injection IH as IHl IHr.
    cbn [MLP_layout length].
    f_equal; [|lia].
    rewrite length_app. cbn [length].
    replace (3 + length rest - 2)%nat with (3 + (length rest - 2))%nat by lia.
    rewrite take_app_add' by reflexivity.
    rewrite omap_app, IHl.
    destruct normalize; reflexivity.
Qed.

Lemma MLP_layout_length (in_features out_features : Z) (hid_features : list Z)
      (normalize : bool) (rng : nat) :
  length (MLP_layout init_weight init_bias activation
                     in_features hid_features out_features normalize rng)
  = ((if normalize then 3 else 2) * length hid_features + 1)%nat.
Proof.
  revert in_features rng. induction hid_features as [|h hid IH]; intros i rng.
  - simpl. destruct normalize; reflexivity.
  - cbn [MLP_layout length]. rewrite length_app, IH.
    destruct normalize; simpl; lia.
Qed.

Lemma MLP_layout_last (in_features out_features : Z) (hid_features : list Z)
      (normalize : bool) (rng : nat) :
  exists d w b,
    last (MLP_layout init_weight init_bias activation
                     in_features hid_features out_features normalize rng)
    = Some (nn.Linear d out_features w b) /\
    last (in_features :: hid_features) = Some d.
Proof.
  revert in_features rng. induction hid_features as [|h hid IH]; intros i rng.
  - simpl. eauto.
  - destruct (IH h (S rng)) as (d & w & b & Hlast & Hd).
    exists d, w, b. split.
    + cbn [MLP_layout]. rewrite !last_cons, last_app, Hlast. reflexivity.
    + rewrite last_cons, Hd. reflexivity.
Qed.

(** The constructor builds the perceptron its documentation describes:
    cutting the last two entries off the list of triples takes the
    activation and the normalisation away from the last linear layer, and
    from it only.  There are two layers per hidden width (three with
    [normalize]) and one more, the last one is the linear layer from the
    last width into [out_features], and one key is split per linear
    layer. *)
Theorem MLP_init_layout (in_features out_features : Z) (hid_features : list Z)
        (normalize : bool) (rng : nat) :
  let layers :=
    fst (MLP_init init_weight init_bias activation
                  in_features out_features hid_features normalize rng) in
  layers = MLP_layout init_weight init_bias activation
                      in_features hid_features out_features normalize rng /\
  length layers = ((if normalize then 3 else 2) * length hid_features + 1)%nat /\
  (exists d w b, last layers = Some (nn.Linear d out_features w b) /\
                 last (in_features :: hid_features) = Some d) /\
  snd (MLP_init init_weight init_bias activation
                in_features out_features hid_features normalize rng)
  = (rng + length hid_features + 1)%nat.
Proof.
  intros layers. unfold layers. rewrite MLP_init_layers. cbn [fst snd].
  split; [reflexivity|]. split; [apply MLP_layout_length|].
  split; [apply MLP_layout_last|reflexivity].
Qed.
End MLPLayers.

Section MLPShape.
Import Shape.
Variable activation : nn.layer unit.
Hypothesis activation_shape : forall s, layer_call activation (Some s) = Some s.

Lemma Sequential_call_None (layers : list (nn.layer unit)) :
  nn.Sequential_call layer_call layers None = None.
Proof. induction layers as [|l layers IH]; [reflexivity|exact IH]. Qed.

Lemma MLP_layout_shape (bs : list Z) (out_features : Z) (hid_features : list Z)
      (normalize : bool) :
  forall (in_features : Z) (rng : nat),
    nn.Sequential_call layer_call
      (MLP_layout unit_weight unit_bias activation
                  in_features hid_features out_features normalize rng)
      (Some (bs ++ [in_features]))
    = Some (bs ++ [out_features]).
Proof.
  induction hid_features as [|h hid IH]; intros i rng.
  - cbn [MLP_layout]. unfold nn.Sequential_call. cbn [fold_left].
    apply layer_call_Linear.
  - cbn [MLP_layout]. unfold nn.Sequential_call. cbn [fold_left].
    rewrite layer_call_Linear, activation_shape, fold_left_app.
    destruct normalize; cbn [fold_left]; [rewrite layer_call_pointwise by exact I|];
      apply IH.
Qed.

Lemma layer_call_Linear_mismatch (bs : list Z) (i o d : Z) (wt bi : unit) :
  d <> i -> layer_call (nn.Linear i o wt bi) (Some (bs ++ [d])) = None.
Proof.
  intros Hd. unfold layer_call, on_spatial. cbn [mbind option_bind].
  rewrite reverse_app. cbn [reverse app]. simpl.
  rewrite bool_decide_eq_false_2 by exact Hd. reflexivity.
Qed.

(** A perceptron whose activation keeps the shape of its input maps an
    array with [in_features] entries along its last axis to one with
    [out_features] entries there, whatever the leading axes; any other
    length of the last axis raises (in the first linear layer). *)
Theorem MLP_call_shape (bs : list Z) (in_features out_features d : Z)
        (hid_features : list Z) (normalize : bool) (rng : nat) :
  let layers :=
    fst (MLP_init unit_weight unit_bias activation
                  in_features out_features hid_features normalize rng) in
  nn.Sequential_call layer_call layers (Some (bs ++ [in_features]))
  = Some (bs ++ [out_features]) /\
  (d <> in_features ->
   nn.Sequential_call layer_call layers (Some (bs ++ [d])) = None).
Proof.
  intros layers. unfold layers. rewrite MLP_init_layers. cbn [fst]. split.
  - apply MLP_layout_shape.
  - intros Hd. destruct hid_features as [|h hid]; cbn [MLP_layout];
      unfold nn.Sequential_call; cbn [fold_left];
      rewrite layer_call_Linear_mismatch by exact Hd.
    + reflexivity.
    + apply Sequential_call_None.
Qed.
End MLPShape.

Lemma MLP_call_shape_witness :
  nn.Sequential_call Shape.layer_call
    (fst (MLP_init Shape.unit_weight Shape.unit_bias nn.SiLU 3 2 [64; 64] true 0))
    (Some ([8] ++ [3]))
  = Some ([8] ++ [2]) /\
  (5 <> 3 ->
   nn.Sequential_call Shape.layer_call
     (fst (MLP_init Shape.unit_weight Shape.unit_bias nn.SiLU 3 2 [64; 64] true 0))
     (Some ([8] ++ [5])) = None).
Proof.
  apply (MLP_call_shape nn.SiLU). intros s. reflexivity.
Defined.
(* ===================================================================== *)
(** ** The positional embedding                                           *)
(* ===================================================================== *)

Section SincosFacts.
Import Sincos.
Local Open Scope R_scope.

Lemma frequencies_length (C : nat) : length (frequencies C) = (C / 4)%nat.
Proof. unfold frequencies, linspace. rewrite !length_fmap, length_seq. reflexivity. Qed.

Lemma sincos_pixel_length (C i j : nat) :
  length (sincos_pixel C i j) = (4 * (C / 4))%nat.
Proof.
  unfold sincos_pixel. rewrite !length_app, !length_fmap, frequencies_length. lia.
Qed.

Lemma sincos_pixel_range (C i j : nat) :
  Forall (fun e => -1 <= e <= 1) (sincos_pixel C i j).
Proof.
  unfold sincos_pixel.
  repeat apply Forall_app_2; apply Forall_fmap, Forall_forall; intros f _; simpl;
    (apply SIN_bound || apply COS_bound).
Qed.

Lemma sincos_lookup (H W C i j : nat) :
  (i < H)%nat -> (j < W)%nat ->
  sincos H W C !! i ≫= (fun row => row !! j) = Some (sincos_pixel C i j).
Proof.
  intros Hi Hj. unfold sincos.
  rewrite list_lookup_fmap, lookup_seq_lt by lia. simpl.
  rewrite list_lookup_fmap, lookup_seq_lt by lia. reflexivity.
Qed.

Lemma sincos_shape (H W C : nat) : has_shape3 H W (4 * (C / 4)) (sincos H W C).
Proof.
  unfold sincos. split.
  - rewrite length_fmap, length_seq. reflexivity.
  - apply Forall_fmap, Forall_forall. intros i _. simpl. split.
    + rewrite length_fmap, length_seq. reflexivity.
    + apply Forall_fmap, Forall_forall. intros j _. simpl.
      apply sincos_pixel_length.
Qed.

Lemma sum_app (u v : list R) : Real.sum (u ++ v) = Real.sum u + Real.sum v.
Proof.
  induction u as [|a u IH]; simpl.
  - unfold Real.sum. simpl. lra.
  - unfold Real.sum in *. simpl. rewrite IH. lra.
Qed.

Lemma sum_squares_app (u v : list R) :
  sum_squares (u ++ v) = sum_squares u + sum_squares v.
Proof. unfold sum_squares. rewrite fmap_app. apply sum_app. Qed.

Lemma sum_squares_sin_cos (w : list R) (p : R) :
  sum_squares ((fun f => sin (f * p)) <$> w) + sum_squares ((fun f => cos (f * p)) <$> w)
  = INR (length w).
Proof.
  induction w as [|f w IH].
  - unfold sum_squares, Real.sum. simpl. lra.
  - rewrite !fmap_cons. cbn [length]. rewrite S_INR.
    unfold sum_squares, Real.sum in *. rewrite !fmap_cons. cbn [fold_right].
    pose proof (sin2_cos2 (f * p)) as Hsc. unfold Rsqr in Hsc. lra.
Qed.

(** Every pixel of [sincos(H, W, C)] has [4 * (C // 4)] entries, all
    between -1 and 1, and the squares of its entries sum to
    [2 * (C // 4)]: the embedding has the same norm at every position. *)
Theorem sincos_pixel_norm (H W C i j : nat) :
  (i < H)%nat -> (j < W)%nat ->
  exists px,
    sincos H W C !! i ≫= (fun row => row !! j) = Some px /\
    length px = (4 * (C / 4))%nat /\
    Forall (fun e => -1 <= e <= 1) px /\
    sum_squares px = 2 * INR (C / 4).
Proof.
  intros Hi Hj. exists (sincos_pixel C i j).
  split; [apply sincos_lookup; assumption|].
  split; [apply sincos_pixel_length|].
  split; [apply sincos_pixel_range|].
  unfold sincos_pixel. rewrite !sum_squares_app.
  pose proof (sum_squares_sin_cos (frequencies C) (INR i)) as Hr.
  pose proof (sum_squares_sin_cos (frequencies C) (INR j)) as Hc.
  rewrite frequencies_length in Hr, Hc. lra.
Qed.

(** The embedding is the code of the row followed by the code of the
    column, with one code for both axes: the first half of the channels
    of a pixel depends on its row only, the second half on its column
    only, and position 0 is coded by zeros (the sines) followed by ones
    (the cosines). *)
Theorem sincos_separable (H W C : nat) :
  exists code : nat -> list R,
    (forall p, length (code p) = (2 * (C / 4))%nat) /\
    code 0%nat = replicate (C / 4) 0 ++ replicate (C / 4) 1 /\
    forall i j, (i < H)%nat -> (j < W)%nat ->
      sincos H W C !! i ≫= (fun row => row !! j) = Some (code i ++ code j).
Proof.
  exists (fun p => ((fun f => sin (f * INR p)) <$> frequencies C)
                   ++ ((fun f => cos (f * INR p)) <$> frequencies C)).
  split; [|split].
  - intros p. rewrite length_app, !length_fmap, frequencies_length. lia.
  - rewrite <- frequencies_length. f_equal.
    + induction (frequencies C) as [|f w IH]; [reflexivity|].
      rewrite fmap_cons. cbn [length replicate]. rewrite IH.
      simpl. rewrite Rmult_0_r, sin_0. reflexivity.
    + induction (frequencies C) as [|f w IH]; [reflexivity|].
      rewrite fmap_cons. cbn [length replicate]. rewrite IH.
      simpl. rewrite Rmult_0_r, cos_0. reflexivity.
  - intros i j Hi Hj. rewrite sincos_lookup by assumption.
    unfold sincos_pixel. rewrite <- app_assoc. reflexivity.
Qed.

Section Call.
Variable x : list (list (list R)).
Variables H W C : nat.
Hypothesis Hx : has_shape3 H W C x.
Hypothesis HH : (0 < H)%nat.
Hypothesis HW : (0 < W)%nat.

Lemma call_dims :
  length x = H /\ length (hd [] x) = W /\ length (hd [] (hd [] x)) = C.
Proof.
  destruct Hx as [Hlen Hrows]. split; [exact Hlen|].
  destruct x as [|row rows]; [simpl in Hlen; lia|].
  apply Forall_cons_1 in Hrows as [[Hrow Hpx] _]. cbn [hd].
  split; [exact Hrow|].
  destruct row as [|px row]; [simpl in Hrow; lia|].
  apply Forall_cons_1 in Hpx as [Hc _]. exact Hc.
Qed.

Lemma call_channels : (4 * (C / 4) = C)%nat <-> (C mod 4 = 0)%nat.
Proof. pose proof (Nat.div_mod_eq C 4). lia. Qed.

Lemma PosEmbedding_call_sum :
  (C mod 4 = 0)%nat ->
  PosEmbedding_call x = Some (zip_with (zip_with (zip_with Rplus)) x (sincos H W C)).
Proof.
  intros HC. unfold PosEmbedding_call.
  destruct call_dims as (-> & -> & ->).
  rewrite decide_True by (apply call_channels; exact HC). reflexivity.
Qed.

Lemma sum_shape :
  (C mod 4 = 0)%nat ->
  has_shape3 H W C (zip_with (zip_with (zip_with Rplus)) x (sincos H W C)).
Proof.
  intros HC. apply call_channels in HC.
  destruct Hx as [Hlen Hrows]. destruct (sincos_shape H W C) as [Hslen Hsrows].
  split.
  - rewrite length_zip_with. lia.
  - apply Forall_forall. intros row Hin.
    apply list_elem_of_lookup in Hin as [i Hi].
    rewrite lookup_zip_with in Hi.
    destruct (x !! i) as [xr|] eqn:Hxr; [|discriminate]. simpl in Hi.
    destruct (sincos H W C !! i) as [sr|] eqn:Hsr; [|discriminate]. simpl in Hi.
    injection Hi as <-.
    destruct (Forall_lookup_1 _ _ _ _ Hrows Hxr) as [Hxl Hxp].
    destruct (Forall_lookup_1 _ _ _ _ Hsrows Hsr) as [Hsl Hsp].
    split; [rewrite length_zip_with; lia|].
    apply Forall_forall. intros px Hin.
    apply list_elem_of_lookup in Hin as [j Hj].
    rewrite lookup_zip_with in Hj.
    destruct (xr !! j) as [xp|] eqn:Hxpj; [|discriminate]. simpl in Hj.
    destruct (sr !! j) as [sp|] eqn:Hspj; [|discriminate]. simpl in Hj.
    injection Hj as <-.
    pose proof (Forall_lookup_1 _ _ _ _ Hxp Hxpj) as Hl1.
    pose proof (Forall_lookup_1 _ _ _ _ Hsp Hspj) as Hl2.
    cbv beta in Hl1, Hl2. rewrite length_zip_with. lia.
Qed.

Lemma sum_entry (i j k : nat) (v : R) :
  (C mod 4 = 0)%nat ->
  entry3 x i j k = Some v ->
  exists e, -1 <= e <= 1 /\
    entry3 (zip_with (zip_with (zip_with Rplus)) x (sincos H W C)) i j k
    = Some (v + e).
Proof.
  intros HC Hv. apply call_channels in HC.
  destruct Hx as [Hlen Hrows]. unfold entry3 in *.
  destruct (x !! i) as [xr|] eqn:Hxr; [|discriminate].
  destruct (xr !! j) as [xp|] eqn:Hxp; [|discriminate].
  destruct (Forall_lookup_1 _ _ _ _ Hrows Hxr) as [Hxl Hpx].
  pose proof (Forall_lookup_1 _ _ _ _ Hpx Hxp) as Hc. cbv beta in Hc.
  assert (i < H)%nat as Hi by (apply lookup_lt_Some in Hxr; lia).
  assert (j < W)%nat as Hj by (apply lookup_lt_Some in Hxp; lia).
  assert (k < C)%nat as Hk by (apply lookup_lt_Some in Hv; lia).
  pose proof (sincos_lookup H W C i j Hi Hj) as Hs.
  destruct (sincos H W C !! i) as [sr|] eqn:Hsr; [|discriminate]. simpl in Hs.
  destruct (lookup_lt_is_Some_2 (sincos_pixel C i j) k
              ltac:(rewrite sincos_pixel_length; lia)) as [e He].
  exists e. split.
  - exact (Forall_lookup_1 _ _ _ _ (sincos_pixel_range C i j) He).
  - rewrite lookup_zip_with, Hxr, Hsr. simpl.
    rewrite lookup_zip_with, Hxp, Hs. simpl.
    rewrite lookup_zip_with, Hv, He. reflexivity.
Qed.

(** [PosEmbedding] on an array of shape (H, W, C) with at least one
    pixel: when 4 divides [C], the result has the shape of the input
    and every entry is the entry of the input plus a number between -1
    and 1; with a single channel the result is empty along the last
    axis; any other [C] raises. *)
Theorem PosEmbedding_call_cases :
  ((C mod 4 = 0)%nat ->
   exists y, PosEmbedding_call x = Some y /\ has_shape3 H W C y /\
             forall i j k v, entry3 x i j k = Some v ->
               exists e, -1 <= e <= 1 /\ entry3 y i j k = Some (v + e)) /\
  (C = 1%nat ->
   exists y, PosEmbedding_call x = Some y /\ has_shape3 H W 0 y) /\
  ((C mod 4 <> 0)%nat -> C <> 1%nat -> PosEmbedding_call x = None).
Proof.
  split; [|split].
  - intros HC. eexists. split; [apply PosEmbedding_call_sum; exact HC|].
    split; [apply sum_shape; exact HC|].
    intros i j k v. apply sum_entry. exact HC.
  - intros HC1. unfold PosEmbedding_call.
    destruct call_dims as (_ & _ & ->). rewrite HC1.
    rewrite decide_False by (simpl; lia). rewrite decide_True by reflexivity.
    eexists. split; [reflexivity|]. destruct Hx as [Hlen Hrows]. split.
    + rewrite length_fmap. exact Hlen.
    + apply Forall_fmap. eapply Forall_impl; [exact Hrows|].
      intros row [Hrow _]. simpl. split; [rewrite length_fmap; exact Hrow|].
      apply Forall_fmap, Forall_forall. intros; reflexivity.
  - intros HC H1. unfold PosEmbedding_call.
    destruct call_dims as (_ & _ & ->).
    rewrite decide_False by (rewrite call_channels; exact HC).
    rewrite decide_False by exact H1. reflexivity.
Qed.
End Call.
End SincosFacts.

Lemma sincos_pixel_norm_witness :
  exists px,
    Sincos.sincos 32 32 8 !! 3%nat ≫= (fun row => row !! 5%nat) = Some px /\
    length px = (4 * (8 / 4))%nat /\
    Forall (fun e => (-1 <= e <= 1)%R) px /\
    Sincos.sum_squares px = (2 * INR (8 / 4))%R.
Proof. apply (sincos_pixel_norm 32 32 8 3 5); lia. Defined.

Lemma PosEmbedding_call_cases_witness :
  ((4 mod 4 = 0)%nat ->
   exists y, Sincos.PosEmbedding_call array_1x2x4 = Some y /\
             has_shape3 1 2 4 y /\
             forall i j k v, entry3 array_1x2x4 i j k = Some v ->
               exists e, (-1 <= e <= 1)%R /\ entry3 y i j k = Some (v + e)%R) /\
  (4%nat = 1%nat ->
   exists y, Sincos.PosEmbedding_call array_1x2x4 = Some y /\ has_shape3 1 2 0 y) /\
  ((4 mod 4 <> 0)%nat -> 4%nat <> 1%nat -> Sincos.PosEmbedding_call array_1x2x4 = None).
Proof.
  apply (PosEmbedding_call_cases array_1x2x4 1 2 4); [|lia|lia].
  split; [reflexivity|]. repeat constructor.
Defined.
(* ===================================================================== *)
(** ** A lap that completes                                               *)
(* ===================================================================== *)

Section TrainRuns.
Import Train.
Context {P V D St : Type}.
Variable ext : externals P V D St.
Variable lap : nat.

Local Abbreviation event := (event P V).
Local Abbreviation model := (model P V).
Local Abbreviation world := (world P V).

Local Abbreviation ran := (ran lap).

Lemma ran_nil (w : world) : ran [] w w.
Proof.
  split; [reflexivity|]. simpl. rewrite app_nil_r, Nat.add_0_r. auto.
Qed.

Lemma ran_app (e1 e2 : list event) (w w1 w2 : world) :
  ran e1 w w1 -> ran e2 w1 w2 -> ran (e1 ++ e2) w w2.
Proof.
  intros (Hf1 & Ht1 & Hc1) (Hf2 & Ht2 & Hc2). split; [congruence|]. split.
  - rewrite Ht2, Ht1, fmap_app, app_assoc. reflexivity.
  - rewrite Hc2, Hc1, length_app. lia.
Qed.

Lemma bind_Done {A B} (c : M P V A) (k : A -> M P V B) (w w' : world) (b : B) :
  bind c k w = (Done b, w') ->
  exists a w1, c w = (Done a, w1) /\ k a w1 = (Done b, w').
Proof.
  unfold bind. destruct (c w) as [[a|] w1]; [eauto|discriminate].
Qed.

Lemma ret_Done {A} (a b : A) (w w' : world) :
  ret a w = (Done b, w') -> b = a /\ w' = w.
Proof. unfold ret. intros [= <- <-]. auto. Qed.

Lemma draw_Done {A} (e : event) (f : nat -> A) (w w' : world) (a : A) :
  draw ext lap e f w = (Done a, w') ->
  a = f (clock w) /\ ran [e] w w'.
Proof.
  unfold draw. destruct (fails ext (clock w)); [discriminate|].
  intros [= <- <-]. split; [reflexivity|]. split; [reflexivity|].
  split; [reflexivity|]. simpl. lia.
Qed.

Lemma train_mode_Done (b : bool) (m m' : model) (w w' : world) :
  train_mode ext lap b m w = (Done m', w') ->
  m' = mkModel (arrays m) (mu_x m) b /\ ran [TrainMode b] w w'.
Proof.
  unfold train_mode. intros H.
  apply bind_Done in H as ([] & w1 & Hc & Hr).
  apply draw_Done in Hc as [_ Hc]. apply ret_Done in Hr as [-> ->]. auto.
Qed.

Lemma load_module_Done (k : nat) (m : model) (w w' : world) :
  load_module ext lap k w = (Done m, w') ->
  fs w !! k = Some m /\ ran [LoadModule k m] w w'.
Proof.
  unfold load_module. destruct (fs w !! k) as [m0|]; [|discriminate].
  intros H. apply draw_Done in H as [-> H]. auto.
Qed.

Lemma stack_mean_Done (n : nat) (w w' : world) :
  stack_mean n w = (Done tt, w') -> w' = w.
Proof. unfold stack_mean. destruct n; [discriminate|]. intros [= <-]. reflexivity. Qed.

Lemma dump_module_Done (m : model) (k : nat) (w w' : world) :
  dump_module ext lap m k w = (Done tt, w') ->
  fs w' = <[k := m]> (fs w) /\
  trace w' = trace w ++ [(lap, DumpModule k m)].
Proof.
  unfold dump_module. destruct (fails ext (clock w)); [discriminate|].
  intros [= <-]. auto.
Qed.

Lemma train_loop_Done (static : bool) (data : D) (n : nat) :
  forall (st st' : St) (w w' : world),
    train_loop ext lap static data n st w = (Done st', w') ->
    st' = sgd_steps ext data n st (clock w) /\
    ran (replicate n (SgdStep static)) w w'.
Proof.
  induction n as [|n IH]; intros st st' w w' H; simpl in H.
  - apply ret_Done in H as [-> ->]. split; [reflexivity|apply ran_nil].
  - apply bind_Done in H as (st1 & w1 & Hd & Hr).
    apply draw_Done in Hd as [-> Hd]. apply IH in Hr as [-> Hr].
    split.
    + simpl. destruct Hd as (_ & _ & ->). simpl.
      rewrite Nat.add_1_r. reflexivity.
    + exact (ran_app [_] _ _ _ _ Hd Hr).
Qed.

Lemma validation_loop_Done (static : bool) (n : nat) :
  forall (w w' : world),
    validation_loop ext lap static n w = (Done tt, w') ->
    ran (replicate n (Validate static)) w w'.
Proof.
  induction n as [|n IH]; intros w w' H; simpl in H.
  - apply ret_Done in H as [_ ->]. apply ran_nil.
  - apply bind_Done in H as ([] & w1 & Hd & Hr).
    apply draw_Done in Hd as [_ Hd]. apply IH in Hr.
    exact (ran_app [_] _ _ _ _ Hd Hr).
Qed.

Lemma count_calls_app (k : call_kind) (a b : list event) :
  count_calls k (a ++ b) = (count_calls k a + count_calls k b)%nat.
Proof. unfold count_calls. rewrite filter_app, length_app. reflexivity. Qed.

Lemma count_calls_replicate (k : call_kind) (n : nat) (e : event) :
  count_calls k (replicate n e) = if decide (kind e = k) then n else 0%nat.
Proof.
  unfold count_calls. induction n as [|n IH]; simpl.
  - destruct (decide _); reflexivity.
  - rewrite filter_cons. destruct (decide (kind e = k)); simpl; rewrite IH; reflexivity.
Qed.

Lemma count_calls_one (k : call_kind) (e : event) :
  count_calls k [e] = if decide (kind e = k) then 1%nat else 0%nat.
Proof. apply (count_calls_replicate k 1 e). Qed.

Lemma evaluations_one (e0 : nat) :
  evaluations e0 1 = if decide ((e0 + 1) mod 16 = 0)%nat then 1%nat else 0%nat.
Proof.
  unfold evaluations.
  pose proof (Nat.div_mod_eq e0 16). pose proof (Nat.div_mod_eq (e0 + 1) 16).
  pose proof (Nat.mod_upper_bound e0 16 ltac:(lia)).
  pose proof (Nat.mod_upper_bound (e0 + 1) 16 ltac:(lia)).
  destruct (decide _); lia.
Qed.

Lemma evaluations_S (e0 n : nat) :
  evaluations e0 (S n) = (evaluations e0 1 + evaluations (S e0) n)%nat.
Proof.
  unfold evaluations.
  pose proof (Nat.div_mod_eq e0 16). pose proof (Nat.div_mod_eq (e0 + 1) 16).
  pose proof (Nat.div_mod_eq (e0 + S n) 16). pose proof (Nat.div_mod_eq (S e0 + n) 16).
  pose proof (Nat.div_mod_eq (S e0) 16).
  pose proof (Nat.mod_upper_bound e0 16 ltac:(lia)).
  pose proof (Nat.mod_upper_bound (e0 + 1) 16 ltac:(lia)).
  pose proof (Nat.mod_upper_bound (e0 + S n) 16 ltac:(lia)).
  pose proof (Nat.mod_upper_bound (S e0 + n) 16 ltac:(lia)).
  pose proof (Nat.mod_upper_bound (S e0) 16 ltac:(lia)).
  replace (e0 + S n)%nat with (S e0 + n)%nat in * by lia.
  replace (e0 + 1)%nat with (S e0) in * by lia.
  lia.
Qed.

Lemma epoch_body_Done (static : bool) (others : option V) (data : D) (epoch : nat)
      (st st' : St) (w w' : world) :
  epoch_body ext lap static others data epoch st w = (Done st', w') ->
  st' = sgd_steps ext data (train_batches ext) st (clock w) /\
  exists evs, ran evs w w' /\
              length evs = epoch_length ext epoch /\
              forall k, count_calls k evs = epochs_calls ext epoch 1 k.
Proof.
  unfold epoch_body. intros H.
  apply bind_Done in H as (st1 & w1 & Htrain & H).
  apply bind_Done in H as ([] & w1' & Hmean1 & H).
  apply stack_mean_Done in Hmean1 as ->.
  apply bind_Done in H as ([] & w2 & Hval & H).
  apply bind_Done in H as ([] & w2' & Hmean2 & H).
  apply stack_mean_Done in Hmean2 as ->.
  apply train_loop_Done in Htrain as [-> Htrain].
  apply validation_loop_Done in Hval.
  pose proof (ran_app _ _ _ _ _ Htrain Hval) as Hloops.
  unfold epoch_length.
  destruct (decide ((epoch + 1) mod 16 = 0)%nat) as [Hev|Hev].
  - apply bind_Done in H as (m & w3 & Hmode & H).
    apply bind_Done in H as ([] & w4 & Hsample & H).
    apply bind_Done in H as ([] & w5 & Hlog & H).
    apply ret_Done in H as [-> ->]. split; [reflexivity|].
    apply train_mode_Done in Hmode as [_ Hmode].
    apply draw_Done in Hsample as [_ Hsample]. apply draw_Done in Hlog as [_ Hlog].
    pose proof (ran_app _ _ _ _ _ Hloops
                  (ran_app _ _ _ _ _ Hmode (ran_app _ _ _ _ _ Hsample Hlog))) as Hall.
    eexists. split; [exact Hall|].
    split; [rewrite !length_app, !length_replicate; simpl; lia|].
    intros k. rewrite !count_calls_app, !count_calls_replicate, !count_calls_one.
    unfold epochs_calls. rewrite evaluations_one.
    destruct (decide ((epoch + 1) mod 16 = 0)%nat); [|contradiction].
    destruct k; simpl; lia.
  - apply bind_Done in H as ([] & w3 & Hlog & H).
    apply ret_Done in H as [-> ->]. split; [reflexivity|].
    apply draw_Done in Hlog as [_ Hlog].
    pose proof (ran_app _ _ _ _ _ Hloops Hlog) as Hall.
    eexists. split; [exact Hall|].
    split; [rewrite !length_app, !length_replicate; simpl; lia|].
    intros k. rewrite !count_calls_app, !count_calls_replicate, !count_calls_one.
    unfold epochs_calls. rewrite evaluations_one.
    destruct (decide ((epoch + 1) mod 16 = 0)%nat); [contradiction|].
    destruct k; simpl; lia.
Qed.

Lemma epochs_loop_Done (static : bool) (others : option V) (data : D) (n : nat) :
  forall (epoch : nat) (st st' : St) (w w' : world),
    epochs_loop ext lap static others data epoch n st w = (Done st', w') ->
    st' = epochs_state ext data epoch n st (clock w) /\
    exists evs, ran evs w w' /\
                forall k, count_calls k evs = epochs_calls ext epoch n k.
Proof.
  induction n as [|n IH]; intros epoch st st' w w' H; simpl in H.
  - apply ret_Done in H as [-> ->]. split; [reflexivity|].
    exists []. split; [apply ran_nil|].
    intros k. unfold epochs_calls, evaluations. rewrite Nat.add_0_r, Nat.sub_diag.
    destruct k; reflexivity.
  - apply bind_Done in H as (st1 & w1 & Hbody & H).
    apply epoch_body_Done in Hbody as (-> & e1 & Hr1 & Hl1 & Hc1).
    apply IH in H as (-> & e2 & Hr2 & Hc2).
    split.
    { simpl. destruct Hr1 as (_ & _ & ->). rewrite Hl1. reflexivity. }
    exists (e1 ++ e2). split; [exact (ran_app _ _ _ _ _ Hr1 Hr2)|].
    intros k. rewrite count_calls_app, Hc1, Hc2.
    unfold epochs_calls. rewrite (evaluations_S epoch n).
    destruct k; simpl; lia.
Qed.

(** A lap that completes, call by call. *)
Lemma train_Done (w w' : world) :
  train ext lap w = (Done tt, w') ->
  exists (prev : model) (pre loop : list event),
    ((0 < lap)%nat -> fs w !! (lap - 1)%nat = Some prev) /\
    ((lap = 0)%nat ->
     prev = mkModel (fit_moments ext (clock w + 1)%nat) None false) /\
    trace w' = trace w ++
      ((fun e => (lap, e)) <$>
         (pre ++ [TrainMode true] ++ loop ++
          [TrainMode false;
           DumpModule lap (lap_checkpoint ext lap prev (clock w))])) /\
    fs w' = <[lap := lap_checkpoint ext lap prev (clock w)]> (fs w) /\
    (forall k, count_calls k pre = setup_calls lap k) /\
    (forall k, count_calls k loop = epochs_calls ext 0 (epochs ext) k).
Proof.
  unfold train. intros H.
  apply bind_Done in H as ([] & w1 & Hsetup & H).
  apply draw_Done in Hsetup as [_ Hsetup].
  apply bind_Done in H as (prev & w2 & Hprev & H).
  apply bind_Done in H as (trainset & w3 & Hgen1 & H).
  apply draw_Done in Hgen1 as [Htrainset Hgen1].
  apply bind_Done in H as (testset & w4 & Hgen2 & H).
  apply draw_Done in Hgen2 as [_ Hgen2].
  apply bind_Done in H as (model0 & w5 & Hmodel & H).
  apply bind_Done in H as (model1 & w6 & Hon & H).
  apply train_mode_Done in Hon as [-> Hon]. cbn [arrays mu_x training] in H.
  apply bind_Done in H as (st & w7 & Hloop & H).
  apply epochs_loop_Done in Hloop as (Hst & loop & Hloop & Hcount).
  apply bind_Done in H as (model2 & w8 & Hoff & H).
  apply train_mode_Done in Hoff as [-> Hoff]. cbn [arrays mu_x training] in H.
  apply dump_module_Done in H as [Hfs Htr].
  assert (exists e_prev,
             ran e_prev w1 w2 /\ length e_prev = 1%nat /\
             ((0 < lap)%nat -> fs w !! (lap - 1)%nat = Some prev) /\
             ((lap = 0)%nat ->
              prev = mkModel (fit_moments ext (clock w + 1)%nat) None false) /\
             forall k, count_calls k e_prev
                       = match k with
                         | KLoadModule => if decide (0 < lap)%nat then 1 else 0
                         | KFitMoments => if decide (0 < lap)%nat then 0 else 1
                         | _ => 0
                         end%nat)
    as (e_prev & Hrprev & Hlprev & Hck & Hfit & Hcprev).
  { destruct (decide (0 < lap)%nat) as [Hlap|Hlap].
    - apply load_module_Done in Hprev as [Hck Hr].
      destruct Hsetup as [Hfs1 _]. rewrite Hfs1 in Hck.
      eexists. split; [exact Hr|]. split; [reflexivity|].
      split; [auto|]. split; [lia|].
      intros k. rewrite count_calls_one. destruct k; reflexivity.
    - apply bind_Done in Hprev as (g & wg & Hd & Hr).
      apply draw_Done in Hd as [-> Hd]. apply ret_Done in Hr as [-> ->].
      eexists. split; [exact Hd|]. split; [reflexivity|].
      split; [lia|]. split.
      + intros _. destruct Hsetup as (_ & _ & ->). reflexivity.
      + intros k. rewrite count_calls_one. destruct k; reflexivity. }
  assert (exists e_model,
             ran e_model w4 w5 /\
             length e_model = (if decide (0 < lap)%nat then 0 else 1)%nat /\
             arrays model0 = (if decide (0 < lap)%nat then arrays prev
                              else make_model ext (clock w4)) /\
             forall k, count_calls k e_model
                       = match k with
                         | KMakeModel => if decide (0 < lap)%nat then 0 else 1
                         | _ => 0
                         end%nat)
    as (e_model & Hrmodel & Hlmodel & Harrays & Hcmodel).
  { destruct (decide (0 < lap)%nat) as [Hlap|Hlap].
    - apply ret_Done in Hmodel as [-> ->]. exists [].
      split; [apply ran_nil|]. split; [reflexivity|]. split; [reflexivity|].
      intros k. destruct k; reflexivity.
    - apply bind_Done in Hmodel as (p & wp & Hd & Hr).
      apply draw_Done in Hd as [-> Hd]. apply ret_Done in Hr as [-> ->].
      eexists. split; [exact Hd|]. split; [reflexivity|]. split; [reflexivity|].
      intros k. rewrite count_calls_one. destruct k; reflexivity. }
  assert (clock w2 = clock w + 2)%nat as Hc2.
  { destruct Hsetup as (_ & _ & Hc1). destruct Hrprev as (_ & _ & Hcp).
    rewrite Hcp, Hc1, Hlprev. simpl. lia. }
  assert (clock w4 = clock w + 4)%nat as Hc4.
  { destruct Hgen1 as (_ & _ & Hc3). destruct Hgen2 as (_ & _ & Hc4).
    rewrite Hc4, Hc3, Hc2. simpl. lia. }
  assert (clock w6 = if decide (0 < lap)%nat then clock w + 5 else clock w + 6)%nat
    as Hc6.
  { destruct Hrmodel as (_ & _ & Hc5). destruct Hon as (_ & _ & Hc6).
    rewrite Hc6, Hc5, Hc4, Hlmodel. destruct (decide (0 < lap)%nat); simpl; lia. }
  assert (mkModel (avrg ext st) (Some (mean ext trainset)) false
          = lap_checkpoint ext lap prev (clock w)) as Hmodel_eq.
  { unfold lap_checkpoint. cbv zeta.
    rewrite Hst, Htrainset, Harrays, Hc2, Hc4, Hc6.
    destruct (decide (0 < lap)%nat); reflexivity. }
  rewrite Hmodel_eq in Hfs, Htr.
  pose proof (ran_app _ _ _ _ _ Hsetup
                (ran_app _ _ _ _ _ Hrprev
                   (ran_app _ _ _ _ _ Hgen1 (ran_app _ _ _ _ _ Hgen2 Hrmodel)))) as Hpre.
  pose proof (ran_app _ _ _ _ _ Hpre
                (ran_app _ _ _ _ _ Hon (ran_app _ _ _ _ _ Hloop Hoff)))
    as (Hfs8 & Htr8 & _).
  exists prev.
  exists ([Setup] ++ e_prev ++ [Generate prev] ++ [Generate prev] ++ e_model), loop.
  split; [exact Hck|]. split; [exact Hfit|]. split; [|split; [|split]].
  - rewrite Htr, Htr8, <- app_assoc. f_equal.
    rewrite !fmap_app, <- !app_assoc. reflexivity.
  - rewrite Hfs, Hfs8. reflexivity.
  - intros k. rewrite !count_calls_app, !count_calls_one, Hcprev, Hcmodel.
    unfold setup_calls. destruct k; simpl; destruct (decide (0 < lap)%nat); lia.
  - exact Hcount.
Qed.

(** A lap that completes has made a fixed number of calls of each kind:
    one set-up, one load of the previous checkpoint (or, at lap 0, one
    moment fit and one model creation), two data-set generations, one
    optimisation step per training batch and one loss evaluation per
    test batch in every epoch, one log per epoch, a sample every
    sixteenth epoch, and one dump. *)
Theorem train_call_counts (w : world) :
  fst (train ext lap w) = Done tt ->
  exists evs,
    trace (snd (train ext lap w)) = trace w ++ ((fun e => (lap, e)) <$> evs) /\
    forall k, count_calls k evs = lap_calls ext lap k.
Proof.
  destruct (train ext lap w) as [r w'] eqn:Hrun. simpl. intros ->.
  apply train_Done in Hrun
    as (prev & pre & loop & _ & _ & Htr & _ & Hpre & Hloop).
  eexists. split; [exact Htr|].
  intros k. rewrite !count_calls_app, Hpre, Hloop, count_calls_one.
  change [TrainMode false; DumpModule lap ?m] with ([TrainMode false] ++ [DumpModule lap m]).
  unfold setup_calls, epochs_calls, lap_calls, evaluations, count_calls.
  rewrite Nat.add_0_l. change (0 / 16)%nat with 0%nat. rewrite Nat.sub_0_r.
  destruct k; simpl; destruct (decide (0 < lap)%nat); lia.
Qed.

(** The checkpoint of a lap that completes holds, in evaluation mode, the
    averaged parameters after all the epochs of optimisation steps on
    the training set, started from the parameters of the previous model
    (at lap 0, of a new model), with [mu_x] the mean of that training
    set: the first of the two sets generated in this lap, by the model
    loaded from the checkpoint of the lap before or, at lap 0, by the
    Gaussian prior of the fitted moments.  The [mu_x] of a loaded model
    is overwritten. *)
Theorem train_checkpoint_model (w : world) :
  fst (train ext lap w) = Done tt ->
  exists prev : model,
    ((0 < lap)%nat -> fs w !! (lap - 1)%nat = Some prev) /\
    ((lap = 0)%nat ->
     prev = mkModel (fit_moments ext (clock w + 1)%nat) None false) /\
    fs (snd (train ext lap w)) !! lap
    = Some (mkModel
              (avrg ext
                 (epochs_state ext (generate ext prev (clock w + 2)%nat)
                    0 (epochs ext)
                    (optimizer_init ext
                       (if decide (0 < lap)%nat then arrays prev
                        else make_model ext (clock w + 4)%nat))
                    (if decide (0 < lap)%nat then (clock w + 5)%nat
                     else (clock w + 6)%nat)))
              (Some (mean ext (generate ext prev (clock w + 2)%nat)))
              false).
Proof.
  destruct (train ext lap w) as [r w'] eqn:Hrun. simpl. intros ->.
  apply train_Done in Hrun
    as (prev & pre & loop & Hck & Hfit & _ & Hfs & _).
  exists prev. split; [exact Hck|]. split; [exact Hfit|].
  rewrite Hfs. apply lookup_insert_eq.
Qed.

(** A lap after the first whose predecessor left no checkpoint raises
    right after its set-up: nothing is fitted, generated or trained, and
    the run directory stays as it was. *)
Theorem train_missing_checkpoint (w : world) :
  (0 < lap)%nat -> fs w !! (lap - 1)%nat = None ->
  fst (train ext lap w) = Raised /\
  fs (snd (train ext lap w)) = fs w /\
  trace (snd (train ext lap w))
  = trace w ++ (if fails ext (clock w) then [] else [(lap, Setup)]).
Proof.
  intros Hlap Hnone. destruct (fails ext (clock w)) eqn:Hf.
  - assert (train ext lap w
            = (Raised, mkWorld (fs w) (trace w) (S (clock w)))) as ->.
    { unfold train. unfold bind at 1. unfold call, draw at 1.
      rewrite Hf. reflexivity. }
    simpl. rewrite app_nil_r. auto.
  - assert (train ext lap w
            = (Raised, mkWorld (fs w) (trace w ++ [(lap, Setup)]) (S (S (clock w)))))
      as ->.
    { unfold train. unfold bind at 1. unfold call, draw at 1. rewrite Hf.
      unfold bind at 1. rewrite decide_True by exact Hlap.
      unfold load_module. cbn [fs]. rewrite Hnone. reflexivity. }
    simpl. auto.
Qed.
End TrainRuns.

Lemma train_call_counts_witness :
  exists evs,
    Train.trace (snd (Train.train ext_example 0 world_empty))
    = Train.trace world_empty ++ ((fun e => (0%nat, e)) <$> evs) /\
    forall k, count_calls k evs = lap_calls ext_example 0 k.
Proof. apply (train_call_counts ext_example 0 world_empty). reflexivity. Defined.

Lemma train_checkpoint_model_witness :
  Train.fs (snd (Train.train ext_example 1 world_lap0)) !! 1%nat
  = Some (Train.mkModel 12%nat (Some 18%nat) false) /\
  exists prev : Train.model nat nat,
    ((0 < 1)%nat -> Train.fs world_lap0 !! (1 - 1)%nat = Some prev) /\
    ((1 = 0)%nat ->
     prev = Train.mkModel
              (Train.fit_moments ext_example (Train.clock world_lap0 + 1)%nat)
              None false) /\
    Train.fs (snd (Train.train ext_example 1 world_lap0)) !! 1%nat
    = Some (Train.mkModel
              (Train.avrg ext_example
                 (epochs_state ext_example
                    (Train.generate ext_example prev (Train.clock world_lap0 + 2)%nat)
                    0 (Train.epochs ext_example)
                    (Train.optimizer_init ext_example
                       (if decide (0 < 1)%nat then Train.arrays prev
                        else Train.make_model ext_example
                               (Train.clock world_lap0 + 4)%nat))
                    (if decide (0 < 1)%nat then (Train.clock world_lap0 + 5)%nat
                     else (Train.clock world_lap0 + 6)%nat)))
              (Some (Train.mean ext_example
                       (Train.generate ext_example prev
                          (Train.clock world_lap0 + 2)%nat)))
              false).
Proof.
  split; [vm_compute; reflexivity|].
  apply (train_checkpoint_model ext_example 1 world_lap0). vm_compute. reflexivity.
Defined.

Lemma train_missing_checkpoint_witness :
  fst (Train.train ext_example 2 world_empty) = Train.Raised /\
  Train.fs (snd (Train.train ext_example 2 world_empty)) = Train.fs world_empty /\
  Train.trace (snd (Train.train ext_example 2 world_empty))
  = Train.trace world_empty ++
    (if Train.fails ext_example (Train.clock world_empty) then []
     else [(2%nat, Train.Setup)]).
Proof. apply (train_missing_checkpoint ext_example 2 world_empty); [lia|reflexivity]. Defined.
(* ===================================================================== *)
(** ** A run in which no call raises                                      *)
(* ===================================================================== *)

Section AllLaps.
Import Train.
Context {P V D St : Type}.
Variable ext : externals P V D St.
Hypothesis never_fails : forall n, fails ext n = false.
Hypothesis nonempty_batches :
  (0 < epochs ext)%nat -> (0 < train_batches ext)%nat /\ (0 < test_batches ext)%nat.

Local Abbreviation event := (event P V).
Local Abbreviation model := (model P V).
Local Abbreviation world := (world P V).

Lemma laps_prefix_complete (laps : nat) (w : world) (m : nat) :
  (m <= laps)%nat ->
  exists s, scheduled ext (main_jobs laps) w s /\
            started s = reverse (seq 0 m) /\
            succeeded s = reverse (seq 0 m) /\
            forall k, (k < m)%nat -> is_Some (fs (sched_world s) !! k).
Proof.
  induction m as [|m IH]; intros Hm.
  - exists (mkSched [] [] w). split; [apply rtc_refl|].
    repeat split. intros k Hk. lia.
  - destruct (IH ltac:(lia)) as (s & Hrun & Hst & Hsu & Hfs).
    destruct (train_completes ext never_fails nonempty_batches m (sched_world s))
      as [w' Htrain].
    { intros Hpos. apply Hfs. lia. }
    pose proof (train_Done ext m _ _ Htrain)
      as (prev & pre & loop & _ & _ & _ & Hfs' & _).
    exists (mkSched (m :: started s) (m :: succeeded s) w').
    split; [|split; [|split]].
    + eapply rtc_r; [exact Hrun|].
      apply (run_job ext (main_jobs laps)
               (mkJob m (if decide (0 < m)%nat then [(m - 1)%nat] else []))
               s (Done tt) w').
      * unfold main_jobs. apply list_elem_of_fmap. exists m.
        split; [reflexivity|]. apply elem_of_seq. lia.
      * cbn [job_lap]. rewrite Hst, elem_of_reverse, elem_of_seq. lia.
      * cbn [waits_for]. intros d Hd.
        destruct (decide (0 < m)%nat); [|apply elem_of_nil in Hd as []].
        apply list_elem_of_singleton in Hd as ->.
        rewrite Hsu, elem_of_reverse, elem_of_seq. lia.
      * exact Htrain.
    + cbn [started]. rewrite Hst, seq_S, reverse_app. reflexivity.
    + cbn [succeeded]. rewrite Hsu, seq_S, reverse_app. reflexivity.
    + intros k Hk. cbn [sched_world]. rewrite Hfs'.
      destruct (decide (k = m)) as [->|Hne].
      * rewrite lookup_insert_eq. eauto.
      * rewrite lookup_insert_ne by congruence. apply Hfs. lia.
Qed.

(** When no external call raises and, unless there is no epoch at all,
    both loaders yield at least one batch (so that [np.stack(losses)]
    has something to stack), the chain of jobs can be run to its end:
    the scheduler reaches a state in which every lap has completed and
    every checkpoint, from [checkpoint_0] to the last, is in the run
    directory. *)
Theorem laps_all_complete (laps : nat) (w : world) :
  exists s, scheduled ext (main_jobs laps) w s /\
            forall k, (k < laps)%nat ->
                      k ∈ succeeded s /\ is_Some (fs (sched_world s) !! k).
Proof.
  destruct (laps_prefix_complete laps w laps ltac:(lia)) as (s & Hrun & _ & Hsu & Hfs).
  exists s. split; [exact Hrun|]. intros k Hk. split; [|apply Hfs; exact Hk].
  rewrite Hsu, elem_of_reverse, elem_of_seq. lia.
Qed.
End AllLaps.

Lemma laps_all_complete_witness :
  exists s, Train.scheduled ext_example (Train.main_jobs 16) world_empty s /\
            forall k, (k < 16)%nat ->
                      k ∈ Train.succeeded s /\
                      is_Some (Train.fs (Train.sched_world s) !! k).
Proof.
  apply (laps_all_complete ext_example).
  - intros n. reflexivity.
  - intros _. simpl. lia.
Defined.

(** With a test set smaller than a batch the first epoch raises, in
    [np.stack(losses)] after the training steps: lap 0 dumps nothing. *)
Example train_no_test_batch_raises :
  fst (Train.train ext_no_test_batch 0 world_empty) = Train.Raised /\
  Train.fs (snd (Train.train ext_no_test_batch 0 world_empty)) = ∅ /\
  Train.calls_of 0 (Train.trace (snd (Train.train ext_no_test_batch 0 world_empty)))
  = [Train.Setup; Train.FitMoments;
     Train.Generate (Train.mkModel 1%nat None false);
     Train.Generate (Train.mkModel 1%nat None false);
     Train.MakeModel; Train.TrainMode true;
     Train.SgdStep true; Train.SgdStep true].
Proof. vm_compute. repeat split. Qed.
(* ===================================================================== *)
(** ** The sizes of the data sets and the number of optimisation steps    *)
(* ===================================================================== *)

Section DataSizes.
Context {Row X Model : Type}.
Variable sample : Model -> list Row -> nat -> list X.
Variable shuffle : Z -> list X -> list X.

Lemma full_batches_length {T} (batch_size : nat) (rows : list T) :
  length (full_batches batch_size rows) = (length rows / batch_size)%nat.
Proof. unfold full_batches. rewrite length_fmap, length_seq. reflexivity. Qed.

Lemma full_batches_full {T} (batch_size : nat) (rows : list T) :
  (0 < batch_size)%nat ->
  Forall (fun b => length b = batch_size) (full_batches batch_size rows).
Proof.
  intros Hbs. unfold full_batches. apply Forall_fmap, Forall_forall.
  intros k Hk. apply elem_of_seq in Hk. simpl.
  rewrite length_take, length_drop.
  pose proof (Nat.Div0.mul_div_le (length rows) batch_size).
  assert (S k * batch_size <= length rows / batch_size * batch_size)%nat
    by (apply Nat.mul_le_mono_r; lia).
  lia.
Qed.

Lemma join_imap_length {T U} (f : nat -> list T -> list U) (n : nat) (bs : list (list T)) :
  (forall k b, length (f k b) = length b) ->
  Forall (fun b => length b = n) bs ->
  length (mjoin (imap f bs)) = (length bs * n)%nat.
Proof.
  intros Hf Hbs. revert f Hf. induction Hbs as [|b bs Hb _ IH]; intros f Hf.
  - reflexivity.
  - rewrite imap_cons.
    change (mjoin (f 0%nat b :: imap (f ∘ S) bs))
      with (f 0%nat b ++ mjoin (imap (f ∘ S) bs)).
    rewrite length_app, Hf, Hb, (IH (f ∘ S)); [simpl; lia|].
    intros k b'. apply Hf.
Qed.

(** With a sampler that returns one sample per row: [generate] keeps the
    rows of the full batches, [len(dataset) // batch_size * batch_size]
    of them; every epoch then makes [len(dataset) // batch_size]
    optimisation steps, each on a full batch; and over all the epochs
    the steps made are at most [steps], the number the optimiser is
    built for, and miss it by less than one step per epoch. *)
Theorem generate_sizes (model : Model) (dataset : list Row) (rng batch_size : nat)
        (seed lap epochs epoch : Z) :
  (forall m b k, length (sample m b k) = length b) ->
  (forall s l, length (shuffle s l) = length l) ->
  (0 < batch_size)%nat -> 0 <= epochs ->
  let n := length dataset in
  let trainset := fst (generate sample model dataset rng batch_size) in
  let batches := loader shuffle trainset seed lap epochs epoch batch_size in
  length trainset = (n / batch_size * batch_size)%nat /\
  length batches = (n / batch_size)%nat /\
  Forall (fun b => length b = batch_size) batches /\
  epochs * Z.of_nat (length batches)
  <= steps epochs (Z.of_nat n) (Z.of_nat batch_size)
  <= epochs * Z.of_nat (length batches) + Z.max 0 (epochs - 1).
Proof.
  intros Hsample Hshuffle Hbs Hep n trainset batches.
  assert (length trainset = (n / batch_size * batch_size)%nat) as Hlen.
  { unfold trainset, generate. cbn [fst].
    rewrite (join_imap_length _ batch_size).
    - rewrite full_batches_length. reflexivity.
    - intros k b. apply Hsample.
    - apply full_batches_full. exact Hbs. }
  assert (length batches = (n / batch_size)%nat) as Hbatches.
  { unfold batches, loader. rewrite full_batches_length, Hshuffle, Hlen.
    apply Nat.div_mul. lia. }
  split; [exact Hlen|]. split; [exact Hbatches|].
  split; [apply full_batches_full; exact Hbs|].
  rewrite Hbatches. unfold steps.
  rewrite Nat2Z.inj_div.
  set (N := Z.of_nat n). set (B := Z.of_nat batch_size).
  assert (0 < B) by (unfold B; lia). assert (0 <= N) by (unfold N; lia).
  pose proof (Z.div_mod N B ltac:(lia)) as HN.
  pose proof (Z.mod_pos_bound N B ltac:(lia)) as HNm.
  pose proof (Z.div_mod (epochs * N) B ltac:(lia)) as HE.
  pose proof (Z.mod_pos_bound (epochs * N) B ltac:(lia)) as HEm.
  assert (0 <= N / B) by (apply Z.div_pos; lia).
  split.
  - apply Z.div_le_lower_bound; [lia|]. nia.
  - destruct (Z.eq_dec epochs 0) as [->|Hne].
    + rewrite !Z.mul_0_l. rewrite Z.div_0_l by lia. lia.
    + rewrite Z.max_r by lia.
      assert (epochs * N / B < epochs * (N / B) + epochs); [|lia].
      apply Z.div_lt_upper_bound; [lia|]. nia.
Qed.
End DataSizes.

Lemma generate_sizes_witness :
  length (fst (generate sample_rows tt (seqZ 0 10) 0 4))
  = (length (seqZ 0 10) / 4 * 4)%nat /\
  length (loader shuffle_reverse (fst (generate sample_rows tt (seqZ 0 10) 0 4)) 7 1 3 2 4)
  = (length (seqZ 0 10) / 4)%nat /\
  Forall (fun b => length b = 4%nat)
         (loader shuffle_reverse (fst (generate sample_rows tt (seqZ 0 10) 0 4)) 7 1 3 2 4) /\
  3 * Z.of_nat (length (loader shuffle_reverse
                          (fst (generate sample_rows tt (seqZ 0 10) 0 4)) 7 1 3 2 4))
  <= steps 3 (Z.of_nat (length (seqZ 0 10))) (Z.of_nat 4)
  <= 3 * Z.of_nat (length (loader shuffle_reverse
                             (fst (generate sample_rows tt (seqZ 0 10) 0 4)) 7 1 3 2 4))
     + Z.max 0 (3 - 1).
Proof.
  apply (generate_sizes sample_rows shuffle_reverse tt (seqZ 0 10) 0 4 7 1 3 2).
  - intros; reflexivity.
  - intros; apply length_reverse.
  - lia.
  - lia.
Defined.
